(** * Kodcord gateway shard: a shallow embedding of [core/sharding/shard.ts]

    The class [Shard] is embedded as a record, its getters as functions of
    that record and its methods as functions of a [Machine]: the shard
    together with the part of the JavaScript runtime the methods act on
    (interval timers, the clock, the promises parked in the offline queue,
    the callers parked on the connect gate, the answers of the [URL] and
    [WebSocket] constructors) and the list of effects the methods performed
    on collaborators that are not part of the class (the socket, the
    logger, the payload sink).

    An [async] method runs without interruption until it waits for a
    promise that somebody else resolves: the connect gate
    ([connectTimeout.wait()]) and the promises [checkOffline] parks in
    [offlineSendQueue].  There the method stops, and what is left of it
    runs when the promise is resolved.  Every other [await] of the class
    waits for a promise that is resolved already and is a mere sequencing
    of statements.

    Numbers that the gateway protocol declares as integers (sequence
    numbers, intervals in milliseconds, close codes, request counts) are
    [Z]; the runtime computes with them exactly as long as they are safe
    integers, and the section on the numbers of the runtime says what it
    does beyond.  Strings are [string], one character per code unit. *)

From Stdlib Require Import ZArith List Bool String Ascii Lia Arith Sorted.
From Stdlib Require Import SpecFloat.
Import ListNotations.

Local Open Scope string_scope.
Local Open Scope Z_scope.
Local Set Warnings "-register-all".

(** ** JavaScript numbers produced by a division

    [calculateSafeRequests] divides by the heartbeat interval, so its result
    may be an infinity or [NaN] besides an integer. *)

Inductive number : Type :=
| Num (z : Z)
| PosInfinity
| NegInfinity
| NaN.

(** [Math.ceil(a / b)] for integers [a] and [b]. *)
Definition ceil_div (a b : Z) : number :=
  if b =? 0 then
    (if 0 <? a then PosInfinity else if a <? 0 then NegInfinity else NaN)
  else Num (- ((- a) / b)).

(** [x * 2] *)
Definition times2 (x : number) : number :=
  match x with
  | Num z => Num (z * 2)
  | other => other
  end.

(** [m - x] for an integer [m] *)
Definition minus (m : Z) (x : number) : number :=
  match x with
  | Num z => Num (m - z)
  | PosInfinity => NegInfinity
  | NegInfinity => PosInfinity
  | NaN => NaN
  end.

(** [x < 0] *)
Definition negative (x : number) : bool :=
  match x with
  | Num z => z <? 0
  | NegInfinity => true
  | PosInfinity | NaN => false
  end.

(** ** The numbers of the runtime

    A JavaScript number is a binary64 floating-point number.  Every integer
    up to [MAX_SAFE_INTEGER] in magnitude is one, and the integer
    arithmetic above is what the runtime computes as long as the operands
    and the results stay in that range.  Beyond it the runtime rounds; the
    module [Binary64] has the operations as the runtime does them, after
    IEEE 754, on the numbers themselves. *)

(** [Number.MAX_SAFE_INTEGER], 2^53 - 1 *)
Definition MAX_SAFE_INTEGER : Z := 9007199254740991.

Module Binary64.

Definition prec : Z := 53.
Definition emax : Z := 1024.

(** The number nearest to an integer. *)
Definition of_Z (n : Z) : spec_float := binary_normalize prec emax n 0 false.

(** The integer a number is, if it is one. *)
Definition to_Z (x : spec_float) : option Z :=
  match x with
  | S754_zero _ => Some 0
  | S754_finite s m e =>
      if 0 <=? e then Some (cond_Zopp s (Z.pos m * 2 ^ e))
      else if Z.pos m mod 2 ^ (- e) =? 0
           then Some (cond_Zopp s (Z.pos m / 2 ^ (- e)))
           else None
  | S754_infinity _ | S754_nan => None
  end.

(** [Math.ceil(x)] *)
Definition ceil (x : spec_float) : spec_float :=
  match x with
  | S754_finite s m e =>
      if 0 <=? e then x
      else
        let whole := Z.pos m / 2 ^ (- e) in
        if s then
          (if whole =? 0 then S754_zero true else of_Z (- whole))
        else
          of_Z (if Z.pos m mod 2 ^ (- e) =? 0 then whole else whole + 1)
  | other => other
  end.

(** [calculateSafeRequests()], given the two limits and the heartbeat
    interval. *)
Definition calculateSafeRequests
           (maxRequestsPerRateLimitTick rateLimitResetInterval interval : spec_float)
  : spec_float :=
  let SAFE_REQUESTS :=
    SFsub prec emax maxRequestsPerRateLimitTick
          (SFmul prec emax
                 (ceil (SFdiv prec emax rateLimitResetInterval interval))
                 (of_Z 2)) in
  if SFltb SAFE_REQUESTS (S754_zero false) then S754_zero false
  else SAFE_REQUESTS.

End Binary64.

(** ** JSON values carried by gateway payloads *)

Inductive JSON : Type :=
| JUndefined
| JNull
| JBool (b : bool)
| JNum (z : Z)
| JStr (s : string)
| JArr (items : list JSON)
| JObj (fields : list (string * JSON)).

(** ** Strings: [split], [repeat], [replaceAll] *)

Module Str.

(** [s.split(".")]: the segments between the dots, never empty. *)
Fixpoint split_dot (s : string) : list string :=
  match s with
  | EmptyString => [EmptyString]
  | String c rest =>
      match split_dot rest with
      | seg :: segs =>
          if Ascii.eqb c "."%char then EmptyString :: seg :: segs
          else String c seg :: segs
      | [] => [String c EmptyString]
      end
  end.

(** ["*".repeat(n)] *)
Fixpoint stars (n : nat) : string :=
  match n with
  | O => EmptyString
  | S k => String "*"%char (stars k)
  end.

(** [value.replaceAll(pattern, fn)] with a string pattern.  Matches are
    found left to right and do not overlap; the empty pattern matches
    before every code unit and at the end.  [fn] receives the matched
    text; [None] is an exception thrown by [fn].  [skip] counts the code
    units of the current match that are still to be dropped. *)
Fixpoint replaceAll_from (pattern : string) (fn : string -> option string)
         (skip : nat) (value : string) : option string :=
  match skip with
  | S k =>
      match value with
      | EmptyString => Some EmptyString
      | String _ rest => replaceAll_from pattern fn k rest
      end
  | O =>
      if prefix pattern value then
        match fn pattern with
        | None => None
        | Some replacement =>
            match value with
            | EmptyString => Some replacement
            | String c rest =>
                match String.length pattern with
                | O =>
                    option_map (fun out => replacement ++ String c out)
                               (replaceAll_from pattern fn O rest)
                | S k =>
                    option_map (fun out => replacement ++ out)
                               (replaceAll_from pattern fn k rest)
                end
            end
        end
      else
        match value with
        | EmptyString => Some EmptyString
        | String c rest =>
            option_map (String c) (replaceAll_from pattern fn O rest)
        end
  end.

Definition replaceAll (value pattern : string) (fn : string -> option string)
  : option string :=
  replaceAll_from pattern fn O value.

End Str.

(** ** The data of a shard ([types.d.ts]) *)

(** [resume_seq] is declared [number | null], and [data] is a
    [Partial<ShardData>]: the key may hold a number, hold [null], or be
    absent, in which case reading it gives [undefined]. *)
Inductive ResumeSeq : Type :=
| Undefined
| Null
| Seq (n : Z).

Record ShardData : Type := mkShardData {
  resume_seq : ResumeSeq;
  resume_gateway_url : option string;
  session_id : option string
}.

Definition Timer : Type := nat.

Record ShardHeart : Type := mkShardHeart {
  interval : Z;
  nodeInterval : option Timer;
  lastAck : option Z;
  lastBeat : option Z;
  ack : bool
}.

Record RatelimitOptions : Type := mkRatelimitOptions {
  maxRequestsPerRateLimitTick : Z;
  rateLimitResetInterval : Z
}.

Record IdentifyProperties : Type := mkIdentifyProperties {
  os : string;
  browser : string;
  device : string
}.

(** The two fields of [APIGatewayBotInfo] the shard reads. *)
Record GatewayBotInfo : Type := mkGatewayBotInfo {
  info_url : string;
  info_shards : Z
}.

(** [ShardOptions] as the caller passes them: an optional key is either
    left out, which is [None], or passed with a value. *)
Record ShardOptions : Type := mkShardOptions {
  token : string;
  intents : Z;
  properties : option IdentifyProperties;
  info : GatewayBotInfo;
  ratelimitOptions : option RatelimitOptions;
  debug : bool;
  compress : bool;
  presence : option JSON
}.

(** The options a shard keeps: [properties] and [ratelimitOptions] are
    required after the constructor merged the defaults. *)
Record ResolvedOptions : Type := mkResolvedOptions {
  opt_token : string;
  opt_intents : Z;
  opt_properties : IdentifyProperties;
  opt_info : GatewayBotInfo;
  opt_ratelimitOptions : RatelimitOptions;
  opt_compress : bool;
  opt_presence : option JSON
}.

(** [ShardSocketCloseCodes] *)
Module ShardSocketCloseCodes.
Definition Shutdown : Z := 3000.
Definition ZombiedConnection : Z := 3010.
End ShardSocketCloseCodes.

(** [GatewayCloseCodes] of discord-api-types/v10. *)
Module GatewayCloseCodes.
Definition UnknownError : Z := 4000.
Definition UnknownOpcode : Z := 4001.
Definition DecodeError : Z := 4002.
Definition NotAuthenticated : Z := 4003.
Definition AuthenticationFailed : Z := 4004.
Definition AlreadyAuthenticated : Z := 4005.
Definition InvalidSeq : Z := 4007.
Definition RateLimited : Z := 4008.
Definition SessionTimedOut : Z := 4009.
Definition InvalidShard : Z := 4010.
Definition ShardingRequired : Z := 4011.
Definition InvalidAPIVersion : Z := 4012.
Definition InvalidIntents : Z := 4013.
Definition DisallowedIntents : Z := 4014.
End GatewayCloseCodes.

(** [GatewayOpcodes] of discord-api-types/v10. *)
Module GatewayOpcodes.
Definition Dispatch : Z := 0.
Definition Heartbeat : Z := 1.
Definition Identify : Z := 2.
Definition Resume : Z := 6.
Definition Reconnect : Z := 7.
Definition InvalidSession : Z := 9.
Definition Hello : Z := 10.
Definition HeartbeatAck : Z := 11.
End GatewayOpcodes.

(** ** Collaborators of the class

    [Bucket] (of [@core/bucket]) is used through its constructor and its
    method [process] only, and [send] does not wait for what [process]
    returns: a bucket is represented by the argument of its constructor and
    the calls of [process] made so far, oldest first. *)
Record Bucket : Type := mkBucket {
  safe : number;
  processed : list bool
}.

Definition Bucket_new (SAFE : number) : Bucket := mkBucket SAFE [].

Definition Bucket_process (force : bool) (b : Bucket) : Bucket :=
  mkBucket (safe b) (processed b ++ [force]).

(** The URL a socket is opened with: the [href] of the URL parsed from
    [base], with the search parameter [v] set. *)
Record GatewayURL : Type := mkGatewayURL {
  base : string;
  search_v : string
}.

(** A [WebSocket]: [readyState] is 0 (connecting), 1 (open), 2 (closing)
    or 3 (closed). *)
Record WebSocket : Type := mkWebSocket {
  url : GatewayURL;
  readyState : Z
}.

(** [new Logger({ prefix, from })]; [from] is the text [[Shard #id]], kept
    as the id. *)
Record Logger : Type := mkLogger {
  log_prefix : string;
  log_from : Z
}.

(** A [GatewaySendPayload]. *)
Record Payload : Type := mkPayload {
  op : Z;
  d : JSON
}.

(** A [GatewayReceivePayload], by the opcodes and dispatch events
    [onpacket] tells apart. *)
Inductive DispatchEvent : Type :=
| Resumed
| Ready (ready_resume_gateway_url ready_session_id : string)
| OtherEvent (t : string) (body : JSON).

Inductive PacketBody : Type :=
| Hello (heartbeat_interval : Z)
| HeartbeatAck
| Heartbeat
| Reconnect
| InvalidSession (resumable_hint : bool)
| Dispatch (event : DispatchEvent)
| OtherOpcode (opcode : Z).

Record Packet : Type := mkPacket {
  packet_s : option Z;
  packet_body : PacketBody
}.

(** A promise parked in [offlineSendQueue] belongs to one call of [send]
    that waits in [checkOffline]; resolving it lets that call go on, either
    from its first [await] (the bucket is still to be charged) or from its
    second (only the write is left). *)
Inductive Stage : Type := BeforeBucket | BeforeWrite.

Record Resolver : Type := mkResolver {
  promise : nat;
  parked_force : bool;
  parked_message : Payload;
  parked_stage : Stage
}.

Record Shard : Type := mkShard {
  id : Z;
  options : ResolvedOptions;
  logger : option Logger;
  data : ShardData;
  heart : ShardHeart;
  websocket : option WebSocket;
  bucket : Bucket;
  offlineSendQueue : list Resolver
}.

(** What the methods do to the world outside the class. *)
Inductive Level : Type := Debug | Inform | Warn | Throw.

Inductive LogLine : Type :=
| AttemptedToConnectWhileOpen
| ConnectingTo (u : GatewayURL)
| Sending (opcode : Z) (redacted : JSON)
| SendingHeartbeat (requested acked : bool)
| Disconnecting
| Reconnecting
| PacketSeen (name : option string) (opcode : Z) (seq : ResumeSeq)
| ClosedWith (code : Z) (reason : string)
| TryingToReconnect
| CannotReconnect
| UnknownCloseCode
| UnexpectedInvalidSession
| IsNotOpen (reason : string)
| CalledClose (reason : string)
| DecodeFailure
| SocketError.

Inductive Effect : Type :=
| Log (level : Level) (line : LogLine)
| TypeError
| SyntaxError
| ConnectWait
| NewWebSocket (u : GatewayURL)
| WsSend (frame : Payload)
| WsClose (code : Z) (reason : string)
| HandlePayload (shardId : Z) (packet : Packet).

(** What the runtime answers when the shard builds a URL and a socket:
    [URL_canParse text] tells whether [new URL(text)] returns a URL (it
    throws a [TypeError] otherwise), [WebSocket_accepts u] whether
    [new WebSocket(u)] returns a socket (it throws a [SyntaxError]
    otherwise, as for a scheme that is not one of a socket). *)
Record Runtime : Type := mkRuntime {
  URL_canParse : string -> bool;
  WebSocket_accepts : GatewayURL -> bool
}.

Record Machine : Type := mkMachine {
  shard : Shard;
  timers : list (Timer * Z);
  nextTimer : Timer;
  clock : Z;
  nextPromise : nat;
  settled : list nat;
  gate : nat;
  effects : list Effect;
  runtime : Runtime
}.

(** ** Field updates *)

Definition set_data (f : ShardData -> ShardData) (sh : Shard) : Shard :=
  mkShard (id sh) (options sh) (logger sh) (f (data sh)) (heart sh)
          (websocket sh) (bucket sh) (offlineSendQueue sh).

Definition set_heart (f : ShardHeart -> ShardHeart) (sh : Shard) : Shard :=
  mkShard (id sh) (options sh) (logger sh) (data sh) (f (heart sh))
          (websocket sh) (bucket sh) (offlineSendQueue sh).

Definition set_websocket (w : option WebSocket) (sh : Shard) : Shard :=
  mkShard (id sh) (options sh) (logger sh) (data sh) (heart sh)
          w (bucket sh) (offlineSendQueue sh).

Definition set_bucket (b : Bucket) (sh : Shard) : Shard :=
  mkShard (id sh) (options sh) (logger sh) (data sh) (heart sh)
          (websocket sh) b (offlineSendQueue sh).

Definition set_offlineSendQueue (q : list Resolver) (sh : Shard) : Shard :=
  mkShard (id sh) (options sh) (logger sh) (data sh) (heart sh)
          (websocket sh) (bucket sh) q.

Definition with_resume_seq (x : ResumeSeq) (dt : ShardData) : ShardData :=
  mkShardData x (resume_gateway_url dt) (session_id dt).

Definition with_resume_gateway_url (x : option string) (dt : ShardData) : ShardData :=
  mkShardData (resume_seq dt) x (session_id dt).

Definition with_session_id (x : option string) (dt : ShardData) : ShardData :=
  mkShardData (resume_seq dt) (resume_gateway_url dt) x.

Definition with_interval (x : Z) (h : ShardHeart) : ShardHeart :=
  mkShardHeart x (nodeInterval h) (lastAck h) (lastBeat h) (ack h).

Definition with_nodeInterval (x : option Timer) (h : ShardHeart) : ShardHeart :=
  mkShardHeart (interval h) x (lastAck h) (lastBeat h) (ack h).

Definition with_lastAck (x : option Z) (h : ShardHeart) : ShardHeart :=
  mkShardHeart (interval h) (nodeInterval h) x (lastBeat h) (ack h).

Definition with_lastBeat (x : option Z) (h : ShardHeart) : ShardHeart :=
  mkShardHeart (interval h) (nodeInterval h) (lastAck h) x (ack h).

Definition with_ack (x : bool) (h : ShardHeart) : ShardHeart :=
  mkShardHeart (interval h) (nodeInterval h) (lastAck h) (lastBeat h) x.

Definition on_shard (f : Shard -> Shard) (m : Machine) : Machine :=
  mkMachine (f (shard m)) (timers m) (nextTimer m) (clock m)
            (nextPromise m) (settled m) (gate m) (effects m) (runtime m).

Definition emit (e : Effect) (m : Machine) : Machine :=
  mkMachine (shard m) (timers m) (nextTimer m) (clock m)
            (nextPromise m) (settled m) (gate m) (effects m ++ [e]) (runtime m).

(** [f ;; g]: the statement [f], then the statement [g]. *)
Definition andThen (f g : Machine -> Machine) : Machine -> Machine :=
  fun m => g (f m).
Notation "f ;; g" := (andThen f g) (at level 61, right associativity).

Definition skip : Machine -> Machine := fun m => m.

(** [this.logger?.level(line)]: nothing happens without a logger. *)
Definition log (level : Level) (line : LogLine) : Machine -> Machine :=
  fun m =>
    match logger (shard m) with
    | Some _ => emit (Log level line) m
    | None => m
    end.

(** ** Getters *)

(** [get isOpen] *)
Definition isOpen (sh : Shard) : bool :=
  match websocket sh with
  | Some ws => readyState ws =? 1
  | None => false
  end.

(** Truthiness of an optional string: [undefined] and the empty string are
    falsy. *)
Definition truthy (x : option string) : bool :=
  match x with
  | Some EmptyString | None => false
  | Some (String _ _) => true
  end.

(** [get resumable]: [resume_seq !== null] holds of a number and of
    [undefined]. *)
Definition resumable (sh : Shard) : bool :=
  truthy (resume_gateway_url (data sh))
  && truthy (session_id (data sh))
  && match resume_seq (data sh) with Null => false | _ => true end.

(** [get latency]: a timestamp that is unset or 0 is falsy. *)
Definition latency (sh : Shard) : number :=
  match lastAck (heart sh), lastBeat (heart sh) with
  | Some acked, Some beat =>
      if (acked =? 0) || (beat =? 0) then PosInfinity else Num (acked - beat)
  | _, _ => PosInfinity
  end.

(** [get gatewayURL] *)
Definition gatewayURL (sh : Shard) : string :=
  info_url (opt_info (options sh)).

(** [get resumeGatewayURL] *)
Definition resumeGatewayURL (sh : Shard) : option string :=
  resume_gateway_url (data sh).

(** The text [currentGatewayURL] hands to [new URL]:
    [this.resumeGatewayURL ?? this.options.info.url]. *)
Definition currentGatewayText (sh : Shard) : string :=
  match resumeGatewayURL sh with
  | Some u => u
  | None => info_url (opt_info (options sh))
  end.

(** [new URL(text)]: the empty string is not a URL, whatever the runtime;
    [None] is the [TypeError] thrown for a text that is not a URL. *)
Definition URL_new (rt : Runtime) (text : string) : option string :=
  match text with
  | EmptyString => None
  | String _ _ => if URL_canParse rt text then Some text else None
  end.

(** [get currentGatewayURL]: the URL with the search parameter [v] set to
    10, or the [TypeError] of [new URL]. *)
Definition currentGatewayURL (rt : Runtime) (sh : Shard) : option GatewayURL :=
  match URL_new rt (currentGatewayText sh) with
  | Some GATEWAY_URL => Some (mkGatewayURL GATEWAY_URL "10")
  | None => None
  end.

(** [calculateSafeRequests()], on limits and an interval that are
    integers. *)
Definition calculateSafeRequests (o : ResolvedOptions) (h : ShardHeart) : number :=
  let SAFE_REQUESTS :=
    minus (maxRequestsPerRateLimitTick (opt_ratelimitOptions o))
          (times2 (ceil_div (rateLimitResetInterval (opt_ratelimitOptions o))
                            (interval h))) in
  if negative SAFE_REQUESTS then Num 0 else SAFE_REQUESTS.

(** ** The constructor *)

(** [PROPERTIES]; [process.platform] is a parameter of the constructor. *)
Definition PROPERTIES (platform : string) : IdentifyProperties :=
  mkIdentifyProperties platform "Seyfert" "Seyfert".

Definition default_ratelimitOptions : RatelimitOptions :=
  mkRatelimitOptions 120 60000.

(** The field initialisers run before the body of the constructor. *)
Definition initial_data : ShardData := mkShardData Null None None.
Definition initial_heart : ShardHeart := mkShardHeart 30000 None None None true.

Definition resolve_options (platform : string) (o : ShardOptions) : ResolvedOptions :=
  mkResolvedOptions
    (token o) (intents o)
    (match properties o with Some p => p | None => PROPERTIES platform end)
    (info o)
    (match ratelimitOptions o with Some r => r | None => default_ratelimitOptions end)
    (compress o) (presence o).

(** [new Shard(id, options)] *)
Definition Shard_new (platform : string) (id0 : Z) (o : ShardOptions) : Shard :=
  let this_options := resolve_options platform o in
  let this_logger := if debug o then Some (mkLogger "SHARD" id0) else None in
  let SAFE := calculateSafeRequests this_options initial_heart in
  mkShard id0 this_options this_logger initial_data initial_heart
          None (Bucket_new SAFE) [].

(** The runtime around a fresh shard. *)
Definition boot (rt : Runtime) (sh : Shard) (now : Z) : Machine :=
  mkMachine sh [] O now O [] O [] rt.

(** ** Logging a payload with the token masked ([send]) *)

(** The function given to [replaceAll]: [SPLIT[1].length] and
    [SPLIT[2].length] throw when the matched text has fewer than three
    segments. *)
Definition mask (matched : string) : option string :=
  let SPLIT := Str.split_dot matched in
  match nth_error SPLIT 1, nth_error SPLIT 2 with
  | Some seg1, Some seg2 =>
      Some (nth 0 SPLIT EmptyString ++ "."
            ++ Str.stars (String.length seg1) ++ "."
            ++ Str.stars (String.length seg2))
  | _, _ => None
  end.

(** The replacer given to [JSON.stringify], applied to a string value. *)
Definition replacer (tok value : string) : option string :=
  Str.replaceAll value tok mask.

(** [JSON.stringify(d, replacer, 1)] hands every value of the tree to the
    replacer, which rewrites strings and returns everything else as it is;
    the text logged is the serialisation of the tree so rewritten.  Keys are
    not values and stay as they are. *)
Fixpoint redact (tok : string) (value : JSON) : option JSON :=
  match value with
  | JStr text => option_map JStr (replacer tok text)
  | JArr items =>
      option_map JArr
        ((fix each (l : list JSON) : option (list JSON) :=
            match l with
            | [] => Some []
            | x :: rest =>
                match redact tok x with
                | None => None
                | Some x' => option_map (cons x') (each rest)
                end
            end) items)
  | JObj fields =>
      option_map JObj
        ((fix each (l : list (string * JSON)) : option (list (string * JSON)) :=
            match l with
            | [] => Some []
            | (k, x) :: rest =>
                match redact tok x with
                | None => None
                | Some x' => option_map (cons (k, x')) (each rest)
                end
            end) fields)
  | other => Some other
  end.

(** ** Timers and the clock *)

(** [clearInterval(h)] and [clearTimeout(h)] *)
Definition clearInterval (h : option Timer) : Machine -> Machine :=
  fun m =>
    match h with
    | None => m
    | Some t =>
        mkMachine (shard m)
                  (filter (fun e => negb (Nat.eqb (fst e) t)) (timers m))
                  (nextTimer m) (clock m) (nextPromise m) (settled m)
                  (gate m) (effects m) (runtime m)
    end.

(** [this.heart.nodeInterval = setInterval(() => this.heartbeat(false), ms)] *)
Definition setInterval_nodeInterval (ms : Z) : Machine -> Machine :=
  fun m =>
    let t := nextTimer m in
    mkMachine (set_heart (with_nodeInterval (Some t)) (shard m))
              (timers m ++ [(t, ms)])
              (S t) (clock m) (nextPromise m) (settled m)
              (gate m) (effects m) (runtime m).

(** ** The socket *)

(** [this.websocket?.send(JSON.stringify(frame))] *)
Definition websocket_send (frame : Payload) : Machine -> Machine :=
  fun m =>
    match websocket (shard m) with
    | Some _ => emit (WsSend frame) m
    | None => m
    end.

(** [this.websocket?.close(code, reason)]: the socket is closing from
    here on. *)
Definition websocket_close (code : Z) (reason : string) : Machine -> Machine :=
  fun m =>
    match websocket (shard m) with
    | Some ws =>
        emit (WsClose code reason)
             (on_shard (set_websocket (Some (mkWebSocket (url ws) 2))) m)
    | None => m
    end.

(** ** Methods *)

(** [close(code, reason)] *)
Definition close (code : Z) (reason : string) : Machine -> Machine :=
  fun m =>
    let m := clearInterval (nodeInterval (heart (shard m))) m in
    if negb (isOpen (shard m)) then log Warn (IsNotOpen reason) m
    else (log Debug (CalledClose reason) ;; websocket_close code reason) m.

(** [heartbeat(requested)] *)
Definition heartbeat (requested : bool) : Machine -> Machine :=
  fun m =>
    let m := log Debug (SendingHeartbeat requested (ack (heart (shard m)))) m in
    let beat : Machine -> Machine :=
      (fun m => on_shard (set_heart (with_lastBeat (Some (clock m)))) m) ;;
      (fun m => websocket_send
                  (mkPayload GatewayOpcodes.Heartbeat
                             (match resume_seq (data (shard m)) with
                              | Seq n => JNum n
                              | Null | Undefined => JNull
                              end)) m) in
    if negb requested then
      if negb (ack (heart (shard m))) then
        close ShardSocketCloseCodes.ZombiedConnection "Zombied connection" m
      else (on_shard (set_heart (with_ack false)) ;; beat) m
    else beat m.

(** [disconnect()] *)
Definition disconnect : Machine -> Machine :=
  log Inform Disconnecting ;;
  close ShardSocketCloseCodes.Shutdown "Shard down request".

(** [connect()] up to [await this.connectTimeout.wait()]: the caller joins
    the connect gate. *)
Definition connect : Machine -> Machine :=
  fun m =>
    mkMachine (shard m) (timers m) (nextTimer m) (clock m)
              (nextPromise m) (settled m) (S (gate m))
              (effects m ++ [ConnectWait]) (runtime m).

(** [this.websocket = new WebSocket(u)]: when the constructor throws, the
    field keeps the socket it had. *)
Definition WebSocket_new (u : GatewayURL) : Machine -> Machine :=
  fun m =>
    if WebSocket_accepts (runtime m) u then
      (emit (NewWebSocket u) ;;
       on_shard (set_websocket (Some (mkWebSocket u 0)))) m
    else emit SyntaxError m.

(** [connect()] from the point where the gate lets the caller through.
    [currentGatewayURL] is read for the log line when there is a logger and
    for the socket in any case; when it throws, the heartbeat timer is
    cancelled already and nothing else is done. *)
Definition connect_resumed : Machine -> Machine :=
  fun m =>
    if isOpen (shard m) then log Debug AttemptedToConnectWhileOpen m
    else
      (clearInterval (nodeInterval (heart (shard m))) ;;
       (fun m =>
          match currentGatewayURL (runtime m) (shard m) with
          | None => emit TypeError m
          | Some u => (log Debug (ConnectingTo u) ;; WebSocket_new u) m
          end)) m.

(** [reconnect()] *)
Definition reconnect : Machine -> Machine :=
  log Inform Reconnecting ;; disconnect ;; connect.

(** [this.websocket.onopen] *)
Definition onopen : Machine -> Machine :=
  on_shard (set_heart (with_ack true)).

(** [this.websocket.onerror] *)
Definition onerror : Machine -> Machine :=
  log Throw SocketError.

(** [checkOffline(force)] while the socket is not open: a new promise whose
    resolver goes to the front of [offlineSendQueue] ([unshift]) when
    [force] is set and to its end ([push]) otherwise. *)
Definition park (force : bool) (message : Payload) (stage : Stage)
  : Machine -> Machine :=
  fun m =>
    let resolve := mkResolver (nextPromise m) force message stage in
    let queue := offlineSendQueue (shard m) in
    mkMachine (set_offlineSendQueue
                 (if force then resolve :: queue else queue ++ [resolve])
                 (shard m))
              (timers m) (nextTimer m) (clock m)
              (S (nextPromise m)) (settled m) (gate m) (effects m) (runtime m).

(** [await this.checkOffline(force)] followed by [rest]: with the socket
    open the promise is already resolved; otherwise the call of [send] the
    [await] belongs to stays parked. *)
Definition checkOffline (force : bool) (message : Payload) (stage : Stage)
           (rest : Machine -> Machine) : Machine -> Machine :=
  fun m =>
    if negb (isOpen (shard m)) then park force message stage m
    else rest m.

(** [send] from [this.bucket.process(force)] on. *)
Definition send_charged (force : bool) (message : Payload) : Machine -> Machine :=
  on_shard (fun sh => set_bucket (Bucket_process force (bucket sh)) sh) ;;
  checkOffline force message BeforeWrite (websocket_send message).

(** [send(force, message)] *)
Definition send (force : bool) (message : Payload) : Machine -> Machine :=
  fun m =>
    let rest := checkOffline force message BeforeBucket
                             (send_charged force message) in
    match logger (shard m) with
    | None => rest m
    | Some _ =>
        match redact (opt_token (options (shard m))) (d message) with
        | None => emit TypeError m
        | Some shown => (emit (Log Inform (Sending (op message) shown)) ;; rest) m
        end
    end.

(** What resolving a parked promise lets run. *)
Definition resolved (resolve : Resolver) : Machine -> Machine :=
  match parked_stage resolve with
  | BeforeBucket => send_charged (parked_force resolve) (parked_message resolve)
  | BeforeWrite => websocket_send (parked_message resolve)
  end.

(** The resolvers of the queue whose promise is still pending, in the order
    of the queue; calling one of the others does nothing. *)
Definition pending (m : Machine) : list Resolver :=
  filter (fun r => negb (existsb (Nat.eqb (promise r)) (settled m)))
         (offlineSendQueue (shard m)).

Definition settle (rs : list Resolver) : Machine -> Machine :=
  fun m =>
    mkMachine (shard m) (timers m) (nextTimer m) (clock m) (nextPromise m)
              (settled m ++ map promise rs) (gate m) (effects m) (runtime m).

Definition run_resolved (rs : list Resolver) : Machine -> Machine :=
  fun m => fold_left (fun acc r => resolved r acc) rs m.

(** [this.offlineSendQueue.map((resolve) => resolve())] followed by the
    rest of the handler: the promises are resolved in the order of the
    array, which stays as it is; the calls of [send] they wake run, in that
    order, once the handler has returned.  Each of them charges the bucket
    and then writes; they are run here one after the other, which charges
    the bucket and writes the frames in the same two orders as running
    them in turns does. *)
Definition flush_offlineSendQueue (rest : Machine -> Machine) : Machine -> Machine :=
  fun m =>
    let rs := pending m in
    (settle rs ;; rest ;; run_resolved rs) m.

Definition properties_json (p : IdentifyProperties) : JSON :=
  JObj [("os", JStr (os p)); ("browser", JStr (browser p));
        ("device", JStr (device p))].

(** [identify()] *)
Definition identify : Machine -> Machine :=
  fun m =>
    let sh := shard m in
    let o := options sh in
    send true
         (mkPayload GatewayOpcodes.Identify
            (JObj [("token", JStr ("Bot " ++ opt_token o));
                   ("compress", JBool (opt_compress o));
                   ("properties", properties_json (opt_properties o));
                   ("shard", JArr [JNum (id sh); JNum (info_shards (opt_info o))]);
                   ("intents", JNum (opt_intents o));
                   ("presence", match opt_presence o with
                                | Some p => p
                                | None => JUndefined
                                end)]))
         m.

(** The frame [resume()] builds. *)
Definition resume_frame (sh : Shard) : Payload :=
  mkPayload GatewayOpcodes.Resume
    (JObj [("seq", JNum (match resume_seq (data sh) with
                         | Seq n => n
                         | Null | Undefined => 0
                         end));
           ("session_id", JStr (match session_id (data sh) with
                                | Some sid => sid
                                | None => EmptyString
                                end));
           ("token", JStr ("Bot " ++ opt_token (options sh)))]).

(** [resume()] *)
Definition resume : Machine -> Machine :=
  fun m => send true (resume_frame (shard m)) m.

Definition packet_op (packet : Packet) : Z :=
  match packet_body packet with
  | Hello _ => GatewayOpcodes.Hello
  | HeartbeatAck => GatewayOpcodes.HeartbeatAck
  | Heartbeat => GatewayOpcodes.Heartbeat
  | Reconnect => GatewayOpcodes.Reconnect
  | InvalidSession _ => GatewayOpcodes.InvalidSession
  | Dispatch _ => GatewayOpcodes.Dispatch
  | OtherOpcode o => o
  end.

Definition packet_t (packet : Packet) : option string :=
  match packet_body packet with
  | Dispatch Resumed => Some "RESUMED"
  | Dispatch (Ready _ _) => Some "READY"
  | Dispatch (OtherEvent t _) => Some t
  | _ => None
  end.

Definition handlePayload (packet : Packet) : Machine -> Machine :=
  fun m => emit (HandlePayload (id (shard m)) packet) m.

(** [onpacket(packet)] *)
Definition onpacket (packet : Packet) : Machine -> Machine :=
  (fun m =>
     match packet_s packet with
     | Some n => on_shard (set_data (with_resume_seq (Seq n))) m
     | None => m
     end) ;;
  (fun m => log Debug (PacketSeen (packet_t packet) (packet_op packet)
                                  (resume_seq (data (shard m)))) m) ;;
  match packet_body packet with
  | Hello heartbeat_interval =>
      (fun m => clearInterval (nodeInterval (heart (shard m))) m) ;;
      on_shard (set_heart (with_interval heartbeat_interval)) ;;
      heartbeat false ;;
      (fun m => setInterval_nodeInterval (interval (heart (shard m))) m) ;;
      (fun m => if resumable (shard m) then resume m else identify m)
  | HeartbeatAck =>
      on_shard (set_heart (with_ack true)) ;;
      (fun m => on_shard (set_heart (with_lastAck (Some (clock m)))) m)
  | Heartbeat => heartbeat true
  | Reconnect => reconnect
  | InvalidSession resumable_hint =>
      if resumable_hint then
        (fun m =>
           if negb (resumable (shard m)) then log Throw UnexpectedInvalidSession m
           else resume m)
      else
        on_shard (set_data (with_resume_seq (Seq 0))) ;;
        on_shard (set_data (with_session_id None)) ;;
        identify
  | Dispatch Resumed =>
      flush_offlineSendQueue (handlePayload packet)
  | Dispatch (Ready ready_resume_gateway_url ready_session_id) =>
      on_shard (set_data (with_resume_gateway_url (Some ready_resume_gateway_url))) ;;
      on_shard (set_data (with_session_id (Some ready_session_id))) ;;
      flush_offlineSendQueue (handlePayload packet)
  | Dispatch (OtherEvent _ _) => handlePayload packet
  | OtherOpcode _ => skip
  end.

(** Membership of a close code in a list of [case] labels. *)
Definition oneOf (code : Z) (cases : list Z) : bool :=
  existsb (Z.eqb code) cases.

Definition resumable_loss_codes : list Z :=
  [1000; GatewayCloseCodes.UnknownOpcode; GatewayCloseCodes.InvalidSeq;
   GatewayCloseCodes.SessionTimedOut].

Definition transient_codes : list Z :=
  [1001; 1006; ShardSocketCloseCodes.ZombiedConnection;
   GatewayCloseCodes.UnknownError; GatewayCloseCodes.DecodeError;
   GatewayCloseCodes.NotAuthenticated; GatewayCloseCodes.AlreadyAuthenticated;
   GatewayCloseCodes.RateLimited].

Definition fatal_codes : list Z :=
  [GatewayCloseCodes.AuthenticationFailed; GatewayCloseCodes.DisallowedIntents;
   GatewayCloseCodes.InvalidAPIVersion; GatewayCloseCodes.InvalidIntents;
   GatewayCloseCodes.InvalidShard; GatewayCloseCodes.ShardingRequired].

(** [handleClosed(close)] *)
Definition handleClosed (code : Z) (reason : string) : Machine -> Machine :=
  (fun m => clearInterval (nodeInterval (heart (shard m))) m) ;;
  log Warn (ClosedWith code reason) ;;
  if code =? ShardSocketCloseCodes.Shutdown then skip
  else if oneOf code resumable_loss_codes then
    on_shard (set_data (with_resume_seq (Seq 0))) ;;
    on_shard (set_data (with_session_id None)) ;;
    on_shard (set_data (with_resume_gateway_url None)) ;;
    reconnect
  else if oneOf code transient_codes then
    log Inform TryingToReconnect ;; reconnect
  else if oneOf code fatal_codes then
    log Throw CannotReconnect
  else
    log Warn UnknownCloseCode ;; reconnect.

(** [handleMessage(data)]; [None] is a frame that fails to inflate or to
    parse. *)
Definition handleMessage (parsed : option Packet) : Machine -> Machine :=
  match parsed with
  | None => log Throw DecodeFailure
  | Some packet => onpacket packet
  end.

(** ** The life of a shard

    What can happen to a shard: a caller invokes one of its public methods,
    or the runtime delivers an event the shard registered for. *)
Inductive Event : Type :=
| call_connect
| call_send (force : bool) (message : Payload)
| call_identify
| call_resume
| call_heartbeat (requested : bool)
| call_disconnect
| call_reconnect
| call_onpacket (packet : Packet)
| call_close (code : Z) (reason : string)
| gate_opens
| socket_opens
| socket_message (parsed : option Packet)
| socket_closes (code : Z) (reason : string)
| socket_errors
| replaced_socket_closes (code : Z) (reason : string)
| timer_fires (t : Timer)
| time_passes (dt : Z).

Definition set_readyState (n : Z) : Machine -> Machine :=
  on_shard (fun sh =>
              match websocket sh with
              | Some ws => set_websocket (Some (mkWebSocket (url ws) n)) sh
              | None => sh
              end).

Definition leave_gate : Machine -> Machine :=
  fun m =>
    mkMachine (shard m) (timers m) (nextTimer m) (clock m)
              (nextPromise m) (settled m) (Nat.pred (gate m)) (effects m)
              (runtime m).

Definition advance (dt : Z) : Machine -> Machine :=
  fun m =>
    mkMachine (shard m) (timers m) (nextTimer m) (clock m + Z.max 0 dt)
              (nextPromise m) (settled m) (gate m) (effects m) (runtime m).

Definition step (e : Event) : Machine -> Machine :=
  match e with
  | call_connect => connect
  | call_send force message => send force message
  | call_identify => identify
  | call_resume => resume
  | call_heartbeat requested => heartbeat requested
  | call_disconnect => disconnect
  | call_reconnect => reconnect
  | call_onpacket packet => onpacket packet
  | call_close code reason => close code reason
  | gate_opens =>
      fun m => match gate m with
               | O => m
               | S _ => (leave_gate ;; connect_resumed) m
               end
  | socket_opens =>
      fun m => match websocket (shard m) with
               | Some ws =>
                   if readyState ws =? 0 then (set_readyState 1 ;; onopen) m
                   else m
               | None => m
               end
  | socket_message parsed =>
      fun m => if isOpen (shard m) then handleMessage parsed m else m
  | socket_closes code reason =>
      fun m => match websocket (shard m) with
               | Some _ => (set_readyState 3 ;; handleClosed code reason) m
               | None => m
               end
  | socket_errors => onerror
  | replaced_socket_closes code reason => handleClosed code reason
  | timer_fires t =>
      fun m => if existsb (fun e => Nat.eqb (fst e) t) (timers m)
               then heartbeat false m
               else m
  | time_passes dt => advance dt
  end.

Definition run (es : list Event) (m : Machine) : Machine :=
  fold_left (fun acc e => step e acc) es m.

(** The states a shard built by the constructor can get into. *)
Inductive reachable : Machine -> Prop :=
| reachable_boot (rt : Runtime) (platform : string) (id0 : Z)
                 (o : ShardOptions) (now : Z) :
    reachable (boot rt (Shard_new platform id0 o) now)
| reachable_step (e : Event) (m : Machine) :
    reachable m -> reachable (step e m).

(** The effects performed between two states of one run. *)
Definition effects_since (before after : Machine) : list Effect :=
  skipn (List.length (effects before)) (effects after).

Definition frames_of (es : list Effect) : list Payload :=
  flat_map (fun e => match e with WsSend frame => [frame] | _ => [] end) es.

Definition closes_of (es : list Effect) : list (Z * string) :=
  flat_map (fun e => match e with WsClose c r => [(c, r)] | _ => [] end) es.

(** ** Vocabulary of the properties *)

(** Induction on a JSON value, through the lists it nests. *)
Section JSON_induction.
Variable P : JSON -> Prop.
Hypothesis P_undefined : P JUndefined.
Hypothesis P_null : P JNull.
Hypothesis P_bool : forall b, P (JBool b).
Hypothesis P_num : forall z, P (JNum z).
Hypothesis P_str : forall text, P (JStr text).
Hypothesis P_arr : forall items, Forall P items -> P (JArr items).
Hypothesis P_obj : forall fields, Forall (fun kv => P (snd kv)) fields -> P (JObj fields).

Fixpoint JSON_nested_ind (value : JSON) : P value :=
  match value with
  | JUndefined => P_undefined
  | JNull => P_null
  | JBool b => P_bool b
  | JNum z => P_num z
  | JStr text => P_str text
  | JArr items =>
      P_arr items
            ((fix each (l : list JSON) : Forall P l :=
                match l with
                | [] => Forall_nil P
                | x :: rest => Forall_cons x (JSON_nested_ind x) (each rest)
                end) items)
  | JObj fields =>
      P_obj fields
            ((fix each (l : list (string * JSON))
               : Forall (fun kv => P (snd kv)) l :=
                match l with
                | [] => Forall_nil _
                | kv :: rest =>
                    Forall_cons kv (JSON_nested_ind (snd kv)) (each rest)
                end) fields)
  end.
End JSON_induction.

(** Sample values the examples below are stated on. *)
Definition example_info : GatewayBotInfo :=
  mkGatewayBotInfo "wss://gateway.discord.gg" 1.

Definition example_options (tok : string) (dbg : bool) : ShardOptions :=
  mkShardOptions tok 513 None example_info None dbg false None.

(** A session whose id is the empty string. *)
Definition example_data_empty_session : ShardData :=
  mkShardData (Seq 5) (Some "wss://resume.example") (Some EmptyString).

(** A session whose sequence was never assigned. *)
Definition example_data_no_sequence : ShardData :=
  mkShardData Undefined (Some "wss://resume.example") (Some "sid").

(** A fresh shard given the session data [dt]. *)
Definition example_shard (dt : ShardData) : Shard :=
  set_data (fun _ => dt) (Shard_new "linux" 0 (example_options "abc.def.ghi" false)).

(** A runtime that takes the texts that start with [wss://] and name a host
    for URLs, and opens a socket to each of them. *)
Definition example_runtime : Runtime :=
  mkRuntime (fun text => prefix "wss://" text && (6 <? String.length text)%nat)
            (fun _ => true).

(** A shard just constructed, with or without a logger. *)
Definition fresh_machine (dbg : bool) : Machine :=
  boot example_runtime (Shard_new "linux" 0 (example_options "abc.def.ghi" dbg)) 0.

(** A machine whose shard lost an acknowledgement while no socket is open:
    a fresh shard on which [heartbeat(false)] was called once. *)
Definition unacknowledged_machine : Machine :=
  run [call_heartbeat false] (fresh_machine false).

(** A shard with a logger whose socket has opened. *)
Definition open_machine : Machine :=
  run [call_connect; gate_opens; socket_opens] (fresh_machine true).

(** [tok.split(".")] has at least three segments. *)
Definition three_segments (tok : string) : Prop :=
  (3 <= List.length (Str.split_dot tok))%nat.

(** The shard can log every payload: it has no logger, or its token has
    three segments. *)
Definition can_log (sh : Shard) : Prop :=
  logger sh = None \/ three_segments (opt_token (options sh)).

(** The line [send] logs before anything else. *)
Definition announce (message : Payload) : Machine -> Machine :=
  fun m =>
    match logger (shard m) with
    | None => m
    | Some _ =>
        match redact (opt_token (options (shard m))) (d message) with
        | None => m
        | Some shown => emit (Log Inform (Sending (op message) shown)) m
        end
    end.

(** A sequence of calls [send(force, message)], and the messages of each
    force class in the order they were sent. *)
Definition calls (sends : list (bool * Payload)) : list Event :=
  map (fun fm => call_send (fst fm) (snd fm)) sends.

Definition forced (sends : list (bool * Payload)) : list Payload :=
  map snd (filter (fun fm => fst fm) sends).

Definition unforced (sends : list (bool * Payload)) : list Payload :=
  map snd (filter (fun fm => negb (fst fm)) sends).

(** [READY] and [RESUMED], the two dispatches that release the queue. *)
Definition releases (packet : Packet) : bool :=
  match packet_body packet with
  | Dispatch Resumed | Dispatch (Ready _ _) => true
  | _ => false
  end.

(** [unseen m m']: between [m] and [m'] the socket, the queue and the
    settled promises stayed as they were and no frame was written. *)
Definition unseen (m m' : Machine) : Prop :=
  websocket (shard m') = websocket (shard m) /\
  offlineSendQueue (shard m') = offlineSendQueue (shard m) /\
  settled m' = settled m /\
  exists line : list Effect,
    effects m' = (effects m ++ line)%list /\ frames_of line = [].

(** Two presence updates. *)
Definition frame_A : Payload := mkPayload 3 (JObj [("status", JStr "A")]).
Definition frame_B : Payload := mkPayload 3 (JObj [("status", JStr "B")]).

(** A shard whose socket is still connecting. *)
Definition connecting_machine : Machine :=
  run [call_connect; gate_opens] (fresh_machine true).

Definition ready_packet : Packet :=
  mkPacket (Some 1) (Dispatch (Ready "wss://resume.example" "sid")).

(** The timers left when the one [heart.nodeInterval] names is cancelled. *)
Definition dropped (m : Machine) : list (Timer * Z) :=
  timers (clearInterval (nodeInterval (heart (shard m))) m).

(** [quiet m m']: nothing about timers differs between [m] and [m']. *)
Definition quiet (m m' : Machine) : Prop :=
  nodeInterval (heart (shard m')) = nodeInterval (heart (shard m)) /\
  interval (heart (shard m')) = interval (heart (shard m)) /\
  nextTimer m' = nextTimer m /\
  timers m' = timers m.

(** [calm m m']: between [m] and [m'] no timer was armed; the one
    [heart.nodeInterval] names may have been cancelled. *)
Definition calm (m m' : Machine) : Prop :=
  nodeInterval (heart (shard m')) = nodeInterval (heart (shard m)) /\
  interval (heart (shard m')) = interval (heart (shard m)) /\
  nextTimer m' = nextTimer m /\
  (timers m' = timers m \/ timers m' = dropped m).

(** At most one timer is active, and it is the one [heart.nodeInterval]
    names. *)
Definition one_timer (m : Machine) : Prop :=
  timers m = [] \/
  exists t ms, timers m = [(t, ms)] /\ nodeInterval (heart (shard m)) = Some t.

(** A [Hello] as the gateway sends it. *)
Definition hello_packet : Packet := mkPacket None (Hello 41250).

(** No code unit of the string is a dot. *)
Fixpoint dotless (text : string) : bool :=
  match text with
  | EmptyString => true
  | String c rest => negb (Ascii.eqb c "."%char) && dotless rest
  end.

(** In the words of the specification: every occurrence of the token,
    taken from the left and not overlapping the one before, is replaced by
    [shown], and the text between the occurrences stays. *)
Inductive Replaced (tok shown : string) : string -> string -> Prop :=
| Replaced_none (value : string) :
    (forall before after, value <> before ++ tok ++ after) ->
    Replaced tok shown value value
| Replaced_next (before after out : string) :
    (forall before' after',
        before ++ tok ++ after = before' ++ tok ++ after' ->
        (String.length before <= String.length before')%nat) ->
    Replaced tok shown after out ->
    Replaced tok shown (before ++ tok ++ after) (before ++ shown ++ out).

(** A tree whose string values are rewritten by [R] and which is otherwise
    kept: same shape, same keys, same other values. *)
Inductive Rewritten (R : string -> string -> Prop) : JSON -> JSON -> Prop :=
| Rewritten_undefined : Rewritten R JUndefined JUndefined
| Rewritten_null : Rewritten R JNull JNull
| Rewritten_bool (b : bool) : Rewritten R (JBool b) (JBool b)
| Rewritten_num (z : Z) : Rewritten R (JNum z) (JNum z)
| Rewritten_str (a b : string) : R a b -> Rewritten R (JStr a) (JStr b)
| Rewritten_arr (xs ys : list JSON) :
    Forall2 (Rewritten R) xs ys -> Rewritten R (JArr xs) (JArr ys)
| Rewritten_obj (fs gs : list (string * JSON)) :
    Forall2 (fun f g => fst f = fst g /\ Rewritten R (snd f) (snd g)) fs gs ->
    Rewritten R (JObj fs) (JObj gs).

(** ** Reading a trace *)

(** The calls of [connect] that joined the connect gate. *)
Definition waits_of (es : list Effect) : nat :=
  List.length (filter (fun e => match e with ConnectWait => true | _ => false end) es).

(** The sockets created. *)
Definition sockets_of (es : list Effect) : list GatewayURL :=
  flat_map (fun e => match e with NewWebSocket u => [u] | _ => [] end) es.

(** The packets handed to [handlePayload]. *)
Definition forwards_of (es : list Effect) : list (Z * Packet) :=
  flat_map (fun e => match e with HandlePayload i p => [(i, p)] | _ => [] end) es.

(** [orderly P m m']: between [m] and [m'] the shard kept its identity
    (id, options, logger), nothing left the offline queue, and every effect
    performed satisfies [P]. *)
Definition orderly (P : Effect -> Prop) (m m' : Machine) : Prop :=
  id (shard m') = id (shard m) /\
  options (shard m') = options (shard m) /\
  logger (shard m') = logger (shard m) /\
  (exists front back : list Resolver,
      offlineSendQueue (shard m')
      = (front ++ offlineSendQueue (shard m) ++ back)%list) /\
  (exists new : list Effect,
      effects m' = (effects m ++ new)%list /\ Forall P new).

(** [same_session m m']: the session data are the same in [m] and [m']. *)
Definition same_session (m m' : Machine) : Prop :=
  data (shard m') = data (shard m).

(** The frame [identify()] builds. *)
Definition identify_frame (sh : Shard) : Payload :=
  mkPayload GatewayOpcodes.Identify
    (JObj [("token", JStr ("Bot " ++ opt_token (options sh)));
           ("compress", JBool (opt_compress (options sh)));
           ("properties", properties_json (opt_properties (options sh)));
           ("shard", JArr [JNum (id sh); JNum (info_shards (opt_info (options sh)))]);
           ("intents", JNum (opt_intents (options sh)));
           ("presence", match opt_presence (options sh) with
                        | Some p => p
                        | None => JUndefined
                        end)]).

(** The frame [Hello] answers with: [resume] when the session is resumable,
    [identify] otherwise. *)
Definition handshake_frame (sh : Shard) : Payload :=
  if resumable sh then resume_frame sh else identify_frame sh.

(** The frame [heartbeat] writes. *)
Definition heartbeat_frame (sh : Shard) : Payload :=
  mkPayload GatewayOpcodes.Heartbeat
            (match resume_seq (data sh) with
             | Seq n => JNum n
             | Null | Undefined => JNull
             end).

(** ** The three ways through [connect]

    What [connect] does on a shard that is not open, once the gate lets it
    through: it cancels the heartbeat timer, and then opens a socket, or
    fails on the socket, or fails on the URL before that. *)
Definition cancelled : Machine -> Machine :=
  fun m => clearInterval (nodeInterval (heart (shard m))) m.

Definition opened (u : GatewayURL) : Machine -> Machine :=
  cancelled ;;
  log Debug (ConnectingTo u) ;;
  emit (NewWebSocket u) ;;
  on_shard (set_websocket (Some (mkWebSocket u 0))).

Definition refused (u : GatewayURL) : Machine -> Machine :=
  cancelled ;;
  log Debug (ConnectingTo u) ;;
  emit SyntaxError.

(** The text [currentGatewayURL] is built from after a close with [code]. *)
Definition target_after_close (code : Z) (sh : Shard) : string :=
  if oneOf code resumable_loss_codes then gatewayURL sh
  else match resume_gateway_url (data sh) with
       | Some u => u
       | None => gatewayURL sh
       end.

(** ** [CommandManager.message]: detecting a command prefix

    The prefixes are [client.options.defaultPrefix], an array shared with
    the client when it is set, to which the prefixes the handler returns
    are pushed; [sort] sorts that array in place. *)
Module CommandManager.

(** [sorted.sort((a, b) => b.length - a.length)] puts the longer strings
    first and keeps the order of strings of the same length: [insert] puts
    [x] in front of the first string that is not longer. *)
Fixpoint insert (x : string) (sorted : list string) : list string :=
  match sorted with
  | [] => [x]
  | y :: rest =>
      if (String.length x <? String.length y)%nat then y :: insert x rest
      else x :: y :: rest
  end.

Definition sort (prefixes : list string) : list string :=
  fold_right insert [] prefixes.

(** The white space [trimStart] removes, among the code units a [string]
    has: tab, line feed, vertical tab, form feed, carriage return, space
    and no-break space. *)
Definition isWhiteSpace (c : ascii) : bool :=
  let n := nat_of_ascii c in
  ((9 <=? n) && (n <=? 13) || (n =? 32) || (n =? 160))%nat.

(** [text.trimStart()] *)
Fixpoint trimStart (text : string) : string :=
  match text with
  | EmptyString => EmptyString
  | String c rest => if isWhiteSpace c then trimStart rest else text
  end.

(** [text.slice(n)] for [0 <= n] *)
Fixpoint slice (n : nat) (text : string) : string :=
  match n, text with
  | O, _ => text
  | S k, EmptyString => EmptyString
  | S k, String _ rest => slice k rest
  end.

(** What [this.logger.info] is given. *)
Record Detected : Type := mkDetected {
  detected_content : string;
  detected_prefix : string
}.

(** [message(rawMessage)]: [defaultPrefix] is the array of the client
    options, if any; [fromHandler] is what [handlers.prefix(message)]
    resolves to, if there is such a handler.  The result is the array of
    the options as the call leaves it, and the line logged, if any. *)
Definition message (defaultPrefix fromHandler : option (list string))
           (content : string) : option (list string) * option Detected :=
  let prefixes :=
    match defaultPrefix with Some shared => shared | None => [] end in
  let prefixes :=
    match fromHandler with
    | Some more => (prefixes ++ more)%list
    | None => prefixes
    end in
  let sorted_prefixes := sort prefixes in
  let found := find (fun x => prefix x content) sorted_prefixes in
  (match defaultPrefix with Some _ => Some sorted_prefixes | None => None end,
   match found with
   | Some p =>
       if prefix p content
       then Some (mkDetected (trimStart (slice (String.length p) content)) p)
       else None
   | None => None
   end).

(** The array of the options after [n] messages with the same content,
    each handled with the array the one before left behind. *)
Fixpoint after_messages (n : nat) (defaultPrefix fromHandler : option (list string))
         (content : string) : option (list string) :=
  match n with
  | O => defaultPrefix
  | S k =>
      after_messages k (fst (message defaultPrefix fromHandler content))
                     fromHandler content
  end.

End CommandManager.

(** Longer strings first. *)
Definition by_length (a b : string) : Prop :=
  (String.length b <= String.length a)%nat.

(** * Properties *)

(** ** Bookkeeping of effects *)

Lemma skipn_length_app {A : Type} (l new : list A) :
  skipn (List.length l) (l ++ new)%list = new.
Proof.
  induction l as [|a l IH]; simpl; [reflexivity | exact IH].
Qed.

Lemma skipn_length_self {A : Type} (l : list A) :
  skipn (List.length l) l = [].
Proof.
  induction l as [|a l IH]; simpl; [reflexivity | exact IH].
Qed.

Lemma skipn_app_app {A : Type} (l x y : list A) :
  skipn (List.length (l ++ x)) (l ++ y)%list = skipn (List.length x) y.
Proof.
  induction l as [|a l IH]; simpl; [reflexivity | exact IH].
Qed.

(** Running a handler on a machine given by its fields: the handler is
    evaluated by value, then the effects it added are read off. *)
Ltac eval_handler :=
  cbv beta iota zeta delta
      -[app skipn List.length Z.eqb filter Nat.eqb closes_of frames_of
        effects_since In];
  unfold effects_since; cbn [effects];
  rewrite <- ?app_assoc;
  rewrite ?skipn_app_app, ?skipn_length_app, ?skipn_length_self;
  cbn [closes_of frames_of flat_map app skipn List.length].

Lemma effects_since_app (m m' : Machine) (new : list Effect) :
  effects m' = (effects m ++ new)%list -> effects_since m m' = new.
Proof.
  unfold effects_since. intros ->. apply skipn_length_app.
Qed.

Lemma effects_since_same (m m' : Machine) :
  effects m' = effects m -> effects_since m m' = [].
Proof.
  intros H. apply effects_since_app. rewrite H, app_nil_r. reflexivity.
Qed.

(** ** The capacity of the bucket *)

Lemma ceil_div_pos (a b : Z) :
  0 < b ->
  exists c, ceil_div a b = Num c /\ (c - 1) * b < a <= c * b.
Proof.
  intros Hb. unfold ceil_div.
  destruct (Z.eqb_spec b 0) as [->|_]; [lia|].
  exists (- (- a / b)). split; [reflexivity|].
  pose proof (Z.div_mod (- a) b ltac:(lia)) as Hdm.
  pose proof (Z.mod_pos_bound (- a) b Hb) as Hm.
  nia.
Qed.

(** On safe integers the runtime computes what the integer arithmetic
    gives; some limits, the largest safe ones included, with the result of
    the runtime first and that of [calculateSafeRequests] second. *)
Lemma calculateSafeRequests_binary64_samples :
  map (fun sample : Z * Z * Z =>
         let '(tick, reset, hb) := sample in
         (Binary64.to_Z (Binary64.calculateSafeRequests
                           (Binary64.of_Z tick) (Binary64.of_Z reset)
                           (Binary64.of_Z hb)),
          calculateSafeRequests
            (resolve_options
               "linux"
               (mkShardOptions "abc.def.ghi" 513 None example_info
                               (Some (mkRatelimitOptions tick reset))
                               false false None))
            (with_interval hb initial_heart)))
      [(120, 60000, 30000); (120, 60001, 30000); (3, 60000, 30000);
       (MAX_SAFE_INTEGER, 1, 30000);
       (MAX_SAFE_INTEGER, MAX_SAFE_INTEGER, 30000);
       (MAX_SAFE_INTEGER, MAX_SAFE_INTEGER - 1, MAX_SAFE_INTEGER);
       (MAX_SAFE_INTEGER, 29999, 30000); (1000, 41250, 7)]
  = [(Some 116, Num 116); (Some 114, Num 114); (Some 0, Num 0);
     (Some 9007199254740989, Num 9007199254740989);
     (Some 9006598774790673, Num 9006598774790673);
     (Some 9007199254740989, Num 9007199254740989);
     (Some 9007199254740989, Num 9007199254740989);
     (Some 0, Num 0)].
Proof.
  vm_compute. reflexivity.
Qed.

(** C3, as stated, fails on limits that are not safe integers: 2^55 is a
    number of the runtime, and with 2^55 requests per tick and a reset
    interval of 30000, whose quotient by the heartbeat interval is 1, the
    formula gives 2^55 - 2; that is not a binary64 number, and the
    subtraction of the code rounds it to 2^55. *)
Lemma C3_safe_capacity_counterexample :
  let tick := 2 ^ 55 in
  let reset := 30000 in
  Binary64.to_Z (Binary64.of_Z tick) = Some tick /\
  (1 - 1) * interval initial_heart < reset <= 1 * interval initial_heart /\
  Z.max 0 (tick - 1 * 2) = 2 ^ 55 - 2 /\
  Binary64.to_Z (Binary64.calculateSafeRequests
                   (Binary64.of_Z tick) (Binary64.of_Z reset)
                   (Binary64.of_Z (interval initial_heart)))
  = Some (2 ^ 55).
Proof.
  vm_compute. repeat split; try reflexivity; discriminate.
Qed.

(** C3, amended. For limits that are safe integers and not negative, the
    capacity the constructor hands to the bucket is
    [max(0, maxRequestsPerRateLimitTick - c * 2)], where the limits are the
    ones of the options passed, or 120 and 60000 when the options have no
    [ratelimitOptions], and [c] is the ceiling of
    [rateLimitResetInterval / 30000], 30000 being the heartbeat interval of
    a shard under construction; with the limits 120 and 60000 the capacity
    is 116. *)
Theorem C3_safe_capacity (platform : string) (id0 : Z) (o : ShardOptions) :
  let limits := match ratelimitOptions o with
                | Some given => given
                | None => mkRatelimitOptions 120 60000
                end in
  let tick := maxRequestsPerRateLimitTick limits in
  let reset := rateLimitResetInterval limits in
  0 <= tick <= MAX_SAFE_INTEGER ->
  0 <= reset <= MAX_SAFE_INTEGER ->
  interval (heart (Shard_new platform id0 o)) = 30000 /\
  (exists c : Z,
      (c - 1) * 30000 < reset <= c * 30000 /\
      bucket (Shard_new platform id0 o)
      = Bucket_new (Num (Z.max 0 (tick - c * 2)))) /\
  (tick = 120 -> reset = 60000 ->
   bucket (Shard_new platform id0 o) = Bucket_new (Num 116)).
Proof.
  intros limits tick reset _ _.
  assert (Hlimits : opt_ratelimitOptions (options (Shard_new platform id0 o))
                    = limits).
  { unfold limits. simpl. destruct (ratelimitOptions o); reflexivity. }
  assert (Hbucket : forall c : Z,
             (c - 1) * 30000 < reset <= c * 30000 ->
             bucket (Shard_new platform id0 o)
             = Bucket_new (Num (Z.max 0 (tick - c * 2)))).
  { intros c Hc.
    destruct (ceil_div_pos reset 30000 ltac:(reflexivity)) as (c' & Hc' & Hb).
    assert (c' = c) by nia. subst c'.
    unfold Shard_new. simpl bucket. f_equal.
    unfold calculateSafeRequests.
    change (options (Shard_new platform id0 o))
      with (resolve_options platform o) in Hlimits.
    rewrite Hlimits. fold tick. fold reset.
    change (interval initial_heart) with 30000. rewrite Hc'. simpl.
    destruct (Z.ltb_spec (tick - c * 2) 0); f_equal; lia. }
  split; [reflexivity|]. split.
  - destruct (ceil_div_pos reset 30000 ltac:(reflexivity)) as (c & _ & Hb).
    exists c. split; [exact Hb | exact (Hbucket c Hb)].
  - intros Htick Hreset. rewrite (Hbucket 2) by lia. rewrite Htick. reflexivity.
Qed.

Lemma C3_safe_capacity_witness :
  bucket (Shard_new "linux" 0 (example_options "abc.def.ghi" false))
  = Bucket_new (Num 116).
Proof.
  apply (proj2 (proj2 (C3_safe_capacity
                         "linux" 0 (example_options "abc.def.ghi" false)
                         ltac:(unfold MAX_SAFE_INTEGER; simpl; lia)
                         ltac:(unfold MAX_SAFE_INTEGER; simpl; lia))));
    reflexivity.
Defined.

(** ** [resumable] *)

Lemma truthy_spec (x : option string) :
  truthy x = true <-> exists text, x = Some text /\ text <> EmptyString.
Proof.
  destruct x as [[|c text]|]; simpl; split.
  - discriminate.
  - intros (text & E & N). inversion E; subst. contradiction.
  - intros _. exists (String c text). split; [reflexivity | discriminate].
  - reflexivity.
  - discriminate.
  - intros (text & E & _). discriminate.
Qed.

(** C4, as stated, fails twice over: with the session id set to the empty
    string all three fields are set and the getter answers [false]; and
    with the sequence missing altogether, which reads as [undefined] and
    not as [null], it answers [true]. *)
Lemma C4_resumable_counterexample :
  (let sh := example_shard example_data_empty_session in
   session_id (data sh) <> None /\
   resume_gateway_url (data sh) <> None /\
   resume_seq (data sh) = Seq 5 /\
   resumable sh = false) /\
  (let sh := example_shard example_data_no_sequence in
   resume_seq (data sh) = Undefined /\
   resumable sh = true).
Proof.
  simpl. repeat split; discriminate.
Qed.

(** C4, amended. [resumable] is true if and only if the resume URL and the
    session id are set to non-empty strings and the sequence is not
    [null], that is, holds a number or was never assigned; it is false
    whenever the resume URL or the session id is missing or the sequence
    is [null]. *)
Theorem C4_resumable_iff (sh : Shard) :
  (resumable sh = true <->
   (exists u, resume_gateway_url (data sh) = Some u /\ u <> EmptyString) /\
   (exists sid, session_id (data sh) = Some sid /\ sid <> EmptyString) /\
   resume_seq (data sh) <> Null)
  /\
  (resume_gateway_url (data sh) = None \/ session_id (data sh) = None
   \/ resume_seq (data sh) = Null ->
   resumable sh = false)
  /\
  (resume_seq (data sh) <> Null ->
   resumable sh
   = truthy (resume_gateway_url (data sh)) && truthy (session_id (data sh))).
Proof.
  unfold resumable. split; [|split].
  - rewrite !andb_true_iff, !truthy_spec.
    destruct (resume_seq (data sh)); intuition congruence.
  - intros [H | [H | H]]; rewrite H; simpl.
    + reflexivity.
    + rewrite andb_false_r. reflexivity.
    + apply andb_false_r.
  - intros H. destruct (resume_seq (data sh));
      [apply andb_true_r | contradiction | apply andb_true_r].
Qed.

Lemma C4_resumable_iff_witness :
  let sh := example_shard (mkShardData Null (Some "wss://resume.example") (Some "sid")) in
  resume_seq (data sh) = Null /\ resumable sh = false.
Proof.
  split; [reflexivity|].
  apply (proj1 (proj2 (C4_resumable_iff _))). right. right. reflexivity.
Defined.

(** ** Heartbeats *)

(** C9. A requested heartbeat leaves [heart.ack] as it is: it only records
    the time of the beat and writes the heartbeat frame.  So after it an
    unrequested heartbeat declares the connection zombied exactly when it
    would have done so before. *)
Theorem C9_requested_heartbeat_keeps_ack (m : Machine) :
  ack (heart (shard (heartbeat true m))) = ack (heart (shard m)) /\
  shard (heartbeat true m)
  = set_heart (with_lastBeat (Some (clock m))) (shard m) /\
  timers (heartbeat true m) = timers m /\
  closes_of (effects_since m (heartbeat true m)) = [] /\
  (closes_of (effects_since (heartbeat true m)
                            (heartbeat false (heartbeat true m))) = []
   <-> closes_of (effects_since m (heartbeat false m)) = []).
Proof.
  destruct m as [sh tm nt ck np st gt ef rt].
  destruct sh as [i o lg dt ht ws bk q].
  destruct ht as [iv ni la lb ak].
  destruct lg as [l|], ws as [[u rs]|], ak, ni as [t|];
    eval_handler; try (destruct (rs =? 1); eval_handler);
    repeat split; try reflexivity; try tauto.
Qed.

(** C5, as stated, fails: without an open socket the unrequested heartbeat
    of an unacknowledged shard closes nothing. *)
Lemma C5_zombie_counterexample :
  ack (heart (shard unacknowledged_machine)) = false /\
  closes_of (effects_since unacknowledged_machine
                           (heartbeat false unacknowledged_machine)) = [].
Proof.
  split; reflexivity.
Qed.

(** C5, amended. When the previous heartbeat was not acknowledged,
    [heartbeat(false)] writes no heartbeat frame and cancels the heartbeat
    timer; it closes the socket, with code 3010, when the socket is open,
    and closes nothing when it is not.  The heart is left as it was. *)
Theorem C5_zombie_heartbeat (m : Machine) :
  ack (heart (shard m)) = false ->
  let m' := heartbeat false m in
  frames_of (effects_since m m') = [] /\
  closes_of (effects_since m m')
  = (if isOpen (shard m) then [(3010, "Zombied connection")] else []) /\
  heart (shard m') = heart (shard m) /\
  timers m' = timers (clearInterval (nodeInterval (heart (shard m))) m).
Proof.
  destruct m as [sh tm nt ck np st gt ef rt].
  destruct sh as [i o lg dt ht ws bk q].
  destruct ht as [iv ni la lb ak].
  simpl. intros ->.
  destruct lg as [l|], ws as [[u rs]|], ni as [t|];
    eval_handler; try (destruct (rs =? 1); eval_handler);
    repeat split; reflexivity.
Qed.

Lemma C5_zombie_heartbeat_witness :
  let m := on_shard (set_heart (with_ack false)) open_machine in
  ack (heart (shard m)) = false /\
  closes_of (effects_since m (heartbeat false m)) = [(3010, "Zombied connection")].
Proof.
  split; [reflexivity|].
  exact (proj1 (proj2 (C5_zombie_heartbeat
                         (on_shard (set_heart (with_ack false)) open_machine)
                         eq_refl))).
Defined.

(** ** Close handling *)

Lemma reconnect_data (m : Machine) :
  data (shard (reconnect m)) = data (shard m).
Proof.
  destruct m as [sh tm nt ck np st gt ef rt].
  destruct sh as [i o lg dt ht ws bk q].
  destruct ht as [iv ni la lb ak].
  destruct lg as [l|], ws as [[u rs]|], ni as [t|];
    eval_handler; try (destruct (rs =? 1); eval_handler); reflexivity.
Qed.

(** C2, as stated, fails: after a normal closure (1000) the sequence is 0,
    not null. *)
Lemma C2_resumable_loss_counterexample :
  resume_seq (data (shard (handleClosed 1000 "bye" (fresh_machine false))))
  <> Null.
Proof.
  discriminate.
Qed.

(** C2, amended. On a close code of the resumable-loss class (1000,
    unknown opcode 4001, invalid sequence 4007, session timed out 4009) the
    close handler sets the sequence to 0 and unsets the session id and the
    resume URL, and only then calls [reconnect]; the three fields are still
    so when the handler is done, and the shard is not resumable. *)
Theorem C2_resumable_loss_resets_session
        (m : Machine) (code : Z) (reason : string) :
  code = 1000 \/ code = 4001 \/ code = 4007 \/ code = 4009 ->
  exists before : Machine,
    handleClosed code reason m = reconnect before /\
    data (shard before) = mkShardData (Seq 0) None None /\
    data (shard (handleClosed code reason m)) = mkShardData (Seq 0) None None /\
    resumable (shard (handleClosed code reason m)) = false.
Proof.
  intros Hcode.
  exists ((on_shard (set_data (with_resume_seq (Seq 0))) ;;
           on_shard (set_data (with_session_id None)) ;;
           on_shard (set_data (with_resume_gateway_url None)))
            (log Warn (ClosedWith code reason)
                 (clearInterval (nodeInterval (heart (shard m))) m))).
  assert (E : handleClosed code reason m
              = reconnect
                  ((on_shard (set_data (with_resume_seq (Seq 0))) ;;
                    on_shard (set_data (with_session_id None)) ;;
                    on_shard (set_data (with_resume_gateway_url None)))
                     (log Warn (ClosedWith code reason)
                          (clearInterval (nodeInterval (heart (shard m))) m)))).
  { destruct Hcode as [-> | [-> | [-> | ->]]]; reflexivity. }
  assert (D : data (shard (handleClosed code reason m))
              = mkShardData (Seq 0) None None).
  { rewrite E, reconnect_data. reflexivity. }
  repeat split.
  - exact E.
  - exact D.
  - unfold resumable. rewrite D. reflexivity.
Qed.

Lemma C2_resumable_loss_resets_session_witness :
  data (shard (handleClosed 4009 "timed out" open_machine))
  = mkShardData (Seq 0) None None.
Proof.
  destruct (C2_resumable_loss_resets_session open_machine 4009 "timed out")
    as (before & _ & _ & D & _).
  - right. right. right. reflexivity.
  - exact D.
Defined.

(** C6, as stated, fails: a shard built without [debug] has no logger, and
    a close with a fatal code (authentication failed, 4004) reports
    nothing. *)
Lemma C6_fatal_close_counterexample :
  effects (handleClosed 4004 "Authentication failed." (fresh_machine false)) = [].
Proof.
  reflexivity.
Qed.

(** C6, amended. On a close code of the fatal class (4004, 4010, 4011,
    4012, 4013, 4014) the close handler cancels the heartbeat timer and
    never reconnects: no call of [connect] joins the connect gate, no
    socket is created, the shard is left as it was.  The close and the
    error "Cannot reconnect" are reported to the logger when the shard has
    one, and to nobody otherwise. *)
Theorem C6_fatal_close_no_reconnect
        (m : Machine) (code : Z) (reason : string) :
  code = 4004 \/ code = 4010 \/ code = 4011 \/ code = 4012 \/ code = 4013
  \/ code = 4014 ->
  let m' := handleClosed code reason m in
  effects_since m m'
  = match logger (shard m) with
    | Some _ => [Log Warn (ClosedWith code reason); Log Throw CannotReconnect]
    | None => []
    end /\
  ~ In ConnectWait (effects_since m m') /\
  (forall u, ~ In (NewWebSocket u) (effects_since m m')) /\
  gate m' = gate m /\
  shard m' = shard m /\
  timers m' = timers (clearInterval (nodeInterval (heart (shard m))) m).
Proof.
  intros Hcode m'.
  assert (E : m' = (log Throw CannotReconnect)
                     (log Warn (ClosedWith code reason)
                          (clearInterval (nodeInterval (heart (shard m))) m))).
  { subst m'.
    destruct Hcode as [-> | [-> | [-> | [-> | [-> | ->]]]]]; reflexivity. }
  assert (F : effects_since m m'
              = match logger (shard m) with
                | Some _ => [Log Warn (ClosedWith code reason);
                             Log Throw CannotReconnect]
                | None => []
                end).
  { rewrite E. destruct m as [sh tm nt ck np st gt ef rt].
    destruct sh as [i o lg dt ht ws bk q]. destruct ht as [iv ni la lb ak].
    destruct lg as [l|], ni as [t|]; eval_handler; reflexivity. }
  split; [exact F|]. rewrite F.
  split; [destruct (logger (shard m)); simpl; intuition discriminate|].
  split; [intros u; destruct (logger (shard m)); simpl; intuition discriminate|].
  rewrite E. clear E F m'.
  destruct m as [sh tm nt ck np st gt ef rt].
  destruct sh as [i o lg dt ht ws bk q]. destruct ht as [iv ni la lb ak].
  destruct lg as [l|], ni as [t|]; eval_handler; repeat split; reflexivity.
Qed.

Lemma C6_fatal_close_no_reconnect_witness :
  gate (handleClosed 4014 "Disallowed intent(s)." open_machine)
  = gate open_machine.
Proof.
  refine (proj1 (proj2 (proj2 (proj2
            (C6_fatal_close_no_reconnect open_machine 4014
                                         "Disallowed intent(s)." _))))).
  repeat (first [left; reflexivity | right]); reflexivity.
Defined.

(** ** Strings *)

Lemma append_nil_r (a : string) : a ++ EmptyString = a.
Proof.
  induction a as [|c a IH]; simpl; [reflexivity | rewrite IH; reflexivity].
Qed.

Lemma append_assoc (a b c : string) : (a ++ b) ++ c = a ++ b ++ c.
Proof.
  induction a as [|x a IH]; simpl; [reflexivity | rewrite IH; reflexivity].
Qed.

Lemma length_append (a b : string) :
  String.length (a ++ b) = (String.length a + String.length b)%nat.
Proof.
  induction a as [|x a IH]; simpl; [reflexivity | rewrite IH; reflexivity].
Qed.

Lemma prefix_true (a value : string) :
  prefix a value = true <-> exists b, value = a ++ b.
Proof.
  revert value. induction a as [|x a IH]; intros value.
  - destruct value; simpl; split; auto; intros _; eexists; reflexivity.
  - destruct value as [|y value]; simpl.
    + split; [discriminate | intros (b & H); discriminate].
    + destruct (ascii_dec x y) as [->|N].
      * rewrite IH. split; intros (b & H); exists b; congruence.
      * split; [discriminate|]. intros (b & H). congruence.
Qed.

(** ** Masking never fails on a token of three segments *)

Lemma mask_three_segments (tok : string) :
  three_segments tok -> exists shown, mask tok = Some shown.
Proof.
  unfold three_segments, mask.
  destruct (Str.split_dot tok) as [|s0 [|s1 [|s2 rest]]]; simpl; try lia.
  intros _. eexists. reflexivity.
Qed.

Lemma replaceAll_from_total (tok : string) (fn : string -> option string) :
  (exists shown, fn tok = Some shown) ->
  forall value k, exists out, Str.replaceAll_from tok fn k value = Some out.
Proof.
  intros (shown & Hfn).
  induction value as [|c rest IH]; intros k.
  - destruct k; cbn [Str.replaceAll_from].
    + destruct (prefix tok EmptyString); [rewrite Hfn|]; eexists; reflexivity.
    + eexists; reflexivity.
  - destruct k as [|k]; cbn [Str.replaceAll_from].
    + destruct (prefix tok (String c rest)).
      * rewrite Hfn. destruct (String.length tok) as [|n].
        -- destruct (IH O) as (out & ->). eexists; reflexivity.
        -- destruct (IH n) as (out & ->). eexists; reflexivity.
      * destruct (IH O) as (out & ->). eexists; reflexivity.
    + apply IH.
Qed.

Lemma redact_total (tok : string) :
  three_segments tok -> forall value, exists shown, redact tok value = Some shown.
Proof.
  intros Htok.
  induction value as [ | | b | z | text | items IH | fields IH ]
    using JSON_nested_ind; simpl; try (eexists; reflexivity).
  - destruct (replaceAll_from_total tok mask (mask_three_segments tok Htok) text O)
      as (out & Hout).
    unfold replacer, Str.replaceAll. rewrite Hout. eexists; reflexivity.
  - induction IH as [|x rest (x' & Hx) _ (rest' & Hrest)].
    + eexists; reflexivity.
    + rewrite Hx.
      match type of Hrest with
      | option_map _ ?e = _ => destruct e as [l|] eqn:E; [|discriminate]
      end.
      eexists; reflexivity.
  - induction IH as [|[k x] rest (x' & Hx) _ (rest' & Hrest)].
    + eexists; reflexivity.
    + simpl in Hx. rewrite Hx.
      match type of Hrest with
      | option_map _ ?e = _ => destruct e as [l|] eqn:E; [|discriminate]
      end.
      eexists; reflexivity.
Qed.

(** ** Masking fails on a token of fewer segments *)

Lemma mask_short (tok : string) :
  (List.length (Str.split_dot tok) < 3)%nat -> mask tok = None.
Proof.
  unfold mask.
  destruct (Str.split_dot tok) as [|s0 [|s1 [|s2 rest]]]; simpl;
    try reflexivity; lia.
Qed.

Lemma replaceAll_from_throws (tok : string) (fn : string -> option string)
      (after : string) :
  fn tok = None ->
  forall before : string,
    Str.replaceAll_from tok fn O (before ++ tok ++ after) = None.
Proof.
  intros Hfn.
  assert (Hhere : forall value, prefix tok value = true ->
                                Str.replaceAll_from tok fn O value = None).
  { intros value Hp. destruct value; cbn [Str.replaceAll_from];
      rewrite Hp, Hfn; reflexivity. }
  induction before as [|c before IH].
  - apply Hhere. apply prefix_true. exists after. reflexivity.
  - destruct (prefix tok (String c before ++ tok ++ after)) eqn:Hp.
    + apply Hhere. exact Hp.
    + change (String c before ++ tok ++ after)
        with (String c (before ++ tok ++ after)) in *.
      cbn [Str.replaceAll_from]. rewrite Hp, IH. reflexivity.
Qed.

Lemma replacer_short_token (tok : string) :
  ~ three_segments tok -> replacer tok ("Bot " ++ tok) = None.
Proof.
  intros Hshort. unfold replacer, Str.replaceAll.
  rewrite <- (append_nil_r tok) at 2.
  apply (replaceAll_from_throws _ mask EmptyString); apply mask_short.
  unfold three_segments in Hshort. lia.
Qed.

(** ** [send] *)

Lemma announce_frame (message : Payload) (m : Machine) :
  shard (announce message m) = shard m /\
  timers (announce message m) = timers m /\
  nextTimer (announce message m) = nextTimer m /\
  nextPromise (announce message m) = nextPromise m /\
  settled (announce message m) = settled m /\
  gate (announce message m) = gate m /\
  exists line : list Effect,
    effects (announce message m) = (effects m ++ line)%list /\
    frames_of line = [] /\ ~ In TypeError line.
Proof.
  unfold announce.
  destruct (logger (shard m)) as [l|].
  - destruct (redact _ _) as [shown|]; simpl; repeat split;
      try (eexists; split; [reflexivity|]);
      try (exists []; split; [symmetry; apply app_nil_r|]);
      simpl; (split; [reflexivity|]); intuition discriminate.
  - repeat split. exists []. split; [symmetry; apply app_nil_r|].
    simpl. split; [reflexivity|]. intuition.
Qed.

Lemma send_announces (force : bool) (message : Payload) (m : Machine) :
  can_log (shard m) ->
  send force message m
  = checkOffline force message BeforeBucket (send_charged force message)
                 (announce message m).
Proof.
  unfold send, announce, andThen. intros [Hno | Htok].
  - rewrite Hno. reflexivity.
  - destruct (logger (shard m)); [|reflexivity].
    destruct (redact_total _ Htok (d message)) as (shown & ->). reflexivity.
Qed.

Lemma send_charged_open (force : bool) (message : Payload) (m : Machine) :
  isOpen (shard m) = true ->
  send_charged force message m
  = emit (WsSend message)
         (on_shard (fun sh => set_bucket (Bucket_process force (bucket sh)) sh) m).
Proof.
  intros Hopen. unfold send_charged, andThen, checkOffline, websocket_send.
  unfold isOpen in *. simpl.
  destruct (websocket (shard m)) as [ws|]; [|discriminate].
  rewrite Hopen. reflexivity.
Qed.

Lemma frames_since (m m' : Machine) (new : list Effect) :
  effects m' = (effects m ++ new)%list ->
  frames_of (effects_since m m') = frames_of new.
Proof.
  intros H. rewrite (effects_since_app _ _ _ H). reflexivity.
Qed.

Lemma frames_of_app (a b : list Effect) :
  frames_of (a ++ b) = (frames_of a ++ frames_of b)%list.
Proof.
  unfold frames_of. apply flat_map_app.
Qed.

(** ** [resume] *)

Lemma send_charged_offline (force : bool) (message : Payload) (m : Machine) :
  isOpen (shard m) = false ->
  send_charged force message m
  = park force message BeforeWrite
         (on_shard (fun sh => set_bucket (Bucket_process force (bucket sh)) sh) m).
Proof.
  intros Hopen. unfold send_charged, andThen, checkOffline.
  change (isOpen (shard (on_shard
            (fun sh => set_bucket (Bucket_process force (bucket sh)) sh) m)))
    with (isOpen (shard m)).
  rewrite Hopen. reflexivity.
Qed.

Lemma resume_throws (m : Machine) :
  ~ can_log (shard m) -> resume m = emit TypeError m.
Proof.
  unfold can_log. intros Hno.
  destruct (logger (shard m)) as [l|] eqn:Hl; [|tauto].
  assert (Hshort : ~ three_segments (opt_token (options (shard m)))) by tauto.
  unfold resume, send. rewrite Hl. unfold resume_frame.
  cbn [d redact option_map].
  destruct (replacer _ (match session_id _ with Some sid => sid | None => "" end));
    rewrite (replacer_short_token _ Hshort); reflexivity.
Qed.

(** C10, as stated, fails: on a shard without an open socket [resume()]
    writes no frame. *)
Lemma C10_resume_counterexample :
  isOpen (shard (fresh_machine false)) = false /\
  frames_of (effects (resume (fresh_machine false))) = [].
Proof.
  split; reflexivity.
Qed.

(** C10, amended. Whatever the session state, resumable or not,
    [resume()] builds a Resume frame whose [seq] is the stored sequence, or
    0 when that is null or was never assigned, and whose [session_id] is
    the stored session id, or the empty string when that is unset, and
    hands it to [send] with [force] set.  On a shard that can log a payload
    (it has no logger, or its token has three segments) nothing fails:
    with the socket open the frame is written at once, and nothing else
    is; with the socket not open nothing is written and the frame waits at
    the front of the offline queue, to be written when its promise is
    resolved on an open socket, and to be put back at the front of the
    queue when it is resolved on a socket that is not open.  On a shard
    that cannot log a payload [resume()] throws while [send] builds the
    log line, and does nothing else. *)
Theorem C10_resume_frame (m : Machine) :
  let sh := shard m in
  let frame :=
    mkPayload 6
      (JObj [("seq", JNum (match resume_seq (data sh) with
                           | Seq n => n
                           | Null | Undefined => 0
                           end));
             ("session_id", JStr (match session_id (data sh) with
                                  | Some sid => sid
                                  | None => EmptyString
                                  end));
             ("token", JStr ("Bot " ++ opt_token (options sh)))]) in
  let m' := resume m in
  let parked := mkResolver (nextPromise m) true frame BeforeBucket in
  (can_log sh ->
   ~ In TypeError (effects_since m m') /\
   (if isOpen sh
    then frames_of (effects_since m m') = [frame] /\
         offlineSendQueue (shard m') = offlineSendQueue sh
    else frames_of (effects_since m m') = [] /\
         offlineSendQueue (shard m') = parked :: offlineSendQueue sh) /\
   (forall later : Machine,
       let later' := resolved parked later in
       if isOpen (shard later)
       then frames_of (effects_since later later') = [frame] /\
            offlineSendQueue (shard later') = offlineSendQueue (shard later)
       else frames_of (effects_since later later') = [] /\
            offlineSendQueue (shard later')
            = mkResolver (nextPromise later) true frame BeforeWrite
              :: offlineSendQueue (shard later))) /\
  (~ can_log sh ->
   m' = emit TypeError m /\
   frames_of (effects_since m m') = [] /\
   shard m' = sh).
Proof.
  intros sh frame m' parked. split.
  - intros Hlog.
    assert (Hm' : m' = checkOffline true frame BeforeBucket
                                    (send_charged true frame) (announce frame m)).
    { subst m'. unfold resume. fold sh. change (resume_frame sh) with frame.
      apply send_announces. exact Hlog. }
    destruct (announce_frame frame m)
      as (Hsh & _ & _ & Hnp & _ & _ & line & Hline & Hfr & Hno).
    assert (Hopen' : isOpen (shard (announce frame m)) = isOpen sh)
      by (rewrite Hsh; reflexivity).
    split; [|split].
    + rewrite Hm'. unfold checkOffline. rewrite Hopen'.
      destruct (isOpen sh) eqn:Hopen; simpl.
      * rewrite send_charged_open by exact Hopen'.
        erewrite effects_since_app
          by (simpl; rewrite Hline, <- app_assoc; reflexivity).
        rewrite in_app_iff. intros [H | [H | []]]; [tauto | discriminate].
      * erewrite effects_since_app by (simpl; rewrite Hline; reflexivity).
        exact Hno.
    + rewrite Hm'. unfold checkOffline. rewrite Hopen'.
      destruct (isOpen sh) eqn:Hopen; simpl.
      * rewrite send_charged_open by exact Hopen'.
        split.
        -- erewrite frames_since
             by (simpl; rewrite Hline, <- app_assoc; reflexivity).
           rewrite frames_of_app, Hfr. reflexivity.
        -- simpl. rewrite Hsh. reflexivity.
      * split.
        -- erewrite frames_since by (simpl; rewrite Hline; reflexivity).
           exact Hfr.
        -- simpl. rewrite Hsh, Hnp. reflexivity.
    + intros later later'. subst later'. unfold resolved. simpl.
      destruct (isOpen (shard later)) eqn:Hlater.
      * rewrite send_charged_open by exact Hlater.
        erewrite frames_since by (simpl; reflexivity).
        split; reflexivity.
      * rewrite send_charged_offline by exact Hlater.
        split; [|reflexivity].
        rewrite effects_since_same by reflexivity. reflexivity.
  - intros Hno. subst m'. rewrite (resume_throws m Hno).
    split; [reflexivity|]. split; [|reflexivity].
    erewrite effects_since_app by (simpl; reflexivity). reflexivity.
Qed.

Lemma C10_resume_frame_witness :
  can_log (shard open_machine) /\
  frames_of (effects_since open_machine (resume open_machine))
  = [mkPayload 6 (JObj [("seq", JNum 0); ("session_id", JStr EmptyString);
                        ("token", JStr "Bot abc.def.ghi")])].
Proof.
  assert (H : can_log (shard open_machine)).
  { right. unfold three_segments. simpl. lia. }
  split; [exact H|].
  exact (proj1 (proj1 (proj2 (proj1 (C10_resume_frame open_machine) H)))).
Defined.

(** ** The offline queue *)

Lemma send_offline (force : bool) (message : Payload) (m : Machine) :
  isOpen (shard m) = false ->
  can_log (shard m) ->
  let m' := send force message m in
  let resolve := mkResolver (nextPromise m) force message BeforeBucket in
  websocket (shard m') = websocket (shard m) /\
  logger (shard m') = logger (shard m) /\
  options (shard m') = options (shard m) /\
  settled m' = settled m /\
  offlineSendQueue (shard m')
  = (if force then resolve :: offlineSendQueue (shard m)
     else offlineSendQueue (shard m) ++ [resolve])%list /\
  exists line : list Effect,
    effects m' = (effects m ++ line)%list /\ frames_of line = [].
Proof.
  intros Hclosed Hlog m' resolve. subst m'.
  rewrite (send_announces _ _ _ Hlog).
  destruct (announce_frame message m)
    as (Hsh & _ & _ & Hnp & Hst & _ & line & Hline & Hfr & _).
  unfold checkOffline. rewrite Hsh, Hclosed. simpl.
  rewrite Hsh, Hnp. fold resolve.
  repeat split; try assumption.
  exists line. split; assumption.
Qed.

Lemma offline_sends (sends : list (bool * Payload)) :
  forall m : Machine,
    isOpen (shard m) = false ->
    can_log (shard m) ->
    let m' := run (calls sends) m in
    websocket (shard m') = websocket (shard m) /\
    logger (shard m') = logger (shard m) /\
    settled m' = settled m /\
    (exists front back : list Resolver,
        offlineSendQueue (shard m')
        = (front ++ offlineSendQueue (shard m) ++ back)%list /\
        map parked_message front = rev (forced sends) /\
        map parked_message back = unforced sends) /\
    exists line : list Effect,
      effects m' = (effects m ++ line)%list /\ frames_of line = [].
Proof.
  induction sends as [|[force message] rest IH]; intros m Hclosed Hlog; simpl.
  - repeat split. exists [], []. simpl. rewrite app_nil_r. repeat split.
    exists []. rewrite app_nil_r. split; reflexivity.
  - destruct (send_offline force message m Hclosed Hlog)
      as (Hws & Hlg & Hopt & Hst & Hq & line & Hline & Hfr).
    assert (Hclosed' : isOpen (shard (send force message m)) = false).
    { unfold isOpen in *. rewrite Hws. exact Hclosed. }
    assert (Hlog' : can_log (shard (send force message m))).
    { unfold can_log in *. rewrite Hlg, Hopt. exact Hlog. }
    destruct (IH _ Hclosed' Hlog')
      as (Hws2 & Hlg2 & Hst2 & (front & back & Hq2 & Hfront & Hback)
          & line2 & Hline2 & Hfr2).
    unfold run in *. simpl.
    split; [congruence|]. split; [congruence|]. split; [congruence|].
    split.
    + rewrite Hq2, Hq. unfold forced, unforced. simpl.
      destruct force; simpl.
      * exists (front ++ [mkResolver (nextPromise m) true message BeforeBucket])%list,
          back.
        rewrite <- app_assoc. simpl. split; [reflexivity|].
        rewrite map_app. simpl. fold (forced rest). rewrite Hfront.
        split; [reflexivity | exact Hback].
      * exists front,
          (mkResolver (nextPromise m) false message BeforeBucket :: back).
        rewrite <- app_assoc. simpl. split; [reflexivity|].
        split; [exact Hfront|]. simpl. fold (unforced rest).
        rewrite Hback. reflexivity.
    + exists (line ++ line2)%list. rewrite Hline2, Hline, app_assoc.
      split; [reflexivity|]. rewrite frames_of_app, Hfr, Hfr2. reflexivity.
Qed.

Lemma resolved_open (resolve : Resolver) (m : Machine) :
  isOpen (shard m) = true ->
  isOpen (shard (resolved resolve m)) = true /\
  effects (resolved resolve m)
  = (effects m ++ [WsSend (parked_message resolve)])%list.
Proof.
  intros Hopen. unfold resolved.
  destruct (parked_stage resolve).
  - rewrite send_charged_open by exact Hopen. simpl. split; [|reflexivity].
    unfold isOpen in *. simpl. exact Hopen.
  - unfold websocket_send.
    assert (E : exists ws, websocket (shard m) = Some ws).
    { unfold isOpen in Hopen.
      destruct (websocket (shard m)) as [ws|]; [|discriminate].
      exists ws. reflexivity. }
    destruct E as (ws & ->). simpl. split; [exact Hopen | reflexivity].
Qed.

Lemma run_resolved_open (rs : list Resolver) :
  forall m : Machine,
    isOpen (shard m) = true ->
    effects (run_resolved rs m)
    = (effects m ++ map (fun r => WsSend (parked_message r)) rs)%list.
Proof.
  unfold run_resolved.
  induction rs as [|r rest IH]; intros m Hopen; simpl.
  - symmetry. apply app_nil_r.
  - destruct (resolved_open r m Hopen) as (Hopen' & Heff).
    rewrite (IH _ Hopen'), Heff, <- app_assoc. reflexivity.
Qed.

Lemma frames_of_WsSend (rs : list Resolver) :
  frames_of (map (fun r => WsSend (parked_message r)) rs)
  = map parked_message rs.
Proof.
  induction rs as [|r rest IH]; simpl; [reflexivity | f_equal; exact IH].
Qed.

Lemma unseen_refl (m : Machine) : unseen m m.
Proof.
  repeat split. exists []. rewrite app_nil_r. split; reflexivity.
Qed.

Lemma unseen_trans (a b c : Machine) : unseen a b -> unseen b c -> unseen a c.
Proof.
  intros (H1 & H2 & H3 & l1 & H4 & H5) (K1 & K2 & K3 & l2 & K4 & K5).
  repeat split; try congruence.
  exists (l1 ++ l2)%list. rewrite K4, H4, app_assoc, frames_of_app, H5, K5.
  split; reflexivity.
Qed.

Lemma unseen_log (level : Level) (line : LogLine) (m : Machine) :
  unseen m (log level line m).
Proof.
  unfold log. destruct (logger (shard m)); [|apply unseen_refl].
  repeat split. eexists. split; reflexivity.
Qed.

Lemma unseen_set_data (f : ShardData -> ShardData) (m : Machine) :
  unseen m (on_shard (set_data f) m).
Proof.
  repeat split. exists []. simpl. rewrite app_nil_r. split; reflexivity.
Qed.

Lemma unseen_pending (m m' : Machine) :
  unseen m m' ->
  pending m' = pending m /\ isOpen (shard m') = isOpen (shard m).
Proof.
  intros (H1 & H2 & H3 & _). unfold pending, isOpen.
  rewrite H1, H2, H3. split; reflexivity.
Qed.

Lemma flush_open (packet : Packet) (m : Machine) :
  isOpen (shard m) = true ->
  effects (flush_offlineSendQueue (handlePayload packet) m)
  = (effects m
     ++ HandlePayload (id (shard m)) packet
     :: map (fun r => WsSend (parked_message r)) (pending m))%list.
Proof.
  intros Hopen. unfold flush_offlineSendQueue, andThen.
  rewrite run_resolved_open by exact Hopen.
  simpl. rewrite <- app_assoc. reflexivity.
Qed.

(** A [READY] or [RESUMED] dispatch on an open socket wakes the parked
    calls of [send] in the order of the queue, and each writes its frame. *)
Lemma onpacket_releases (packet : Packet) (m : Machine) :
  releases packet = true ->
  isOpen (shard m) = true ->
  frames_of (effects_since m (onpacket packet m))
  = map parked_message (pending m).
Proof.
  intros Hrel Hopen.
  assert (Hflush : forall m1, unseen m m1 ->
            frames_of (effects_since m
               (flush_offlineSendQueue (handlePayload packet) m1))
            = map parked_message (pending m)).
  { intros m1 Hun.
    destruct (unseen_pending _ _ Hun) as (Hp & Ho).
    destruct Hun as (_ & _ & _ & line & Hline & Hfr).
    rewrite Hopen in Ho.
    erewrite frames_since
      by (rewrite (flush_open _ _ Ho), Hline, <- app_assoc; reflexivity).
    rewrite frames_of_app, Hfr, Hp. simpl. apply frames_of_WsSend. }
  destruct packet as [sq bd].
  unfold releases in Hrel. simpl in Hrel.
  destruct bd as [ | | | | | ev | ]; try discriminate.
  destruct ev as [ | u sid | ]; try discriminate;
    unfold onpacket, andThen; cbn [packet_body packet_s];
    apply Hflush;
    repeat (eapply unseen_trans; [|first [apply unseen_set_data | apply unseen_log]]);
    destruct sq; first [apply unseen_set_data | apply unseen_refl].
Qed.

(** C1, as stated, fails: two forced messages sent while the socket is not
    open are released last in, first out. *)
Lemma C1_offline_order_counterexample :
  let sends := [(true, frame_A); (true, frame_B)] in
  let queued := run (calls sends) connecting_machine in
  let opened := step socket_opens queued in
  let flushed := step (socket_message (Some ready_packet)) opened in
  forced sends = [frame_A; frame_B] /\
  unforced sends = [] /\
  frames_of (effects_since opened flushed) = [frame_B; frame_A] /\
  frames_of (effects_since opened flushed)
  <> (forced sends ++ unforced sends)%list.
Proof.
  repeat split. discriminate.
Qed.

(** C1, amended. Messages sent while the socket is not open, starting from
    an empty queue, write nothing while they wait.  When the socket has
    opened and the first [READY] or [RESUMED] dispatch arrives (no promise
    of the queue has been resolved before), they are released, and their
    frames written, in this order: every message sent with [force] before
    every message sent without, the forced ones last sent first, the others
    in the order they were sent. *)
Theorem C1_offline_order
        (m : Machine) (sends : list (bool * Payload))
        (opened : Machine) (packet : Packet) :
  isOpen (shard m) = false ->
  offlineSendQueue (shard m) = [] ->
  can_log (shard m) ->
  let queued := run (calls sends) m in
  isOpen (shard opened) = true ->
  offlineSendQueue (shard opened) = offlineSendQueue (shard queued) ->
  settled opened = [] ->
  releases packet = true ->
  let flushed := step (socket_message (Some packet)) opened in
  frames_of (effects_since m queued) = [] /\
  map parked_message (pending opened)
  = (rev (forced sends) ++ unforced sends)%list /\
  frames_of (effects_since opened flushed)
  = (rev (forced sends) ++ unforced sends)%list.
Proof.
  intros Hclosed Hq Hlog queued Hopen Hsame Hst Hrel flushed.
  destruct (offline_sends sends m Hclosed Hlog)
    as (_ & _ & _ & (front & back & Hq' & Hfront & Hback)
        & line & Hline & Hfr).
  fold queued in Hq', Hline.
  rewrite Hq in Hq'. simpl in Hq'.
  assert (Hpending : pending opened = (front ++ back)%list).
  { unfold pending. rewrite Hst, Hsame, Hq'. simpl.
    apply forallb_filter_id. apply forallb_forall. reflexivity. }
  assert (Horder : map parked_message (pending opened)
                   = (rev (forced sends) ++ unforced sends)%list).
  { rewrite Hpending, map_app, Hfront, Hback. reflexivity. }
  split; [|split].
  - rewrite (frames_since _ _ _ Hline). exact Hfr.
  - exact Horder.
  - subst flushed. simpl. rewrite Hopen. simpl.
    rewrite (onpacket_releases _ _ Hrel Hopen). exact Horder.
Qed.

Lemma C1_offline_order_witness :
  let sends := [(false, frame_B); (true, frame_A)] in
  let queued := run (calls sends) connecting_machine in
  let opened := step socket_opens queued in
  let flushed := step (socket_message (Some ready_packet)) opened in
  isOpen (shard connecting_machine) = false /\
  isOpen (shard opened) = true /\
  frames_of (effects_since opened flushed) = [frame_A; frame_B].
Proof.
  split; [reflexivity|]. split; [reflexivity|].
  refine (proj2 (proj2 (C1_offline_order
                          connecting_machine
                          [(false, frame_B); (true, frame_A)]
                          (step socket_opens
                                (run (calls [(false, frame_B); (true, frame_A)])
                                     connecting_machine))
                          ready_packet
                          eq_refl eq_refl _ eq_refl eq_refl eq_refl eq_refl))).
  right. unfold three_segments. simpl. lia.
Defined.

(** ** The heartbeat timer *)

Lemma quiet_refl (m : Machine) : quiet m m.
Proof. repeat split. Qed.

Lemma quiet_trans (a b c : Machine) : quiet a b -> quiet b c -> quiet a c.
Proof.
  unfold quiet. intros (H1 & H2 & H3 & H4) (K1 & K2 & K3 & K4).
  repeat split; congruence.
Qed.

Lemma quiet_calm (m m' : Machine) : quiet m m' -> calm m m'.
Proof.
  unfold quiet, calm. intros (H1 & H2 & H3 & H4). repeat split; auto.
Qed.

Lemma calm_refl (m : Machine) : calm m m.
Proof. apply quiet_calm, quiet_refl. Qed.

Lemma filter_twice {A : Type} (p : A -> bool) (l : list A) :
  filter p (filter p l) = filter p l.
Proof.
  induction l as [|a l IH]; simpl; [reflexivity|].
  destruct (p a) eqn:E; simpl; rewrite ?E, IH; reflexivity.
Qed.

Lemma calm_trans (a b c : Machine) : calm a b -> calm b c -> calm a c.
Proof.
  unfold calm, dropped, clearInterval.
  intros (H1 & H2 & H3 & H4) (K1 & K2 & K3 & K4).
  repeat split; try congruence.
  rewrite H1 in K4.
  destruct (nodeInterval (heart (shard a))) as [t|]; simpl in *.
  - destruct H4 as [H4 | H4], K4 as [K4 | K4]; rewrite K4, H4;
      rewrite ?filter_twice; auto.
  - destruct H4 as [H4 | H4], K4 as [K4 | K4]; left; congruence.
Qed.

Lemma clearInterval_shard (h : option Timer) (m : Machine) :
  shard (clearInterval h m) = shard m /\
  nextTimer (clearInterval h m) = nextTimer m.
Proof. destruct h; split; reflexivity. Qed.

Lemma calm_cancel (m : Machine) :
  calm m (clearInterval (nodeInterval (heart (shard m))) m).
Proof.
  unfold calm, dropped.
  destruct (clearInterval_shard (nodeInterval (heart (shard m))) m) as (-> & ->).
  repeat split. right. reflexivity.
Qed.

Lemma quiet_emit (e : Effect) (m : Machine) : quiet m (emit e m).
Proof. repeat split. Qed.

Lemma quiet_log (level : Level) (line : LogLine) (m : Machine) :
  quiet m (log level line m).
Proof. unfold log. destruct (logger (shard m)); repeat split. Qed.

Lemma quiet_set_data (f : ShardData -> ShardData) (m : Machine) :
  quiet m (on_shard (set_data f) m).
Proof. repeat split. Qed.

Lemma quiet_with_ack (b : bool) (m : Machine) :
  quiet m (on_shard (set_heart (with_ack b)) m).
Proof. repeat split. Qed.

Lemma quiet_with_lastBeat (x : option Z) (m : Machine) :
  quiet m (on_shard (set_heart (with_lastBeat x)) m).
Proof. repeat split. Qed.

Lemma quiet_with_lastAck (x : option Z) (m : Machine) :
  quiet m (on_shard (set_heart (with_lastAck x)) m).
Proof. repeat split. Qed.

Lemma quiet_set_websocket (w : option WebSocket) (m : Machine) :
  quiet m (on_shard (set_websocket w) m).
Proof. repeat split. Qed.

Lemma quiet_charge (force : bool) (m : Machine) :
  quiet m (on_shard (fun sh => set_bucket (Bucket_process force (bucket sh)) sh) m).
Proof. repeat split. Qed.

Lemma quiet_websocket_send (frame : Payload) (m : Machine) :
  quiet m (websocket_send frame m).
Proof. unfold websocket_send. destruct (websocket (shard m)); repeat split. Qed.

Lemma quiet_websocket_close (code : Z) (reason : string) (m : Machine) :
  quiet m (websocket_close code reason m).
Proof. unfold websocket_close. destruct (websocket (shard m)); repeat split. Qed.

Lemma quiet_park (force : bool) (message : Payload) (stage : Stage) (m : Machine) :
  quiet m (park force message stage m).
Proof. repeat split. Qed.

Lemma quiet_settle (rs : list Resolver) (m : Machine) : quiet m (settle rs m).
Proof. repeat split. Qed.

Lemma quiet_connect (m : Machine) : quiet m (connect m).
Proof. repeat split. Qed.

Lemma quiet_leave_gate (m : Machine) : quiet m (leave_gate m).
Proof. repeat split. Qed.

Lemma quiet_set_readyState (n : Z) (m : Machine) : quiet m (set_readyState n m).
Proof.
  unfold set_readyState, on_shard. simpl.
  destruct (websocket (shard m)); repeat split.
Qed.

Lemma quiet_advance (dt : Z) (m : Machine) : quiet m (advance dt m).
Proof. repeat split. Qed.

Lemma quiet_handlePayload (packet : Packet) (m : Machine) :
  quiet m (handlePayload packet m).
Proof. repeat split. Qed.

Create HintDb timers.
#[local] Hint Resolve quiet_emit quiet_log quiet_set_data quiet_with_ack
  quiet_with_lastBeat quiet_with_lastAck quiet_set_websocket quiet_charge
  quiet_websocket_send quiet_websocket_close quiet_park quiet_settle
  quiet_connect quiet_leave_gate quiet_set_readyState quiet_advance
  quiet_handlePayload : timers.

(** Peel the statements of a handler off, last one first. *)
Ltac quiet_chain :=
  cbv beta zeta;
  repeat first
    [ apply quiet_refl
    | eapply quiet_trans; [ | solve [auto with timers] ] ].

Ltac calm_chain :=
  cbv beta zeta;
  repeat first
    [ apply calm_refl
    | eapply calm_trans; [ | first [ apply calm_cancel
                                   | apply quiet_calm; solve [auto with timers] ] ] ].

Lemma quiet_send_charged (force : bool) (message : Payload) (m : Machine) :
  quiet m (send_charged force message m).
Proof.
  unfold send_charged, andThen, checkOffline.
  destruct (negb _); quiet_chain.
Qed.

Lemma quiet_send (force : bool) (message : Payload) (m : Machine) :
  quiet m (send force message m).
Proof.
  unfold send, andThen, checkOffline.
  destruct (logger (shard m)).
  - destruct (redact _ _); [|quiet_chain].
    destruct (negb _); [quiet_chain|].
    eapply quiet_trans; [|apply quiet_send_charged]. quiet_chain.
  - destruct (negb _); [quiet_chain | apply quiet_send_charged].
Qed.

Lemma quiet_identify (m : Machine) : quiet m (identify m).
Proof. unfold identify. apply quiet_send. Qed.

Lemma quiet_resume (m : Machine) : quiet m (resume m).
Proof. unfold resume. apply quiet_send. Qed.

Lemma quiet_resolved (resolve : Resolver) (m : Machine) :
  quiet m (resolved resolve m).
Proof.
  unfold resolved. destruct (parked_stage resolve).
  - apply quiet_send_charged.
  - apply quiet_websocket_send.
Qed.

Lemma quiet_run_resolved (rs : list Resolver) :
  forall m : Machine, quiet m (run_resolved rs m).
Proof.
  unfold run_resolved.
  induction rs as [|r rest IH]; intros m; simpl.
  - apply quiet_refl.
  - eapply quiet_trans; [apply quiet_resolved | apply IH].
Qed.

Lemma quiet_flush (packet : Packet) (m : Machine) :
  quiet m (flush_offlineSendQueue (handlePayload packet) m).
Proof.
  unfold flush_offlineSendQueue, andThen.
  eapply quiet_trans; [|apply quiet_run_resolved]. quiet_chain.
Qed.

#[local] Hint Resolve quiet_send_charged quiet_send quiet_identify
  quiet_resume quiet_resolved quiet_run_resolved quiet_flush : timers.

Lemma calm_close (code : Z) (reason : string) (m : Machine) :
  calm m (close code reason m).
Proof.
  unfold close, andThen. cbv zeta.
  destruct (negb _); calm_chain.
Qed.

Lemma calm_heartbeat (requested : bool) (m : Machine) :
  calm m (heartbeat requested m).
Proof.
  unfold heartbeat, andThen. cbv zeta.
  destruct (negb requested).
  - destruct (negb _).
    + eapply calm_trans; [|apply calm_close]. calm_chain.
    + calm_chain.
  - calm_chain.
Qed.

Lemma calm_disconnect (m : Machine) : calm m (disconnect m).
Proof.
  unfold disconnect, andThen.
  eapply calm_trans; [|apply calm_close]. calm_chain.
Qed.

Lemma calm_reconnect (m : Machine) : calm m (reconnect m).
Proof.
  unfold reconnect, andThen.
  eapply calm_trans; [|apply quiet_calm, quiet_connect].
  eapply calm_trans; [|apply calm_disconnect]. calm_chain.
Qed.

Lemma quiet_WebSocket_new (u : GatewayURL) (m : Machine) :
  quiet m (WebSocket_new u m).
Proof.
  unfold WebSocket_new, andThen.
  destruct (WebSocket_accepts _ _); quiet_chain.
Qed.

Lemma calm_connect_resumed (m : Machine) : calm m (connect_resumed m).
Proof.
  unfold connect_resumed, andThen.
  destruct (isOpen (shard m)); [calm_chain|]. cbv beta.
  destruct (currentGatewayURL _ _) as [u|]; [|calm_chain].
  eapply calm_trans; [|apply quiet_calm, quiet_WebSocket_new]. calm_chain.
Qed.

Lemma calm_handleClosed (code : Z) (reason : string) (m : Machine) :
  calm m (handleClosed code reason m).
Proof.
  unfold handleClosed, andThen, skip.
  destruct (code =? _); [calm_chain|].
  destruct (oneOf code resumable_loss_codes).
  { eapply calm_trans; [|apply calm_reconnect]. calm_chain. }
  destruct (oneOf code transient_codes).
  { eapply calm_trans; [|apply calm_reconnect]. calm_chain. }
  destruct (oneOf code fatal_codes); [calm_chain|].
  eapply calm_trans; [|apply calm_reconnect]. calm_chain.
Qed.

(** Every packet but [Hello] leaves the timers alone or cancels the one
    the heart names. *)
Lemma calm_onpacket (packet : Packet) (m : Machine) :
  (forall ms, packet_body packet <> Hello ms) ->
  calm m (onpacket packet m).
Proof.
  intros Hbody. destruct packet as [sq bd].
  assert (P : forall line,
             calm m (log Debug line
                       match sq with
                       | Some n => on_shard (set_data (with_resume_seq (Seq n))) m
                       | None => m
                       end)).
  { intros line. destruct sq; calm_chain. }
  destruct bd as [ms | | | | hint | ev | o];
    unfold onpacket, andThen, skip; cbn [packet_body packet_s].
  - exfalso. apply (Hbody ms). reflexivity.
  - eapply calm_trans; [apply P|]. calm_chain.
  - eapply calm_trans; [apply P|]. apply calm_heartbeat.
  - eapply calm_trans; [apply P|]. apply calm_reconnect.
  - eapply calm_trans; [apply P|].
    destruct hint.
    + destruct (negb _); calm_chain.
    + calm_chain.
  - eapply calm_trans; [apply P|]. destruct ev; calm_chain.
  - apply P.
Qed.

Lemma one_timer_dropped (m : Machine) : one_timer m -> dropped m = [].
Proof.
  unfold dropped, clearInterval.
  intros [H | (t & ms & H & Hn)].
  - destruct (nodeInterval (heart (shard m))); simpl; rewrite H; reflexivity.
  - rewrite Hn. simpl. rewrite H. simpl. rewrite Nat.eqb_refl. reflexivity.
Qed.

Lemma calm_one_timer (m m' : Machine) :
  one_timer m -> calm m m' -> one_timer m'.
Proof.
  intros Hone (Hn & _ & _ & [Ht | Ht]).
  - destruct Hone as [H | (t & ms & H & Hn')].
    + left. congruence.
    + right. exists t, ms. split; congruence.
  - left. rewrite Ht. apply one_timer_dropped. exact Hone.
Qed.

Lemma calm_no_timer (m m' : Machine) :
  timers m = [] -> calm m m' -> timers m' = [].
Proof.
  intros H (_ & _ & _ & [Ht | Ht]); rewrite Ht; [exact H|].
  apply one_timer_dropped. left. exact H.
Qed.

(** [Hello] cancels the timer the heart names and arms one at the interval
    the packet carries. *)
Lemma onpacket_Hello (sq : option Z) (ms : Z) (m : Machine) :
  one_timer m ->
  let m' := onpacket (mkPacket sq (Hello ms)) m in
  timers m' = [(nextTimer m, ms)] /\
  nodeInterval (heart (shard m')) = Some (nextTimer m) /\
  interval (heart (shard m')) = ms /\
  nextTimer m' = S (nextTimer m).
Proof.
  intros Hone. unfold onpacket, andThen. cbn [packet_body packet_s].
  cbv beta zeta.
  set (m1 := log Debug _ _).
  assert (P : quiet m m1).
  { subst m1. destruct sq; quiet_chain. }
  destruct P as (P1 & P2 & P3 & P4).
  assert (Hone1 : one_timer m1).
  { apply (calm_one_timer m); [exact Hone|].
    apply quiet_calm. repeat split; assumption. }
  set (m2 := clearInterval (nodeInterval (heart (shard m1))) m1).
  assert (T2 : timers m2 = []) by (apply one_timer_dropped; exact Hone1).
  assert (N2 : nextTimer m2 = nextTimer m).
  { subst m2. unfold clearInterval.
    destruct (nodeInterval (heart (shard m1))); exact P3. }
  set (m3 := on_shard (set_heart (with_interval ms)) m2).
  assert (T3 : timers m3 = []) by exact T2.
  assert (I3 : interval (heart (shard m3)) = ms) by reflexivity.
  assert (N3 : nextTimer m3 = nextTimer m) by exact N2.
  set (m4 := heartbeat false m3).
  destruct (calm_heartbeat false m3) as (_ & I4 & N4 & _).
  assert (T4 : timers m4 = [])
    by (apply (calm_no_timer m3); [exact T3 | apply calm_heartbeat]).
  fold m4 in I4, N4.
  set (m5 := setInterval_nodeInterval (interval (heart (shard m4))) m4).
  assert (Q5 : quiet m5 (if resumable (shard m5) then resume m5 else identify m5)).
  { destruct (resumable (shard m5)); auto with timers. }
  destruct Q5 as (Q1 & Q2 & Q3 & Q4).
  rewrite Q1, Q2, Q3, Q4. subst m5. simpl.
  rewrite T4, I4, I3, N4, N3. repeat split.
Qed.

Lemma step_one_timer (e : Event) (m : Machine) :
  one_timer m -> one_timer (step e m).
Proof.
  intros Hone.
  assert (Honpacket : forall packet, one_timer (onpacket packet m)).
  { intros [sq bd].
    destruct bd as [ms | | | | hint | ev | o];
      try (apply (calm_one_timer m); [exact Hone|];
           apply calm_onpacket; simpl; discriminate).
    destruct (onpacket_Hello sq ms m Hone) as (Ht & Hn & _).
    right. exists (nextTimer m), ms. split; assumption. }
  assert (Hcalm : forall m', calm m m' -> one_timer m')
    by (intros m'; apply calm_one_timer; exact Hone).
  destruct e; simpl.
  - apply Hcalm, quiet_calm, quiet_connect.
  - apply Hcalm, quiet_calm, quiet_send.
  - apply Hcalm, quiet_calm, quiet_identify.
  - apply Hcalm, quiet_calm, quiet_resume.
  - apply Hcalm, calm_heartbeat.
  - apply Hcalm, calm_disconnect.
  - apply Hcalm, calm_reconnect.
  - apply Honpacket.
  - apply Hcalm, calm_close.
  - apply Hcalm. destruct (gate m); [apply calm_refl|].
    unfold andThen. eapply calm_trans; [|apply calm_connect_resumed]. calm_chain.
  - apply Hcalm. destruct (websocket (shard m)) as [ws|]; [|apply calm_refl].
    destruct (readyState ws =? 0); [|apply calm_refl].
    unfold andThen, onopen. calm_chain.
  - destruct (isOpen (shard m)); [|exact Hone].
    destruct parsed as [packet|]; simpl; [apply Honpacket|].
    apply Hcalm. calm_chain.
  - apply Hcalm. destruct (websocket (shard m)); [|apply calm_refl].
    unfold andThen. eapply calm_trans; [|apply calm_handleClosed]. calm_chain.
  - apply Hcalm, quiet_calm, quiet_log.
  - apply Hcalm, calm_handleClosed.
  - apply Hcalm.
    destruct (existsb _ _); [apply calm_heartbeat | apply calm_refl].
  - apply Hcalm, quiet_calm, quiet_advance.
Qed.

Lemma reachable_one_timer (m : Machine) : reachable m -> one_timer m.
Proof.
  induction 1 as [rt platform id0 o now | e m _ IH].
  - left. reflexivity.
  - apply step_one_timer. exact IH.
Qed.

Lemma reachable_run (es : list Event) :
  forall m : Machine, reachable m -> reachable (run es m).
Proof.
  unfold run. induction es as [|e rest IH]; intros m Hm; simpl.
  - exact Hm.
  - apply IH. apply reachable_step. exact Hm.
Qed.

(** C7. In every state a shard can reach at most one heartbeat timer is
    active, the one [heart.nodeInterval] names.  [close] and the close
    handler leave none, and so does [connect] when it opens a socket;
    [Hello] cancels the existing timer before it arms the new one, so after
    a [Hello] packet exactly one timer is active, at the interval the packet
    carries. *)
Theorem C7_one_heartbeat_timer (m : Machine) :
  reachable m ->
  (List.length (timers m) <= 1)%nat /\
  (forall t ms, In (t, ms) (timers m) ->
                nodeInterval (heart (shard m)) = Some t) /\
  (forall (sq : option Z) (ms : Z),
      let m' := onpacket (mkPacket sq (Hello ms)) m in
      timers m' = [(nextTimer m, ms)] /\
      nodeInterval (heart (shard m')) = Some (nextTimer m) /\
      interval (heart (shard m')) = ms) /\
  (forall code reason, timers (close code reason m) = []) /\
  (forall code reason, timers (handleClosed code reason m) = []) /\
  (isOpen (shard m) = false -> timers (connect_resumed m) = []).
Proof.
  intros Hreach.
  pose proof (reachable_one_timer m Hreach) as Hone.
  pose proof (one_timer_dropped m Hone) as Hdrop.
  unfold dropped in Hdrop.
  split; [|split; [|split; [|split; [|split]]]].
  - destruct Hone as [H | (t & ms & H & _)]; rewrite H; simpl; lia.
  - intros t ms Hin.
    destruct Hone as [H | (t' & ms' & H & Hn)]; rewrite H in Hin.
    + destruct Hin.
    + destruct Hin as [E | []]. inversion E; subst. exact Hn.
  - intros sq ms.
    destruct (onpacket_Hello sq ms m Hone) as (H1 & H2 & H3 & _).
    repeat split; assumption.
  - intros code reason. unfold close. cbv zeta.
    set (m1 := clearInterval _ m) in *.
    destruct (negb _).
    + apply (calm_no_timer m1); [exact Hdrop | calm_chain].
    + apply (calm_no_timer m1); [exact Hdrop|].
      unfold andThen. calm_chain.
  - intros code reason.
    assert (E : handleClosed code reason m
                = handleClosed code reason
                    (clearInterval (nodeInterval (heart (shard m))) m)).
    { unfold handleClosed, andThen.
      replace (clearInterval
                 (nodeInterval (heart (shard
                    (clearInterval (nodeInterval (heart (shard m))) m))))
                 (clearInterval (nodeInterval (heart (shard m))) m))
        with (clearInterval (nodeInterval (heart (shard m))) m);
        [reflexivity|].
      unfold clearInterval.
      destruct (nodeInterval (heart (shard m))) as [t|] eqn:E; simpl;
        rewrite ?E; [|reflexivity].
      rewrite filter_twice. reflexivity. }
    rewrite E.
    apply (calm_no_timer (clearInterval (nodeInterval (heart (shard m))) m));
      [exact Hdrop | apply calm_handleClosed].
  - intros Hclosed. unfold connect_resumed. rewrite Hclosed.
    unfold andThen. cbv beta.
    apply (calm_no_timer (clearInterval (nodeInterval (heart (shard m))) m));
      [exact Hdrop|].
    destruct (currentGatewayURL _ _) as [u|]; [|apply quiet_calm, quiet_emit].
    eapply calm_trans; [|apply quiet_calm, quiet_WebSocket_new].
    apply quiet_calm, quiet_log.
Qed.

Lemma C7_one_heartbeat_timer_witness :
  reachable open_machine /\
  timers (onpacket hello_packet open_machine)
  = [(nextTimer open_machine, 41250)].
Proof.
  assert (H : reachable open_machine).
  { apply reachable_run. apply reachable_boot. }
  split; [exact H|].
  exact (proj1 (proj1 (proj2 (proj2 (C7_one_heartbeat_timer _ H)))
                      None 41250)).
Defined.

(** ** Masking the token *)

Lemma append_split (a x b y : string) :
  a ++ x = b ++ y ->
  (String.length a <= String.length b)%nat ->
  exists z, b = a ++ z /\ x = z ++ y.
Proof.
  revert b. induction a as [|c a IH]; intros b H Hlen; simpl in *.
  - exists b. split; [reflexivity | exact H].
  - destruct b as [|c' b]; simpl in *; [lia|].
    inversion H; subst.
    destruct (IH b H2 ltac:(lia)) as (z & -> & ->).
    exists z. split; reflexivity.
Qed.

Lemma dotless_append (a b : string) :
  dotless (a ++ b) = dotless a && dotless b.
Proof.
  induction a as [|c a IH]; simpl; [reflexivity|].
  rewrite IH, andb_assoc. reflexivity.
Qed.

Lemma split_dot_nonempty (text : string) : Str.split_dot text <> [].
Proof.
  destruct text as [|c rest]; simpl; [discriminate|].
  destruct (Str.split_dot rest); [discriminate|].
  destruct (Ascii.eqb c "."); discriminate.
Qed.

Lemma split_dot_dotless (a : string) :
  dotless a = true -> Str.split_dot a = [a].
Proof.
  induction a as [|c a IH]; simpl; [reflexivity|].
  intros H. apply andb_true_iff in H. destruct H as (Hc & Ha).
  rewrite (IH Ha). apply negb_true_iff in Hc. rewrite Hc. reflexivity.
Qed.

Lemma split_dot_append (a b : string) :
  dotless a = true ->
  Str.split_dot (a ++ "." ++ b) = a :: Str.split_dot b.
Proof.
  induction a as [|c a IH]; simpl.
  - intros _. destruct (Str.split_dot b) eqn:E; [|reflexivity].
    exfalso. apply (split_dot_nonempty b). exact E.
  - intros H. apply andb_true_iff in H. destruct H as (Hc & Ha).
    change (String "." b) with ("." ++ b). rewrite (IH Ha).
    apply negb_true_iff in Hc. rewrite Hc. reflexivity.
Qed.

Lemma mask_three (s0 s1 s2 : string) :
  dotless s0 = true -> dotless s1 = true -> dotless s2 = true ->
  mask (s0 ++ "." ++ s1 ++ "." ++ s2)
  = Some (s0 ++ "." ++ Str.stars (String.length s1) ++ "."
             ++ Str.stars (String.length s2)).
Proof.
  intros H0 H1 H2. unfold mask.
  rewrite (split_dot_append s0 _ H0), (split_dot_append s1 _ H1),
    (split_dot_dotless s2 H2).
  reflexivity.
Qed.

Section ReplaceAll.
Variables (c0 : ascii) (t0 : string).
Variable fn : string -> option string.
Variable shown : string.
Hypothesis fn_tok : fn (String c0 t0) = Some shown.

Lemma replaceAll_from_skip (x b : string) :
  Str.replaceAll_from (String c0 t0) fn (String.length x) (x ++ b)
  = Str.replaceAll_from (String c0 t0) fn O b.
Proof.
  induction x as [|c x IH]; simpl; [reflexivity | exact IH].
Qed.

Lemma replaceAll_from_match (b : string) :
  Str.replaceAll_from (String c0 t0) fn O ((String c0 t0) ++ b)
  = option_map (fun out => shown ++ out) (Str.replaceAll_from (String c0 t0) fn O b).
Proof.
  assert (P : prefix (String c0 t0) ((String c0 t0) ++ b) = true)
    by (apply prefix_true; exists b; reflexivity).
  change ((String c0 t0) ++ b) with (String c0 (t0 ++ b)) in *.
  cbn [Str.replaceAll_from]. rewrite P, fn_tok.
  cbn [String.length]. rewrite replaceAll_from_skip. reflexivity.
Qed.

Lemma replaceAll_from_pass (c : ascii) (rest : string) :
  prefix (String c0 t0) (String c rest) = false ->
  Str.replaceAll_from (String c0 t0) fn O (String c rest)
  = option_map (String c) (Str.replaceAll_from (String c0 t0) fn O rest).
Proof.
  intros P. cbn [Str.replaceAll_from]. rewrite P. reflexivity.
Qed.

Lemma replaceAll_from_end :
  Str.replaceAll_from (String c0 t0) fn O EmptyString = Some EmptyString.
Proof. reflexivity. Qed.

Lemma Replaced_pass (c : ascii) (rest out : string) :
  prefix (String c0 t0) (String c rest) = false ->
  Replaced (String c0 t0) shown rest out ->
  Replaced (String c0 t0) shown (String c rest) (String c out).
Proof.
  intros P H.
  assert (Hhead : forall after, String c rest <> (String c0 t0) ++ after).
  { intros after E.
    assert (T : prefix (String c0 t0) (String c rest) = true)
      by (apply prefix_true; exists after; exact E).
    congruence. }
  destruct H as [value Hnone | before after out Hleft Hrest].
  - apply Replaced_none. intros [|c' before] after E; simpl in E.
    + apply (Hhead after). exact E.
    + inversion E; subst. apply (Hnone before after). reflexivity.
  - change (String c (before ++ (String c0 t0) ++ after))
      with (String c before ++ (String c0 t0) ++ after).
    change (String c (before ++ shown ++ out))
      with (String c before ++ shown ++ out).
    apply Replaced_next; [|exact Hrest].
    intros [|c' before'] after' E; simpl in E.
    + exfalso. apply (Hhead after'). exact E.
    + inversion E; subst. simpl.
      apply le_n_S. apply (Hleft before' after'). assumption.
Qed.

Lemma replaceAll_Replaced (n : nat) :
  forall value : string,
    (String.length value <= n)%nat ->
    exists out,
      Str.replaceAll_from (String c0 t0) fn O value = Some out /\
      Replaced (String c0 t0) shown value out.
Proof.
  induction n as [|n IH]; intros value Hlen.
  - destruct value; simpl in Hlen; [|lia].
    exists EmptyString. split; [reflexivity|].
    apply Replaced_none. intros [|c before] after E; discriminate.
  - destruct value as [|c rest].
    + exists EmptyString. split; [reflexivity|].
      apply Replaced_none. intros [|c before] after E; discriminate.
    + destruct (prefix (String c0 t0) (String c rest)) eqn:P.
      * apply prefix_true in P. destruct P as (b & E). rewrite E.
        assert (Hb : (String.length b <= n)%nat).
        { apply (f_equal String.length) in E.
          rewrite length_append in E. simpl in E, Hlen. lia. }
        destruct (IH b Hb) as (out & Hout & Hrep).
        exists (shown ++ out). rewrite replaceAll_from_match, Hout.
        split; [reflexivity|].
        apply (Replaced_next (String c0 t0) shown EmptyString b out); [|exact Hrep].
        intros before' after' _. simpl. lia.
      * simpl in Hlen.
        destruct (IH rest ltac:(lia)) as (out & Hout & Hrep).
        exists (String c out). rewrite (replaceAll_from_pass _ _ P), Hout.
        split; [reflexivity|]. apply Replaced_pass; assumption.
Qed.
End ReplaceAll.

(** A string that is a prefix of [c ++ itself], for a dotless [c] that is
    not empty, has no dot either. *)
Lemma periodic_dotless (n : nat) :
  forall (tok c b : string),
    (String.length tok <= n)%nat ->
    c <> EmptyString ->
    dotless c = true ->
    c ++ tok = tok ++ b ->
    dotless tok = true.
Proof.
  induction n as [|n IH]; intros tok c b Hlen Hc Hdot E.
  - destruct tok; [reflexivity | simpl in Hlen; lia].
  - destruct (Nat.le_gt_cases (String.length tok) (String.length c)) as [L | L].
    + symmetry in E.
      destruct (append_split tok b c tok E L) as (z & Ez & _).
      rewrite Ez, dotless_append in Hdot.
      apply andb_true_iff in Hdot. tauto.
    + destruct (append_split c tok tok b E ltac:(lia)) as (z & Ez & Ez').
      assert (Hz : dotless z = true).
      { apply (IH z c b).
        - apply (f_equal String.length) in Ez. rewrite length_append in Ez.
          destruct c; [congruence | simpl in Ez; lia].
        - exact Hc.
        - exact Hdot.
        - rewrite <- Ez'. symmetry. exact Ez. }
      rewrite Ez, dotless_append, Hdot, Hz. reflexivity.
Qed.

Lemma no_prefix_after (tok c : string) :
  dotless tok = false ->
  c <> EmptyString ->
  dotless c = true ->
  prefix tok (c ++ tok) = false.
Proof.
  intros Hdot Hc Hcdot.
  destruct (prefix tok (c ++ tok)) eqn:P; [|reflexivity].
  apply prefix_true in P. destruct P as (b & E).
  rewrite (periodic_dotless _ tok c b (le_n _) Hc Hcdot E) in Hdot.
  discriminate.
Qed.

Lemma replacer_Replaced (tok shown value : string) :
  tok <> EmptyString ->
  mask tok = Some shown ->
  exists out, replacer tok value = Some out /\ Replaced tok shown value out.
Proof.
  intros Htok Hmask. destruct tok as [|c0 t0]; [congruence|].
  apply (replaceAll_Replaced c0 t0 mask shown Hmask (String.length value)).
  apply le_n.
Qed.

Lemma redact_Rewritten (tok shown : string) :
  tok <> EmptyString ->
  mask tok = Some shown ->
  forall value : JSON,
    exists value',
      redact tok value = Some value' /\
      Rewritten (Replaced tok shown) value value'.
Proof.
  intros Htok Hmask.
  induction value as [ | | b | z | text | items IH | fields IH ]
    using JSON_nested_ind; simpl;
    try (eexists; split; [reflexivity | constructor]).
  - destruct (replacer_Replaced tok shown text Htok Hmask) as (out & -> & H).
    exists (JStr out). split; [reflexivity | constructor; exact H].
  - assert (E : exists items',
               (fix each (l : list JSON) : option (list JSON) :=
                  match l with
                  | [] => Some []
                  | x :: rest =>
                      match redact tok x with
                      | Some x' => option_map (cons x') (each rest)
                      | None => None
                      end
                  end) items = Some items' /\
               Forall2 (Rewritten (Replaced tok shown)) items items').
    { induction IH as [|x rest (x' & Hx & Rx) _ (rest' & Hrest & Rrest)].
      - exists []. split; [reflexivity | constructor].
      - rewrite Hx, Hrest. exists (x' :: rest').
        split; [reflexivity | constructor; assumption]. }
    destruct E as (items' & -> & R).
    exists (JArr items'). split; [reflexivity | constructor; exact R].
  - assert (E : exists fields',
               (fix each (l : list (string * JSON))
                 : option (list (string * JSON)) :=
                  match l with
                  | [] => Some []
                  | (k, x) :: rest =>
                      match redact tok x with
                      | Some x' => option_map (cons (k, x')) (each rest)
                      | None => None
                      end
                  end) fields = Some fields' /\
               Forall2 (fun f g => fst f = fst g /\
                                   Rewritten (Replaced tok shown) (snd f) (snd g))
                       fields fields').
    { induction IH as [|[k x] rest (x' & Hx & Rx) _ (rest' & Hrest & Rrest)].
      - exists []. split; [reflexivity | constructor].
      - simpl in Hx, Rx. rewrite Hx, Hrest. exists ((k, x') :: rest').
        split; [reflexivity|]. constructor; [split; [reflexivity | exact Rx]|].
        exact Rrest. }
    destruct E as (fields' & -> & R).
    exists (JObj fields'). split; [reflexivity | constructor; exact R].
Qed.

Lemma send_rest_appends (force : bool) (message : Payload) (m : Machine) :
  exists more,
    effects (checkOffline force message BeforeBucket
                          (send_charged force message) m)
    = (effects m ++ more)%list.
Proof.
  unfold checkOffline at 1.
  destruct (negb (isOpen (shard m))).
  - exists []. simpl. rewrite app_nil_r. reflexivity.
  - unfold send_charged, andThen, checkOffline.
    destruct (negb (isOpen (shard (on_shard _ m)))).
    + exists []. simpl. rewrite app_nil_r. reflexivity.
    + unfold websocket_send.
      destruct (websocket (shard (on_shard _ m))).
      * eexists. reflexivity.
      * exists []. simpl. rewrite app_nil_r. reflexivity.
Qed.

Lemma send_logs_first (force : bool) (message : Payload) (m : Machine)
      (l : Logger) (shown : JSON) :
  logger (shard m) = Some l ->
  redact (opt_token (options (shard m))) (d message) = Some shown ->
  exists rest,
    effects_since m (send force message m)
    = Log Inform (Sending (op message) shown) :: rest.
Proof.
  intros Hl Hred. unfold send. rewrite Hl, Hred. unfold andThen.
  destruct (send_rest_appends force message
              (emit (Log Inform (Sending (op message) shown)) m))
    as (more & Hmore).
  exists more. apply effects_since_app. rewrite Hmore. simpl.
  rewrite <- app_assoc. reflexivity.
Qed.

(** The value of the [token] field of the frames [identify] and [resume]
    build. *)
Lemma replacer_Bot (tok shown : string) :
  dotless tok = false ->
  mask tok = Some shown ->
  replacer tok ("Bot " ++ tok) = Some ("Bot " ++ shown).
Proof.
  intros Hdot Hmask.
  destruct tok as [|c0 t0]; [discriminate|].
  unfold replacer, Str.replaceAll.
  assert (P : forall c, c <> EmptyString -> dotless c = true ->
                        prefix (String c0 t0) (c ++ String c0 t0) = false)
    by (intros c; apply no_prefix_after; exact Hdot).
  change ("Bot " ++ String c0 t0)
    with (String "B" (String "o" (String "t" (String " " (String c0 t0))))).
  rewrite replaceAll_from_pass by (apply (P "Bot "); [discriminate | reflexivity]).
  rewrite replaceAll_from_pass by (apply (P "ot "); [discriminate | reflexivity]).
  rewrite replaceAll_from_pass by (apply (P "t "); [discriminate | reflexivity]).
  rewrite replaceAll_from_pass by (apply (P " "); [discriminate | reflexivity]).
  rewrite <- (append_nil_r (String c0 t0)) at 2.
  rewrite (replaceAll_from_match c0 t0 mask shown Hmask).
  rewrite replaceAll_from_end. simpl. rewrite append_nil_r. reflexivity.
Qed.

Lemma dotted (a b : string) : dotless (a ++ "." ++ b) = false.
Proof.
  rewrite dotless_append. simpl. apply andb_false_r.
Qed.

(** C8, as stated, fails in its second half: two tokens with the same first
    segment and segments of the same lengths do not give the same log line
    for the same message, because which text is masked depends on the
    token. *)
Lemma C8_same_message_counterexample :
  let message := mkPayload 3 (JObj [("note", JStr "a.b.c")]) in
  let m1 := boot example_runtime (Shard_new "linux" 0 (example_options "a.b.c" true)) 0 in
  let m2 := boot example_runtime (Shard_new "linux" 0 (example_options "a.x.y" true)) 0 in
  effects (send false message m1)
  = [Log Inform (Sending 3 (JObj [("note", JStr "a.*.*")]))] /\
  effects (send false message m2)
  = [Log Inform (Sending 3 (JObj [("note", JStr "a.b.c")]))] /\
  effects (send false message m1) <> effects (send false message m2).
Proof.
  repeat split. discriminate.
Qed.

(** C8, amended. For a token [s0.s1.s2] of three segments, the line [send]
    logs shows the payload with every occurrence of the token inside a
    string value (taken from the left, not overlapping the one before)
    replaced by [s0], a dot, as many mask characters as [s1] is long, a dot,
    and as many mask characters as [s2] is long; keys and other values are
    shown as they are.  Two tokens with the same first segment and segments
    of the same lengths are replaced by the same text, so the value
    [Bot <token>] of the frames [identify] and [resume] is shown the same
    for both. *)
Theorem C8_token_masked (s0 s1 s2 : string) :
  dotless s0 = true -> dotless s1 = true -> dotless s2 = true ->
  let tok := s0 ++ "." ++ s1 ++ "." ++ s2 in
  let shown := s0 ++ "." ++ Str.stars (String.length s1) ++ "."
                  ++ Str.stars (String.length s2) in
  mask tok = Some shown /\
  (forall value : string,
      exists out, replacer tok value = Some out /\
                  Replaced tok shown value out) /\
  (forall (m : Machine) (l : Logger) (force : bool) (message : Payload),
      logger (shard m) = Some l ->
      opt_token (options (shard m)) = tok ->
      exists logged rest,
        Rewritten (Replaced tok shown) (d message) logged /\
        effects_since m (send force message m)
        = Log Inform (Sending (op message) logged) :: rest) /\
  replacer tok ("Bot " ++ tok) = Some ("Bot " ++ shown) /\
  (forall t1 t2 : string,
      dotless t1 = true -> dotless t2 = true ->
      String.length t1 = String.length s1 ->
      String.length t2 = String.length s2 ->
      let tok' := s0 ++ "." ++ t1 ++ "." ++ t2 in
      mask tok' = mask tok /\
      replacer tok' ("Bot " ++ tok') = replacer tok ("Bot " ++ tok)).
Proof.
  intros H0 H1 H2 tok shown.
  assert (Hmask : mask tok = Some shown) by (apply mask_three; assumption).
  assert (Htok : tok <> EmptyString).
  { subst tok. destruct s0; discriminate. }
  assert (Hbot : replacer tok ("Bot " ++ tok) = Some ("Bot " ++ shown)).
  { apply replacer_Bot; [apply dotted | exact Hmask]. }
  split; [exact Hmask|].
  split; [intros value; apply replacer_Replaced; assumption|].
  split.
  { intros m l force message Hl Ht.
    destruct (redact_Rewritten tok shown Htok Hmask (d message))
      as (logged & Hred & Hrw).
    rewrite <- Ht in Hred.
    destruct (send_logs_first force message m l logged Hl Hred) as (rest & E).
    exists logged, rest. split; assumption. }
  split; [exact Hbot|].
  intros t1 t2 Ht1 Ht2 L1 L2 tok'.
  assert (Hmask' : mask tok' = Some shown).
  { subst tok' shown. rewrite <- L1, <- L2. apply mask_three; assumption. }
  split; [congruence|].
  rewrite Hbot. apply replacer_Bot; [apply dotted | exact Hmask'].
Qed.

Lemma C8_token_masked_witness :
  mask "abc.def.ghi" = Some "abc.***.***" /\
  replacer "abc.def.ghi" "Bot abc.def.ghi" = Some "Bot abc.***.***".
Proof.
  pose proof (C8_token_masked "abc" "def" "ghi" eq_refl eq_refl eq_refl) as H.
  simpl in H. destruct H as (Hm & _ & _ & Hb & _).
  split; [exact Hm | exact Hb].
Defined.

(** Running a handler on a machine given by its fields, leaving folded what
    depends on the token, on the code and on the timers. *)
Ltac eval_machine_once :=
  cbv beta iota zeta delta
      -[app skipn List.length Z.eqb Z.add Z.sub Z.max filter Nat.eqb
        closes_of frames_of waits_of sockets_of forwards_of effects_since In
        redact String.append oneOf existsb].

Ltac eval_machine :=
  eval_machine_once;
  unfold effects_since; cbn [effects];
  rewrite <- ?app_assoc;
  rewrite ?skipn_app_app, ?skipn_length_app, ?skipn_length_self;
  cbn [closes_of frames_of waits_of sockets_of forwards_of flat_map filter
       app skipn List.length].

(** ** [calculateSafeRequests] on every input *)



(** ** Close codes *)

Ltac split_machine m :=
  let sh := fresh "sh" in
  let ht := fresh "ht" in
  destruct m as [sh ?tm ?nt ?ck ?np ?st ?gt ?ef ?rt];
  destruct sh as [?i ?o ?lg ?dt ht ?ws ?bk ?q];
  destruct ht as [?iv ?ni ?la ?lb ?ak].

Lemma oneOf_In (code : Z) (cases : list Z) :
  oneOf code cases = true -> In code cases.
Proof.
  unfold oneOf. intros H. apply existsb_exists in H.
  destruct H as (x & Hin & E). apply Z.eqb_eq in E. subst. exact Hin.
Qed.

(** X2. The close handler reconnects exactly once on every close code
    other than the shutdown code 3000 and the six fatal codes, the codes it
    does not know included; it leaves the session as it is unless the code
    is one of the four of the resumable-loss class.  On 3000 it neither
    reconnects nor touches the shard. *)
Theorem X2_close_code_policy (m : Machine) (code : Z) (reason : string) :
  let m' := handleClosed code reason m in
  (~ In code [3000; 4004; 4010; 4011; 4012; 4013; 4014] ->
   waits_of (effects_since m m') = 1%nat /\
   gate m' = S (gate m) /\
   sockets_of (effects_since m m') = [] /\
   (~ In code [1000; 4001; 4007; 4009] -> data (shard m') = data (shard m))) /\
  (code = 3000 ->
   waits_of (effects_since m m') = 0%nat /\
   gate m' = gate m /\
   shard m' = shard m).
Proof.
  split_machine m. intros m'. subst m'. split.
  - intros Hcode.
    destruct (Z.eqb_spec code 3000) as [E | N]; [exfalso; apply Hcode; left; auto|].
    destruct (oneOf code fatal_codes) eqn:F.
    { exfalso. apply oneOf_In in F. apply Hcode. right.
      unfold fatal_codes in F. simpl in F. simpl. intuition auto. }
    destruct (oneOf code resumable_loss_codes) eqn:R;
      [|destruct (oneOf code transient_codes) eqn:T];
      unfold handleClosed, andThen, skip;
      change (code =? ShardSocketCloseCodes.Shutdown) with (code =? 3000);
      rewrite (proj2 (Z.eqb_neq code 3000)) by assumption;
      rewrite ?R, ?T, ?F;
      destruct lg as [l|], ws as [[u rs]|], ni as [t|];
      eval_machine; try (destruct (rs =? 1); eval_machine);
      repeat split; try reflexivity;
      try (intros Hn; exfalso; apply Hn; apply oneOf_In in R; exact R).
  - intros ->. unfold handleClosed, andThen, skip.
    change (3000 =? ShardSocketCloseCodes.Shutdown) with true.
    destruct lg as [l|], ni as [t|]; eval_machine; repeat split.
Qed.

Lemma X2_close_code_policy_witness :
  waits_of (effects_since open_machine (handleClosed 4242 "?" open_machine))
  = 1%nat.
Proof.
  refine (proj1 (proj1 (X2_close_code_policy open_machine 4242 "?") _)).
  simpl. intuition discriminate.
Defined.

(** ** What a handler may do *)

Section Alphabet.
Variable P : Effect -> Prop.

Lemma orderly_refl (m : Machine) : orderly P m m.
Proof.
  repeat split.
  - exists [], []. rewrite app_nil_r. reflexivity.
  - exists []. rewrite app_nil_r. split; [reflexivity | constructor].
Qed.

Lemma orderly_trans (a b c : Machine) :
  orderly P a b -> orderly P b c -> orderly P a c.
Proof.
  intros (H1 & H2 & H3 & (f1 & b1 & H4) & (n1 & H5 & H6))
         (K1 & K2 & K3 & (f2 & b2 & K4) & (n2 & K5 & K6)).
  repeat split; try congruence.
  - exists (f2 ++ f1)%list, (b1 ++ b2)%list.
    rewrite K4, H4, <- !app_assoc. reflexivity.
  - exists (n1 ++ n2)%list. rewrite K5, H5, <- app_assoc.
    split; [reflexivity | apply Forall_app; split; assumption].
Qed.

Lemma orderly_silent (m m' : Machine) :
  id (shard m') = id (shard m) ->
  options (shard m') = options (shard m) ->
  logger (shard m') = logger (shard m) ->
  offlineSendQueue (shard m') = offlineSendQueue (shard m) ->
  effects m' = effects m ->
  orderly P m m'.
Proof.
  intros H1 H2 H3 H4 H5. repeat split; try assumption.
  - exists [], []. rewrite app_nil_r. exact H4.
  - exists []. rewrite app_nil_r. split; [exact H5 | constructor].
Qed.

Lemma orderly_emit (e : Effect) (m : Machine) :
  P e -> orderly P m (emit e m).
Proof.
  intros He. repeat split.
  - exists [], []. rewrite app_nil_r. reflexivity.
  - exists [e]. split; [reflexivity | repeat constructor; exact He].
Qed.

Lemma orderly_on_shard (f : Shard -> Shard) (m : Machine) :
  (forall sh, id (f sh) = id sh /\ options (f sh) = options sh /\
              logger (f sh) = logger sh /\
              offlineSendQueue (f sh) = offlineSendQueue sh) ->
  orderly P m (on_shard f m).
Proof.
  intros Hf. destruct (Hf (shard m)) as (H1 & H2 & H3 & H4).
  apply orderly_silent; simpl; auto.
Qed.

Lemma orderly_set_data (f : ShardData -> ShardData) (m : Machine) :
  orderly P m (on_shard (set_data f) m).
Proof. apply orderly_on_shard. intros sh. repeat split. Qed.

Lemma orderly_set_heart (f : ShardHeart -> ShardHeart) (m : Machine) :
  orderly P m (on_shard (set_heart f) m).
Proof. apply orderly_on_shard. intros sh. repeat split. Qed.

Lemma orderly_set_websocket (w : option WebSocket) (m : Machine) :
  orderly P m (on_shard (set_websocket w) m).
Proof. apply orderly_on_shard. intros sh. repeat split. Qed.

Lemma orderly_charge (force : bool) (m : Machine) :
  orderly P m (on_shard (fun sh => set_bucket (Bucket_process force (bucket sh)) sh) m).
Proof. apply orderly_on_shard. intros sh. repeat split. Qed.

Lemma orderly_clearInterval (h : option Timer) (m : Machine) :
  orderly P m (clearInterval h m).
Proof. destruct h; apply orderly_silent; reflexivity. Qed.

Lemma orderly_setInterval (ms : Z) (m : Machine) :
  orderly P m (setInterval_nodeInterval ms m).
Proof. apply orderly_silent; reflexivity. Qed.

Lemma orderly_settle (rs : list Resolver) (m : Machine) :
  orderly P m (settle rs m).
Proof. apply orderly_silent; reflexivity. Qed.

Lemma orderly_leave_gate (m : Machine) : orderly P m (leave_gate m).
Proof. apply orderly_silent; reflexivity. Qed.

Lemma orderly_advance (dt : Z) (m : Machine) : orderly P m (advance dt m).
Proof. apply orderly_silent; reflexivity. Qed.

Lemma orderly_set_readyState (n : Z) (m : Machine) :
  orderly P m (set_readyState n m).
Proof.
  unfold set_readyState. apply orderly_on_shard. intros sh.
  destruct (websocket sh); repeat split.
Qed.

Lemma orderly_park (force : bool) (message : Payload) (stage : Stage)
      (m : Machine) :
  orderly P m (park force message stage m).
Proof.
  repeat split.
  - destruct force; simpl.
    + exists [mkResolver (nextPromise m) true message stage], [].
      rewrite app_nil_r. reflexivity.
    + exists [], [mkResolver (nextPromise m) false message stage].
      reflexivity.
  - exists []. simpl. rewrite app_nil_r. split; [reflexivity | constructor].
Qed.

Hypothesis P_log : forall level line, P (Log level line).

Lemma orderly_log (level : Level) (line : LogLine) (m : Machine) :
  orderly P m (log level line m).
Proof.
  unfold log. destruct (logger (shard m)).
  - apply orderly_emit. apply P_log.
  - apply orderly_refl.
Qed.

Lemma orderly_websocket_send (frame : Payload) (m : Machine) :
  P (WsSend frame) -> orderly P m (websocket_send frame m).
Proof.
  intros H. unfold websocket_send. destruct (websocket (shard m)).
  - apply orderly_emit. exact H.
  - apply orderly_refl.
Qed.

Lemma orderly_websocket_close (code : Z) (reason : string) (m : Machine) :
  P (WsClose code reason) -> orderly P m (websocket_close code reason m).
Proof.
  intros H. unfold websocket_close. destruct (websocket (shard m)).
  - eapply orderly_trans; [apply orderly_set_websocket|].
    apply orderly_emit. exact H.
  - apply orderly_refl.
Qed.

Lemma orderly_connect (m : Machine) : P ConnectWait -> orderly P m (connect m).
Proof.
  intros H. repeat split.
  - exists [], []. rewrite app_nil_r. reflexivity.
  - exists [ConnectWait]. split; [reflexivity | repeat constructor; exact H].
Qed.

End Alphabet.

Create HintDb orderly.
#[local] Hint Resolve orderly_emit orderly_set_data orderly_set_heart
  orderly_set_websocket orderly_charge orderly_clearInterval
  orderly_setInterval orderly_settle orderly_leave_gate orderly_advance
  orderly_set_readyState orderly_park orderly_log orderly_websocket_send
  orderly_websocket_close orderly_connect : orderly.

Ltac orderly_chain :=
  cbv beta zeta;
  repeat first
    [ apply orderly_refl
    | eapply orderly_trans; [ | solve [auto with orderly] ] ].

Lemma orderly_send_charged (P : Effect -> Prop) (force : bool)
      (message : Payload) (m : Machine) :
  P (WsSend message) -> orderly P m (send_charged force message m).
Proof.
  intros Hw. unfold send_charged, andThen, checkOffline.
  destruct (negb _); orderly_chain.
Qed.

Lemma orderly_send (P : Effect -> Prop) (force : bool) (message : Payload)
      (m : Machine) :
  (forall level line, P (Log level line)) ->
  P TypeError ->
  P (WsSend message) ->
  orderly P m (send force message m).
Proof.
  intros Hl He Hw. unfold send, andThen, checkOffline.
  destruct (logger (shard m)).
  - destruct (redact _ _); [|orderly_chain].
    destruct (negb _); [orderly_chain|].
    eapply orderly_trans; [|apply orderly_send_charged; exact Hw].
    orderly_chain.
  - destruct (negb _); [orderly_chain | apply orderly_send_charged; exact Hw].
Qed.

Section Handlers.
Variable P : Effect -> Prop.
Hypothesis P_log : forall level line, P (Log level line).
Hypothesis P_error : P TypeError.
Hypothesis P_syntax : P SyntaxError.
Hypothesis P_write : forall frame, P (WsSend frame).
Hypothesis P_close : forall code reason, P (WsClose code reason).
Hypothesis P_wait : P ConnectWait.
Hypothesis P_socket : forall u, P (NewWebSocket u).
Hypothesis P_forward : forall i packet, P (HandlePayload i packet).

Lemma orderly_identify (m : Machine) : orderly P m (identify m).
Proof. unfold identify. apply orderly_send; auto. Qed.

Lemma orderly_resume (m : Machine) : orderly P m (resume m).
Proof. unfold resume. apply orderly_send; auto. Qed.

Lemma orderly_resolved (resolve : Resolver) (m : Machine) :
  orderly P m (resolved resolve m).
Proof.
  unfold resolved. destruct (parked_stage resolve).
  - apply orderly_send_charged. apply P_write.
  - apply orderly_websocket_send. apply P_write.
Qed.

Lemma orderly_run_resolved (rs : list Resolver) :
  forall m : Machine, orderly P m (run_resolved rs m).
Proof.
  unfold run_resolved. induction rs as [|r rest IH]; intros m; simpl.
  - apply orderly_refl.
  - eapply orderly_trans; [apply orderly_resolved | apply IH].
Qed.

Lemma orderly_flush (packet : Packet) (m : Machine) :
  orderly P m (flush_offlineSendQueue (handlePayload packet) m).
Proof.
  unfold flush_offlineSendQueue, andThen, handlePayload.
  eapply orderly_trans; [|apply orderly_run_resolved]. orderly_chain.
Qed.

Lemma orderly_close (code : Z) (reason : string) (m : Machine) :
  orderly P m (close code reason m).
Proof.
  unfold close, andThen. cbv zeta. destruct (negb _); orderly_chain.
Qed.

Lemma orderly_heartbeat (requested : bool) (m : Machine) :
  orderly P m (heartbeat requested m).
Proof.
  unfold heartbeat, andThen. cbv zeta.
  destruct (negb requested).
  - destruct (negb _).
    + eapply orderly_trans; [|apply orderly_close]. orderly_chain.
    + orderly_chain.
  - orderly_chain.
Qed.

Lemma orderly_disconnect (m : Machine) : orderly P m (disconnect m).
Proof.
  unfold disconnect, andThen.
  eapply orderly_trans; [|apply orderly_close]. orderly_chain.
Qed.

Lemma orderly_reconnect (m : Machine) : orderly P m (reconnect m).
Proof.
  unfold reconnect, andThen.
  eapply orderly_trans; [|apply orderly_connect; exact P_wait].
  eapply orderly_trans; [|apply orderly_disconnect]. orderly_chain.
Qed.

Lemma orderly_WebSocket_new (u : GatewayURL) (m : Machine) :
  orderly P m (WebSocket_new u m).
Proof.
  unfold WebSocket_new, andThen.
  destruct (WebSocket_accepts _ _); orderly_chain.
Qed.

Lemma orderly_connect_resumed (m : Machine) : orderly P m (connect_resumed m).
Proof.
  unfold connect_resumed, andThen.
  destruct (isOpen (shard m)); [orderly_chain|]. cbv beta.
  destruct (currentGatewayURL _ _) as [u|]; [|orderly_chain].
  eapply orderly_trans; [|apply orderly_WebSocket_new]. orderly_chain.
Qed.

Lemma orderly_handleClosed (code : Z) (reason : string) (m : Machine) :
  orderly P m (handleClosed code reason m).
Proof.
  unfold handleClosed, andThen, skip.
  destruct (code =? _); [orderly_chain|].
  destruct (oneOf code resumable_loss_codes).
  { eapply orderly_trans; [|apply orderly_reconnect]. orderly_chain. }
  destruct (oneOf code transient_codes).
  { eapply orderly_trans; [|apply orderly_reconnect]. orderly_chain. }
  destruct (oneOf code fatal_codes); [orderly_chain|].
  eapply orderly_trans; [|apply orderly_reconnect]. orderly_chain.
Qed.

Lemma orderly_prelude (sq : option Z) (line : LogLine) (m : Machine) :
  orderly P m
    (log Debug line
         match sq with
         | Some n => on_shard (set_data (with_resume_seq (Seq n))) m
         | None => m
         end).
Proof. destruct sq; orderly_chain. Qed.

Lemma orderly_onpacket_control (packet : Packet) (m : Machine) :
  (forall ev, packet_body packet <> Dispatch ev) ->
  orderly P m (onpacket packet m).
Proof.
  intros Hbody. destruct packet as [sq bd].
  destruct bd as [ms | | | | hint | ev | o];
    try (exfalso; apply (Hbody ev); reflexivity);
    unfold onpacket, andThen, skip; cbn [packet_body packet_s];
    (eapply orderly_trans; [apply orderly_prelude|]).
  - match goal with
    | |- orderly _ _ (if ?c then _ else _) => destruct c
    end;
      (eapply orderly_trans; [|first [apply orderly_resume | apply orderly_identify]]);
      (eapply orderly_trans; [|apply orderly_setInterval]);
      (eapply orderly_trans; [|apply orderly_heartbeat]);
      orderly_chain.
  - orderly_chain.
  - apply orderly_heartbeat.
  - apply orderly_reconnect.
  - destruct hint.
    + destruct (negb _); [orderly_chain | apply orderly_resume].
    + eapply orderly_trans; [|apply orderly_identify]. orderly_chain.
  - apply orderly_refl.
Qed.

Lemma orderly_onpacket (packet : Packet) (m : Machine) :
  orderly P m (onpacket packet m).
Proof.
  destruct (packet_body packet) as [ms | | | | hint | ev | o] eqn:E;
    try (apply orderly_onpacket_control; rewrite E; discriminate).
  destruct packet as [sq bd]. simpl in E. subst bd.
  unfold onpacket, andThen; cbn [packet_body packet_s].
  eapply orderly_trans; [apply orderly_prelude|].
  destruct ev.
  - apply orderly_flush.
  - eapply orderly_trans; [|apply orderly_flush]. orderly_chain.
  - unfold handlePayload. orderly_chain.
Qed.

Lemma orderly_step (e : Event) (m : Machine) : orderly P m (step e m).
Proof.
  destruct e; simpl.
  - apply orderly_connect; exact P_wait.
  - apply orderly_send; auto.
  - apply orderly_identify.
  - apply orderly_resume.
  - apply orderly_heartbeat.
  - apply orderly_disconnect.
  - apply orderly_reconnect.
  - apply orderly_onpacket.
  - apply orderly_close.
  - destruct (gate m); [apply orderly_refl|]. unfold andThen.
    eapply orderly_trans; [|apply orderly_connect_resumed]. orderly_chain.
  - destruct (websocket (shard m)) as [ws|]; [|apply orderly_refl].
    destruct (readyState ws =? 0); [|apply orderly_refl].
    unfold andThen, onopen. orderly_chain.
  - destruct (isOpen (shard m)); [|apply orderly_refl].
    destruct parsed as [packet|]; simpl; [apply orderly_onpacket|].
    orderly_chain.
  - destruct (websocket (shard m)); [|apply orderly_refl]. unfold andThen.
    eapply orderly_trans; [|apply orderly_handleClosed]. orderly_chain.
  - unfold onerror. orderly_chain.
  - apply orderly_handleClosed.
  - destruct (existsb _ _); [apply orderly_heartbeat | apply orderly_refl].
  - apply orderly_advance.
Qed.

End Handlers.

(** ** What leaves the session alone *)

Lemma same_session_refl (m : Machine) : same_session m m.
Proof. reflexivity. Qed.

Lemma same_session_trans (a b c : Machine) :
  same_session a b -> same_session b c -> same_session a c.
Proof. unfold same_session. congruence. Qed.

Lemma same_session_emit (e : Effect) (m : Machine) : same_session m (emit e m).
Proof. reflexivity. Qed.

Lemma same_session_log (level : Level) (line : LogLine) (m : Machine) :
  same_session m (log level line m).
Proof. unfold log. destruct (logger (shard m)); reflexivity. Qed.

Lemma same_session_set_heart (f : ShardHeart -> ShardHeart) (m : Machine) :
  same_session m (on_shard (set_heart f) m).
Proof. reflexivity. Qed.

Lemma same_session_set_websocket (w : option WebSocket) (m : Machine) :
  same_session m (on_shard (set_websocket w) m).
Proof. reflexivity. Qed.

Lemma same_session_charge (force : bool) (m : Machine) :
  same_session m
    (on_shard (fun sh => set_bucket (Bucket_process force (bucket sh)) sh) m).
Proof. reflexivity. Qed.

Lemma same_session_clearInterval (h : option Timer) (m : Machine) :
  same_session m (clearInterval h m).
Proof. destruct h; reflexivity. Qed.

Lemma same_session_setInterval (ms : Z) (m : Machine) :
  same_session m (setInterval_nodeInterval ms m).
Proof. reflexivity. Qed.

Lemma same_session_settle (rs : list Resolver) (m : Machine) :
  same_session m (settle rs m).
Proof. reflexivity. Qed.

Lemma same_session_park (force : bool) (message : Payload) (stage : Stage)
      (m : Machine) :
  same_session m (park force message stage m).
Proof. reflexivity. Qed.

Lemma same_session_websocket_send (frame : Payload) (m : Machine) :
  same_session m (websocket_send frame m).
Proof. unfold websocket_send. destruct (websocket (shard m)); reflexivity. Qed.

Lemma same_session_websocket_close (code : Z) (reason : string) (m : Machine) :
  same_session m (websocket_close code reason m).
Proof. unfold websocket_close. destruct (websocket (shard m)); reflexivity. Qed.

Lemma same_session_connect (m : Machine) : same_session m (connect m).
Proof. reflexivity. Qed.

Lemma same_session_handlePayload (packet : Packet) (m : Machine) :
  same_session m (handlePayload packet m).
Proof. reflexivity. Qed.

Create HintDb session.
#[local] Hint Resolve same_session_emit same_session_log
  same_session_set_heart same_session_set_websocket same_session_charge
  same_session_clearInterval same_session_setInterval same_session_settle
  same_session_park same_session_websocket_send same_session_websocket_close
  same_session_connect same_session_handlePayload : session.

Ltac session_chain :=
  cbv beta zeta;
  repeat first
    [ apply same_session_refl
    | eapply same_session_trans; [ | solve [auto with session] ] ].

Lemma same_session_send_charged (force : bool) (message : Payload) (m : Machine) :
  same_session m (send_charged force message m).
Proof.
  unfold send_charged, andThen, checkOffline. destruct (negb _); session_chain.
Qed.

Lemma same_session_send (force : bool) (message : Payload) (m : Machine) :
  same_session m (send force message m).
Proof.
  unfold send, andThen, checkOffline.
  destruct (logger (shard m)).
  - destruct (redact _ _); [|session_chain].
    destruct (negb _); [session_chain|].
    eapply same_session_trans; [|apply same_session_send_charged].
    session_chain.
  - destruct (negb _); [session_chain | apply same_session_send_charged].
Qed.

Lemma same_session_resolved (resolve : Resolver) (m : Machine) :
  same_session m (resolved resolve m).
Proof.
  unfold resolved. destruct (parked_stage resolve).
  - apply same_session_send_charged.
  - apply same_session_websocket_send.
Qed.

Lemma same_session_run_resolved (rs : list Resolver) :
  forall m : Machine, same_session m (run_resolved rs m).
Proof.
  unfold run_resolved. induction rs as [|r rest IH]; intros m; simpl.
  - apply same_session_refl.
  - eapply same_session_trans; [apply same_session_resolved | apply IH].
Qed.

Lemma same_session_flush (packet : Packet) (m : Machine) :
  same_session m (flush_offlineSendQueue (handlePayload packet) m).
Proof.
  unfold flush_offlineSendQueue, andThen.
  eapply same_session_trans; [|apply same_session_run_resolved]. session_chain.
Qed.

Lemma same_session_close (code : Z) (reason : string) (m : Machine) :
  same_session m (close code reason m).
Proof.
  unfold close, andThen. cbv zeta. destruct (negb _); session_chain.
Qed.

Lemma same_session_heartbeat (requested : bool) (m : Machine) :
  same_session m (heartbeat requested m).
Proof.
  unfold heartbeat, andThen. cbv zeta.
  destruct (negb requested).
  - destruct (negb _).
    + eapply same_session_trans; [|apply same_session_close]. session_chain.
    + session_chain.
  - session_chain.
Qed.

Lemma same_session_reconnect (m : Machine) : same_session m (reconnect m).
Proof.
  unfold reconnect, disconnect, andThen.
  eapply same_session_trans; [|apply same_session_connect].
  eapply same_session_trans; [|apply same_session_close]. session_chain.
Qed.

#[local] Hint Resolve same_session_send_charged same_session_send
  same_session_resolved same_session_run_resolved same_session_flush
  same_session_close same_session_heartbeat same_session_reconnect : session.

(** ** The sequence number *)

(** X3. [onpacket] records the sequence number of every packet that
    carries one and keeps the stored one when the packet carries none,
    whatever the opcode; the one exception is [InvalidSession] with [d]
    false, after which the stored sequence is 0. *)
Theorem X3_sequence_tracking (packet : Packet) (m : Machine) :
  resume_seq (data (shard (onpacket packet m)))
  = match packet_body packet with
    | InvalidSession false => Seq 0
    | _ => match packet_s packet with
           | Some n => Seq n
           | None => resume_seq (data (shard m))
           end
    end.
Proof.
  destruct packet as [sq bd].
  unfold onpacket, andThen, skip. cbn [packet_body packet_s].
  set (m1 := log Debug _ _).
  assert (E1 : resume_seq (data (shard m1))
               = match sq with
                 | Some n => Seq n
                 | None => resume_seq (data (shard m))
                 end).
  { subst m1. rewrite same_session_log. destruct sq; reflexivity. }
  assert (K : forall m', same_session m1 m' ->
                         resume_seq (data (shard m'))
                         = match sq with
                           | Some n => Seq n
                           | None => resume_seq (data (shard m))
                           end).
  { intros m' H. rewrite H. exact E1. }
  destruct bd as [ms | | | | hint | ev | o].
  - apply K.
    match goal with
    | |- same_session _ (if ?c then _ else _) => destruct c
    end;
      (eapply same_session_trans; [|unfold resume, identify; apply same_session_send]);
      session_chain.
  - apply K. session_chain.
  - apply K. apply same_session_heartbeat.
  - apply K. apply same_session_reconnect.
  - destruct hint.
    + apply K. destruct (negb _); [session_chain|].
      unfold resume. apply same_session_send.
    + unfold identify. rewrite same_session_send. reflexivity.
  - destruct ev.
    + apply K. apply same_session_flush.
    + rewrite same_session_flush. simpl. exact E1.
    + apply K. session_chain.
  - exact E1.
Qed.

(** ** Forwarding *)

Lemma forwards_of_app (a b : list Effect) :
  forwards_of (a ++ b) = (forwards_of a ++ forwards_of b)%list.
Proof. unfold forwards_of. apply flat_map_app. Qed.

Lemma forwards_of_none (es : list Effect) :
  Forall (fun e => forall i p, e <> HandlePayload i p) es ->
  forwards_of es = [].
Proof.
  induction 1 as [|e es He _ IH]; [reflexivity|].
  simpl. rewrite IH. destruct e; try reflexivity.
  exfalso. apply (He shardId packet). reflexivity.
Qed.

Lemma orderly_effects (P : Effect -> Prop) (a b : Machine) :
  orderly P a b ->
  exists new, effects b = (effects a ++ new)%list /\ Forall P new.
Proof. intros (_ & _ & _ & _ & H). exact H. Qed.

(** X4. [onpacket] hands a packet to [handlePayload] exactly once, with the
    id of the shard, when the packet is a dispatch, whatever its event, and
    never otherwise. *)
Theorem X4_dispatch_forwarded_once (packet : Packet) (m : Machine) :
  forwards_of (effects_since m (onpacket packet m))
  = match packet_body packet with
    | Dispatch _ => [(id (shard m), packet)]
    | _ => []
    end.
Proof.
  set (P := fun e : Effect => forall i p, e <> HandlePayload i p).
  assert (Plog : forall level line, P (Log level line))
    by (intros level line i p; discriminate).
  assert (Perr : P TypeError) by (intros i p; discriminate).
  assert (Pwrite : forall frame, P (WsSend frame))
    by (intros frame i p; discriminate).
  assert (Pclose : forall code reason, P (WsClose code reason))
    by (intros code reason i p; discriminate).
  assert (Pwait : P ConnectWait) by (intros i p; discriminate).
  destruct (packet_body packet) as [ms | | | | hint | ev | o] eqn:E;
    try (destruct (orderly_effects P m (onpacket packet m)) as (new & Hnew & Hall);
         [apply orderly_onpacket_control; auto; rewrite E; discriminate|];
         rewrite (effects_since_app _ _ _ Hnew);
         apply forwards_of_none; exact Hall).
  destruct packet as [sq bd]. simpl in E. subst bd.
  unfold onpacket, andThen; cbn [packet_body packet_s].
  set (m1 := log Debug _ _).
  assert (O1 : orderly P m m1) by (apply orderly_prelude; exact Plog).
  assert (K : forall m2, orderly P m m2 ->
                forall m3, orderly P (handlePayload
                                        {| packet_s := sq; packet_body := Dispatch ev |}
                                        m2) m3 ->
                forwards_of (effects_since m m3)
                = [(id (shard m), {| packet_s := sq; packet_body := Dispatch ev |})]).
  { intros m2 (Hid & _ & _ & _ & (n1 & H1 & A1)) m3 (_ & _ & _ & _ & (n2 & H2 & A2)).
    simpl in H2. rewrite H1, <- !app_assoc in H2.
    rewrite (effects_since_app _ _ _ H2).
    rewrite !forwards_of_app, (forwards_of_none _ A1), (forwards_of_none _ A2).
    simpl. rewrite Hid. reflexivity. }
  destruct ev as [ | u sid | t body].
  - unfold flush_offlineSendQueue, andThen.
    apply (K (settle (pending m1) m1)).
    + eapply orderly_trans; [exact O1 | apply orderly_settle].
    + apply orderly_run_resolved. exact Pwrite.
  - unfold flush_offlineSendQueue, andThen.
    set (m2 := on_shard (set_data (with_session_id (Some sid))) _).
    apply (K (settle (pending m2) m2)).
    + eapply orderly_trans; [exact O1|]. subst m2. orderly_chain.
    + apply orderly_run_resolved. exact Pwrite.
  - apply (K m1 O1). apply orderly_refl.
Qed.

(** ** The offline queue over time *)

Lemma orderly_run (P : Effect -> Prop) (es : list Event) :
  (forall e, P e) ->
  forall m : Machine, orderly P m (run es m).
Proof.
  intros HP. unfold run. induction es as [|e rest IH]; intros m; simpl.
  - apply orderly_refl.
  - eapply orderly_trans; [|apply IH]. apply orderly_step; auto.
Qed.

(** X5. No call and no event takes an entry out of [offlineSendQueue], not
    even the flush on [READY] and [RESUMED]: after any run the queue is the
    earlier queue with entries added in front and behind.  The id, the
    options and the logger of the shard never change. *)
Theorem X5_queue_never_shrinks (es : list Event) (m : Machine) :
  let m' := run es m in
  (exists front back : list Resolver,
      offlineSendQueue (shard m')
      = (front ++ offlineSendQueue (shard m) ++ back)%list) /\
  (List.length (offlineSendQueue (shard m))
   <= List.length (offlineSendQueue (shard m')))%nat /\
  id (shard m') = id (shard m) /\
  options (shard m') = options (shard m) /\
  logger (shard m') = logger (shard m).
Proof.
  intros m'.
  destruct (orderly_run (fun _ => True) es (fun _ => I) m)
    as (H1 & H2 & H3 & (front & back & H4) & _).
  fold m' in H1, H2, H3, H4.
  split; [exists front, back; exact H4|].
  split; [|repeat split; assumption].
  rewrite H4, !length_app. lia.
Qed.

Lemma resolved_open_state (resolve : Resolver) (m : Machine) :
  isOpen (shard m) = true ->
  websocket (shard (resolved resolve m)) = websocket (shard m) /\
  offlineSendQueue (shard (resolved resolve m)) = offlineSendQueue (shard m) /\
  settled (resolved resolve m) = settled m /\
  processed (bucket (shard (resolved resolve m)))
  = (processed (bucket (shard m))
     ++ match parked_stage resolve with
        | BeforeBucket => [parked_force resolve]
        | BeforeWrite => []
        end)%list.
Proof.
  intros Hopen. unfold resolved.
  destruct (parked_stage resolve).
  - rewrite send_charged_open by exact Hopen. simpl. repeat split.
  - rewrite app_nil_r. unfold websocket_send.
    destruct (websocket (shard m)) eqn:E; simpl; rewrite ?E; repeat split.
Qed.

Lemma run_resolved_open_state (rs : list Resolver) :
  forall m : Machine,
    isOpen (shard m) = true ->
    websocket (shard (run_resolved rs m)) = websocket (shard m) /\
    offlineSendQueue (shard (run_resolved rs m)) = offlineSendQueue (shard m) /\
    settled (run_resolved rs m) = settled m /\
    processed (bucket (shard (run_resolved rs m)))
    = (processed (bucket (shard m))
       ++ flat_map (fun r => match parked_stage r with
                             | BeforeBucket => [parked_force r]
                             | BeforeWrite => []
                             end) rs)%list.
Proof.
  unfold run_resolved. induction rs as [|r rest IH]; intros m Hopen; simpl.
  - rewrite app_nil_r. repeat split.
  - destruct (resolved_open_state r m Hopen) as (W & Q & S & B).
    assert (Hopen' : isOpen (shard (resolved r m)) = true)
      by (unfold isOpen in *; rewrite W; exact Hopen).
    destruct (IH _ Hopen') as (W' & Q' & S' & B').
    rewrite W', Q', S', B', W, Q, S, B, <- app_assoc. repeat split.
Qed.

Lemma existsb_eqb_In (n : nat) (l : list nat) :
  existsb (Nat.eqb n) l = true <-> In n l.
Proof.
  rewrite existsb_exists. split.
  - intros (x & Hin & E). apply Nat.eqb_eq in E. subst. exact Hin.
  - intros Hin. exists n. split; [exact Hin | apply Nat.eqb_refl].
Qed.

Lemma pending_after_settle (m : Machine) :
  filter (fun r => negb (existsb (Nat.eqb (promise r))
                                 (settled m ++ map promise (pending m))))
         (offlineSendQueue (shard m))
  = [].
Proof.
  assert (G : forall q : list Resolver,
             (forall r, In r q -> In r (offlineSendQueue (shard m))) ->
             filter (fun r => negb (existsb (Nat.eqb (promise r))
                                    (settled m ++ map promise (pending m)))) q
             = []).
  { induction q as [|r q IH]; intros Hq; [reflexivity|].
    simpl.
    assert (E : existsb (Nat.eqb (promise r))
                        (settled m ++ map promise (pending m)) = true).
    { rewrite existsb_app.
      destruct (existsb (Nat.eqb (promise r)) (settled m)) eqn:S; [reflexivity|].
      simpl. apply existsb_eqb_In. apply in_map. unfold pending.
      apply filter_In. split; [apply Hq; left; reflexivity|].
      rewrite S. reflexivity. }
    rewrite E. simpl. apply IH. intros r' Hr'. apply Hq. right. exact Hr'. }
  apply G. auto.
Qed.

Lemma flush_open_state (packet : Packet) (m : Machine) :
  isOpen (shard m) = true ->
  let m' := flush_offlineSendQueue (handlePayload packet) m in
  isOpen (shard m') = true /\
  offlineSendQueue (shard m') = offlineSendQueue (shard m) /\
  pending m' = [].
Proof.
  intros Hopen m'. subst m'. unfold flush_offlineSendQueue, andThen.
  set (m0 := handlePayload packet (settle (pending m) m)).
  assert (Hopen0 : isOpen (shard m0) = true) by exact Hopen.
  destruct (run_resolved_open_state (pending m) m0 Hopen0) as (W & Q & S & _).
  split; [|split].
  - unfold isOpen. rewrite W. exact Hopen.
  - rewrite Q. reflexivity.
  - unfold pending at 1. rewrite Q, S. subst m0. simpl.
    apply pending_after_settle.
Qed.

(** X6. A [READY] or [RESUMED] dispatch on an open socket leaves
    [offlineSendQueue] as long as it was, but none of its promises
    pending: a second such dispatch writes no frame again. *)
Theorem X6_flush_is_not_repeated (packet again : Packet) (m : Machine) :
  releases packet = true ->
  releases again = true ->
  isOpen (shard m) = true ->
  let m' := onpacket packet m in
  offlineSendQueue (shard m') = offlineSendQueue (shard m) /\
  pending m' = [] /\
  frames_of (effects_since m' (onpacket again m')) = [].
Proof.
  intros Hrel Hagain Hopen m'.
  assert (H : isOpen (shard m') = true /\
              offlineSendQueue (shard m') = offlineSendQueue (shard m) /\
              pending m' = []).
  { subst m'. destruct packet as [sq bd].
    unfold releases in Hrel. simpl in Hrel.
    destruct bd as [ | | | | | ev | ]; try discriminate.
    assert (U : forall m1, unseen m m1 ->
              let m2 := flush_offlineSendQueue
                          (handlePayload {| packet_s := sq; packet_body := Dispatch ev |})
                          m1 in
              isOpen (shard m2) = true /\
              offlineSendQueue (shard m2) = offlineSendQueue (shard m) /\
              pending m2 = []).
    { intros m1 Hun m2.
      destruct (unseen_pending _ _ Hun) as (_ & Ho). rewrite Hopen in Ho.
      destruct Hun as (_ & Hq & _).
      destruct (flush_open_state {| packet_s := sq; packet_body := Dispatch ev |}
                                 m1 Ho) as (A & B & C).
      fold m2 in A, B, C. rewrite B, Hq. repeat split; assumption. }
    destruct ev as [ | u sid | ]; try discriminate;
      unfold onpacket, andThen; cbn [packet_body packet_s];
      apply U;
      repeat (eapply unseen_trans;
              [|first [apply unseen_set_data | apply unseen_log]]);
      destruct sq; first [apply unseen_set_data | apply unseen_refl]. }
  destruct H as (Hopen' & Hq & Hp).
  split; [exact Hq|]. split; [exact Hp|].
  rewrite (onpacket_releases again m' Hagain Hopen'), Hp. reflexivity.
Qed.

Lemma X6_flush_is_not_repeated_witness :
  let m := step socket_opens
                (run (calls [(false, frame_B); (true, frame_A)])
                     connecting_machine) in
  isOpen (shard m) = true /\
  pending (onpacket ready_packet m) = [].
Proof.
  split; [reflexivity|].
  exact (proj1 (proj2 (X6_flush_is_not_repeated
                         ready_packet ready_packet
                         (step socket_opens
                               (run (calls [(false, frame_B); (true, frame_A)])
                                    connecting_machine))
                         eq_refl eq_refl eq_refl))).
Defined.

(** ** [send], the bucket and the log line *)

(** X7. [send] charges the bucket once for every message, before it hands
    the message to the socket, but not always at that moment.  With the
    socket open the bucket is charged with the [force] of the message and
    the message is written at once.  With the socket not open nothing is
    written, the bucket is not charged and the message is parked.
    Resolving the parked promise charges the bucket; on an open socket the
    message is then written, and on a socket that is not open it is parked
    a second time.  Resolving the second promise charges nothing: it hands
    the message to the socket the shard has, open or not.  [send] never
    closes the socket, never calls [connect] and never touches the session
    or the heart.  (For a shard that can log a payload.) *)
Theorem X7_send_charges_once (force : bool) (message : Payload) (m : Machine) :
  can_log (shard m) ->
  let m' := send force message m in
  let parked := mkResolver (nextPromise m) force message BeforeBucket in
  data (shard m') = data (shard m) /\
  heart (shard m') = heart (shard m) /\
  websocket (shard m') = websocket (shard m) /\
  closes_of (effects_since m m') = [] /\
  waits_of (effects_since m m') = 0%nat /\
  (if isOpen (shard m)
   then frames_of (effects_since m m') = [message] /\
        processed (bucket (shard m'))
        = (processed (bucket (shard m)) ++ [force])%list
   else frames_of (effects_since m m') = [] /\
        bucket (shard m') = bucket (shard m) /\
        offlineSendQueue (shard m')
        = (if force then parked :: offlineSendQueue (shard m)
           else offlineSendQueue (shard m) ++ [parked])%list) /\
  (forall later : Machine,
      let later' := resolved parked later in
      let again := mkResolver (nextPromise later) force message BeforeWrite in
      processed (bucket (shard later'))
      = (processed (bucket (shard later)) ++ [force])%list /\
      (if isOpen (shard later)
       then frames_of (effects_since later later') = [message] /\
            offlineSendQueue (shard later') = offlineSendQueue (shard later)
       else frames_of (effects_since later later') = [] /\
            offlineSendQueue (shard later')
            = (if force then again :: offlineSendQueue (shard later)
               else offlineSendQueue (shard later) ++ [again])%list) /\
      (forall last : Machine,
          let last' := resolved again last in
          bucket (shard last') = bucket (shard last) /\
          offlineSendQueue (shard last') = offlineSendQueue (shard last) /\
          frames_of (effects_since last last')
          = match websocket (shard last) with
            | Some _ => [message]
            | None => []
            end)).
Proof.
  intros Hlog m' parked. subst m'.
  rewrite (send_announces _ _ _ Hlog).
  destruct (announce_frame message m)
    as (Hsh & _ & _ & Hnp & _ & _ & line & Hline & Hfr & _).
  assert (Hcl : closes_of line = [] /\ waits_of line = 0%nat).
  { revert Hline. unfold announce.
    destruct (logger (shard m)); [destruct (redact _ _)|]; simpl; intros E.
    - apply app_inv_head in E. subst line. split; reflexivity.
    - rewrite <- (app_nil_r (effects m)) in E at 1.
      apply app_inv_head in E. subst line. split; reflexivity.
    - rewrite <- (app_nil_r (effects m)) in E at 1.
      apply app_inv_head in E. subst line. split; reflexivity. }
  destruct Hcl as (Hcl & Hwt).
  assert (Hlast : forall (again : Resolver) (last : Machine),
             parked_stage again = BeforeWrite ->
             parked_message again = message ->
             bucket (shard (resolved again last)) = bucket (shard last) /\
             offlineSendQueue (shard (resolved again last))
             = offlineSendQueue (shard last) /\
             frames_of (effects_since last (resolved again last))
             = match websocket (shard last) with
               | Some _ => [message]
               | None => []
               end).
  { intros again last Hstage Hmessage. unfold resolved.
    rewrite Hstage, Hmessage. unfold websocket_send.
    destruct (websocket (shard last)) as [ws|].
    - split; [reflexivity|]. split; [reflexivity|].
      erewrite effects_since_app by (simpl; reflexivity). reflexivity.
    - split; [reflexivity|]. split; [reflexivity|].
      rewrite effects_since_same by reflexivity. reflexivity. }
  assert (Hlater : forall later : Machine,
      let later' := resolved parked later in
      let again := mkResolver (nextPromise later) force message BeforeWrite in
      processed (bucket (shard later'))
      = (processed (bucket (shard later)) ++ [force])%list /\
      (if isOpen (shard later)
       then frames_of (effects_since later later') = [message] /\
            offlineSendQueue (shard later') = offlineSendQueue (shard later)
       else frames_of (effects_since later later') = [] /\
            offlineSendQueue (shard later')
            = (if force then again :: offlineSendQueue (shard later)
               else offlineSendQueue (shard later) ++ [again])%list) /\
      (forall last : Machine,
          let last' := resolved again last in
          bucket (shard last') = bucket (shard last) /\
          offlineSendQueue (shard last') = offlineSendQueue (shard last) /\
          frames_of (effects_since last last')
          = match websocket (shard last) with
            | Some _ => [message]
            | None => []
            end)).
  { intros later later' again. subst later'.
    split; [|split].
    - unfold resolved. simpl.
      destruct (isOpen (shard later)) eqn:Hopen.
      + rewrite send_charged_open by exact Hopen. reflexivity.
      + rewrite send_charged_offline by exact Hopen. reflexivity.
    - unfold resolved. simpl.
      destruct (isOpen (shard later)) eqn:Hopen.
      + rewrite send_charged_open by exact Hopen.
        erewrite effects_since_app by (simpl; reflexivity).
        split; reflexivity.
      + rewrite send_charged_offline by exact Hopen.
        rewrite effects_since_same by reflexivity.
        split; reflexivity.
    - intros last. apply Hlast; reflexivity. }
  unfold checkOffline. rewrite Hsh.
  destruct (isOpen (shard m)) eqn:Hopen; simpl negb; cbv iota.
  - rewrite send_charged_open by (rewrite Hsh; exact Hopen).
    assert (E : effects (emit (WsSend message)
                   (on_shard (fun sh => set_bucket (Bucket_process force (bucket sh)) sh)
                             (announce message m)))
                = (effects m ++ line ++ [WsSend message])%list).
    { simpl. rewrite Hline, <- app_assoc. reflexivity. }
    rewrite (effects_since_app _ _ _ E).
    unfold closes_of, waits_of, frames_of in *.
    rewrite !flat_map_app, filter_app, length_app, Hcl, Hfr, Hwt.
    simpl. rewrite Hsh.
    split; [reflexivity|]. split; [reflexivity|]. split; [reflexivity|].
    split; [reflexivity|]. split; [reflexivity|].
    split; [split; reflexivity | exact Hlater].
  - assert (E : effects (park force message BeforeBucket (announce message m))
                = (effects m ++ line)%list) by exact Hline.
    rewrite (effects_since_app _ _ _ E).
    simpl. rewrite Hsh, Hnp. fold parked.
    split; [reflexivity|]. split; [reflexivity|]. split; [reflexivity|].
    split; [exact Hcl|]. split; [exact Hwt|].
    split; [|exact Hlater].
    split; [exact Hfr|]. split; reflexivity.
Qed.

Lemma X7_send_charges_once_witness :
  can_log (shard open_machine) /\
  processed (bucket (shard (send false frame_A open_machine)))
  = (processed (bucket (shard open_machine)) ++ [false])%list.
Proof.
  assert (H : can_log (shard open_machine)).
  { right. unfold three_segments. simpl. lia. }
  split; [exact H|].
  exact (proj2 (proj1 (proj2 (proj2 (proj2 (proj2 (proj2
           (X7_send_charges_once false frame_A open_machine H)))))))).
Defined.

(** ** A token of fewer than three segments *)

(** X8. On a shard that has a logger and whose token has fewer than three
    segments between dots, [identify()] and [resume()] fail while they build
    their log line: nothing is written, nothing is queued and the bucket is
    not charged. *)
Theorem X8_short_token_throws (m : Machine) (l : Logger) :
  logger (shard m) = Some l ->
  (List.length (Str.split_dot (opt_token (options (shard m)))) < 3)%nat ->
  identify m = emit TypeError m /\ resume m = emit TypeError m.
Proof.
  intros Hl Hshort.
  assert (Hbot : replacer (opt_token (options (shard m)))
                          ("Bot " ++ opt_token (options (shard m))) = None).
  { unfold replacer, Str.replaceAll.
    rewrite <- (append_nil_r (opt_token (options (shard m)))) at 2.
    apply (replaceAll_from_throws _ mask EmptyString (mask_short _ Hshort) "Bot "). }
  split.
  - unfold identify, send. rewrite Hl. cbn [d redact option_map].
    rewrite Hbot. reflexivity.
  - unfold resume, send. rewrite Hl. unfold resume_frame. cbn [d redact option_map].
    destruct (replacer _ (match session_id _ with Some sid => sid | None => "" end));
      rewrite Hbot; reflexivity.
Qed.

Lemma X8_short_token_throws_witness :
  let m := boot example_runtime (Shard_new "linux" 0 (example_options "secret" true)) 0 in
  effects (identify m) = [TypeError].
Proof.
  intros m.
  rewrite (proj1 (X8_short_token_throws m (mkLogger "SHARD" 0) eq_refl
                                        ltac:(simpl; lia))).
  reflexivity.
Defined.

(** Running a handler on a machine whose [readyState] is one of the cases
    of [split_readyState]: comparisons are computed. *)
Ltac eval_concrete :=
  cbv beta iota zeta delta
      -[app skipn List.length Z.add Z.sub Z.max filter Nat.eqb
        closes_of frames_of waits_of sockets_of forwards_of effects_since In
        redact String.append existsb resumable];
  unfold effects_since; cbn [effects];
  rewrite <- ?app_assoc;
  rewrite ?skipn_app_app, ?skipn_length_app, ?skipn_length_self;
  cbn [closes_of frames_of waits_of sockets_of forwards_of flat_map filter
       app skipn List.length].

(** The cases of [readyState === 1]. *)
Ltac split_readyState rs := destruct rs as [|[?p|?p|]|?p].

(** ** [connect] *)

(** What [connect] does once it is through the gate, by the answers of the
    runtime. *)
Lemma step_gate_opens (m : Machine) :
  gate m <> O ->
  isOpen (shard m) = false ->
  step gate_opens m
  = match URL_new (runtime m) (currentGatewayText (shard m)) with
    | Some text =>
        if WebSocket_accepts (runtime m) (mkGatewayURL text "10")
        then opened (mkGatewayURL text "10") (leave_gate m)
        else refused (mkGatewayURL text "10") (leave_gate m)
    | None => emit TypeError (cancelled (leave_gate m))
    end.
Proof.
  intros Hgate Hopen. simpl.
  destruct (gate m) as [|g] eqn:Eg; [contradiction|].
  unfold andThen, connect_resumed.
  change (shard (leave_gate m)) with (shard m). rewrite Hopen.
  unfold andThen, currentGatewayURL, cancelled. cbv beta.
  assert (Hsh : forall h, shard (clearInterval h (leave_gate m)) = shard m)
    by (intros [t|]; reflexivity).
  assert (Hrt : forall h, runtime (clearInterval h (leave_gate m)) = runtime m)
    by (intros [t|]; reflexivity).
  rewrite Hsh, Hrt.
  destruct (URL_new (runtime m) (currentGatewayText (shard m))) as [text|];
    [|reflexivity].
  unfold WebSocket_new, opened, refused, cancelled, andThen.
  change (shard (leave_gate m)) with (shard m).
  replace (runtime (log Debug (ConnectingTo (mkGatewayURL text "10"))
                        (clearInterval (nodeInterval (heart (shard m)))
                                       (leave_gate m))))
    with (runtime m); [reflexivity|].
  unfold log. rewrite Hsh.
  destruct (logger (shard m)); simpl; rewrite Hrt; reflexivity.
Qed.


Lemma opened_facts (u : GatewayURL) (m : Machine) :
  runtime (opened u m) = runtime m /\
  currentGatewayText (shard (opened u m)) = currentGatewayText (shard m) /\
  data (shard (opened u m)) = data (shard m) /\
  isOpen (shard (opened u m)) = false /\
  gate (opened u m) = gate m.
Proof.
  split_machine m. destruct lg as [l|], ni as [t|]; repeat split.
Qed.

(** X9. Only an open socket stops [connect].  On an open shard a call of
    [connect] that gets through the gate changes nothing, the heartbeat
    timer included.  On a shard that is not open, a socket that is still
    connecting included, every call that gets through cancels the timer and
    then builds the current gateway URL: when the runtime takes the URL
    and opens a socket to it, the call opens a socket of its own, so two
    calls in a row open two sockets and the shard keeps the second; when
    the text is not a URL the call throws a [TypeError], and when the
    socket is refused a [SyntaxError], and in both cases the shard keeps
    the socket it had and no socket is opened. *)
Theorem X9_connect_only_stopped_when_open (m : Machine) :
  (isOpen (shard m) = true ->
   let m' := run [call_connect; gate_opens] m in
   shard m' = shard m /\ timers m' = timers m /\
   sockets_of (effects_since m m') = []) /\
  (isOpen (shard m) = false ->
   match currentGatewayURL (runtime m) (shard m) with
   | Some u =>
       if WebSocket_accepts (runtime m) u then
         let m' := run [call_connect; call_connect; gate_opens; gate_opens] m in
         sockets_of (effects_since m m') = [u; u] /\
         websocket (shard m') = Some (mkWebSocket u 0) /\
         timers m' = dropped m /\
         gate m' = gate m
       else
         let m' := run [call_connect; gate_opens] m in
         sockets_of (effects_since m m') = [] /\
         In SyntaxError (effects_since m m') /\
         websocket (shard m') = websocket (shard m) /\
         timers m' = dropped m /\
         gate m' = gate m
   | None =>
       let m' := run [call_connect; gate_opens] m in
       sockets_of (effects_since m m') = [] /\
       In TypeError (effects_since m m') /\
       websocket (shard m') = websocket (shard m) /\
       timers m' = dropped m /\
       gate m' = gate m
   end).
Proof.
  split.
  - split_machine m. intros Hopen.
    destruct ws as [[u rs]|]; [|discriminate].
    split_readyState rs; try discriminate Hopen.
    destruct lg as [l|]; eval_concrete; repeat split; reflexivity.
  - intros Hopen. unfold currentGatewayURL, run. cbn [fold_left].
    destruct (URL_new (runtime m) (currentGatewayText (shard m)))
      as [text|] eqn:Hurl;
      [destruct (WebSocket_accepts (runtime m) (mkGatewayURL text "10")) eqn:Hwa|];
      cbv zeta.
    + rewrite (step_gate_opens (step call_connect (step call_connect m)))
        by (first [discriminate | exact Hopen]).
      change (runtime (step call_connect (step call_connect m))) with (runtime m).
      change (shard (step call_connect (step call_connect m))) with (shard m).
      rewrite Hurl, Hwa.
      set (m1 := leave_gate (step call_connect (step call_connect m))).
      destruct (opened_facts (mkGatewayURL text "10") m1)
        as (Hrt & Htext & _ & Hclosed & Hgate).
      rewrite (step_gate_opens (opened (mkGatewayURL text "10") m1))
        by (first [rewrite Hgate; discriminate | exact Hclosed]).
      rewrite Hrt, Htext.
      change (runtime m1) with (runtime m).
      change (shard m1) with (shard m).
      rewrite Hurl, Hwa. subst m1. clear.
      split_machine m.
      destruct lg as [l|], ni as [t|]; eval_concrete;
        rewrite ?filter_twice; repeat split; reflexivity.
    + rewrite (step_gate_opens (step call_connect m))
        by (first [discriminate | exact Hopen]).
      change (runtime (step call_connect m)) with (runtime m).
      change (shard (step call_connect m)) with (shard m).
      rewrite Hurl, Hwa. clear.
      split_machine m.
      destruct lg as [l|], ni as [t|]; eval_concrete;
        repeat split; auto using in_eq, in_cons.
    + rewrite (step_gate_opens (step call_connect m))
        by (first [discriminate | exact Hopen]).
      change (runtime (step call_connect m)) with (runtime m).
      change (shard (step call_connect m)) with (shard m).
      rewrite Hurl. clear.
      split_machine m.
      destruct lg as [l|], ni as [t|]; eval_concrete;
        repeat split; auto using in_eq, in_cons.
Qed.

Lemma X9_connect_only_stopped_when_open_witness :
  isOpen (shard connecting_machine) = false /\
  List.length
    (sockets_of
       (effects_since connecting_machine
          (run [call_connect; call_connect; gate_opens; gate_opens]
               connecting_machine)))
  = 2%nat.
Proof.
  split; [reflexivity|].
  rewrite (proj1 (proj2 (X9_connect_only_stopped_when_open connecting_machine)
                        eq_refl)).
  reflexivity.
Defined.

(** ** Heartbeat, acknowledgement, latency *)

(** X10. The heartbeat cycle.  An unrequested heartbeat on a shard whose
    last one was acknowledged closes nothing and marks the acknowledgement
    pending; a [HeartbeatAck] that arrives after [dt] milliseconds marks it
    received again, so that the next unrequested heartbeat closes nothing
    either, and [latency] is then the time between the beat and the
    acknowledgement (or [Infinity] when one of the two timestamps is 0).
    Without the acknowledgement the next unrequested heartbeat closes an
    open socket with 3010. *)
Theorem X10_heartbeat_cycle (m : Machine) (dt : Z) (sq : option Z) :
  ack (heart (shard m)) = true ->
  let beaten := advance dt (heartbeat false m) in
  let acked := onpacket (mkPacket sq HeartbeatAck) beaten in
  closes_of (effects_since m beaten) = [] /\
  ack (heart (shard beaten)) = false /\
  ack (heart (shard acked)) = true /\
  lastBeat (heart (shard acked)) = Some (clock m) /\
  lastAck (heart (shard acked)) = Some (clock m + Z.max 0 dt) /\
  latency (shard acked)
  = (if (clock m + Z.max 0 dt =? 0) || (clock m =? 0) then PosInfinity
     else Num (Z.max 0 dt)) /\
  closes_of (effects_since acked (heartbeat false acked)) = [] /\
  closes_of (effects_since beaten (heartbeat false beaten))
  = (if isOpen (shard m) then [(3010, "Zombied connection")] else []).
Proof.
  split_machine m. simpl. intros ->.
  destruct lg as [l|], ws as [[u rs]|], ni as [t|], sq as [n|];
    eval_machine; try (destruct (rs =? 1); eval_machine);
    repeat split; try reflexivity;
    replace (ck + Z.max 0 dt - ck) with (Z.max 0 dt) by lia; reflexivity.
Qed.

Lemma X10_heartbeat_cycle_witness :
  let m := advance 1700000000000 open_machine in
  ack (heart (shard m)) = true /\
  latency (shard (onpacket (mkPacket None HeartbeatAck)
                           (advance 42 (heartbeat false m))))
  = Num 42.
Proof.
  split; [reflexivity|].
  exact (proj1 (proj2 (proj2 (proj2 (proj2 (proj2
           (X10_heartbeat_cycle (advance 1700000000000 open_machine)
                                42 None eq_refl))))))).
Defined.

(** ** [Hello] *)

Lemma resumable_data (a b : Shard) :
  data a = data b -> resumable a = resumable b.
Proof. unfold resumable. intros ->. reflexivity. Qed.

Ltac settle_redact Htok :=
  repeat match goal with
         | |- context [redact ?t ?d] =>
             let shown := fresh "shown" in
             destruct (redact_total t Htok d) as (shown & ->)
         end.

(** X11. [Hello] on an open socket of a shard whose last heartbeat was
    acknowledged: the shard adopts the interval of the packet, writes a
    heartbeat carrying the current sequence and then one frame more, the
    [Resume] frame when the session is resumable and the [Identify] frame
    otherwise; nothing is closed and nothing is queued.  (For a shard that
    can log a payload.) *)
Theorem X11_hello_handshake (sq : option Z) (ms : Z) (m : Machine) :
  isOpen (shard m) = true ->
  ack (heart (shard m)) = true ->
  can_log (shard m) ->
  let m' := onpacket (mkPacket sq (Hello ms)) m in
  frames_of (effects_since m m')
  = [heartbeat_frame (shard m'); handshake_frame (shard m')] /\
  closes_of (effects_since m m') = [] /\
  ack (heart (shard m')) = false /\
  interval (heart (shard m')) = ms /\
  offlineSendQueue (shard m') = offlineSendQueue (shard m).
Proof.
  split_machine m. destruct o as [tok ints props inf rl comp pres].
  intros Hopen Hack Hlog. simpl in Hack. subst ak.
  destruct ws as [[u rs]|]; [|discriminate].
  split_readyState rs; try discriminate Hopen.
  assert (Htok : lg = None \/ three_segments tok) by exact Hlog.
  clear Hlog Hopen.
  unfold handshake_frame.
  destruct lg as [l|], ni as [t|], sq as [n|];
    eval_concrete;
    match goal with
    | |- context [resumable ?s] => destruct (resumable s) eqn:R
    end;
    eval_concrete;
    try (destruct Htok as [Htok | Htok]; [discriminate|];
         settle_redact Htok; eval_concrete);
    match goal with
    | |- context [resumable ?s2] =>
        match type of R with
        | resumable ?s1 = _ =>
            rewrite (resumable_data s2 s1 eq_refl), R
        end
    end;
    repeat split; reflexivity.
Qed.

Lemma X11_hello_handshake_witness :
  isOpen (shard open_machine) = true /\
  map op (frames_of (effects_since open_machine
                                   (onpacket hello_packet open_machine)))
  = [1; 2].
Proof.
  assert (H : can_log (shard open_machine)).
  { right. unfold three_segments. simpl. lia. }
  split; [reflexivity|]. unfold hello_packet.
  rewrite (proj1 (X11_hello_handshake None 41250 open_machine eq_refl eq_refl H)).
  reflexivity.
Defined.

(** X12. [Hello] on an open socket of a shard whose last heartbeat was not
    acknowledged: the socket is closed with 3010 and no frame is written,
    yet the heartbeat timer is armed at the interval of the packet all the
    same, and the [Resume] or [Identify] frame is parked at the front of the
    offline queue.  (For a shard that can log a payload.) *)
Theorem X12_hello_on_zombie (sq : option Z) (ms : Z) (m : Machine) :
  isOpen (shard m) = true ->
  ack (heart (shard m)) = false ->
  can_log (shard m) ->
  let m' := onpacket (mkPacket sq (Hello ms)) m in
  closes_of (effects_since m m') = [(3010, "Zombied connection")] /\
  frames_of (effects_since m m') = [] /\
  isOpen (shard m') = false /\
  timers m' = (dropped m ++ [(nextTimer m, ms)])%list /\
  offlineSendQueue (shard m')
  = mkResolver (nextPromise m) true (handshake_frame (shard m')) BeforeBucket
    :: offlineSendQueue (shard m).
Proof.
  split_machine m. destruct o as [tok ints props inf rl comp pres].
  intros Hopen Hack Hlog. simpl in Hack. subst ak.
  destruct ws as [[u rs]|]; [|discriminate].
  split_readyState rs; try discriminate Hopen.
  assert (Htok : lg = None \/ three_segments tok) by exact Hlog.
  clear Hlog Hopen.
  unfold handshake_frame.
  destruct lg as [l|], ni as [t|], sq as [n|];
    eval_concrete;
    match goal with
    | |- context [resumable ?s] => destruct (resumable s) eqn:R
    end;
    eval_concrete;
    try (destruct Htok as [Htok | Htok]; [discriminate|];
         settle_redact Htok; eval_concrete);
    match goal with
    | |- context [resumable ?s2] =>
        match type of R with
        | resumable ?s1 = _ =>
            rewrite (resumable_data s2 s1 eq_refl), R
        end
    end;
    rewrite ?filter_twice; repeat split; reflexivity.
Qed.

Lemma X12_hello_on_zombie_witness :
  let m := on_shard (set_heart (with_ack false)) open_machine in
  isOpen (shard m) = true /\
  closes_of (effects_since m (onpacket hello_packet m))
  = [(3010, "Zombied connection")].
Proof.
  assert (H : can_log (shard (on_shard (set_heart (with_ack false)) open_machine))).
  { right. unfold three_segments. simpl. lia. }
  split; [reflexivity|].
  exact (proj1 (X12_hello_on_zombie
                  None 41250
                  (on_shard (set_heart (with_ack false)) open_machine)
                  eq_refl eq_refl H)).
Defined.

(** ** Where a reconnect goes *)

Lemma URL_new_Some (rt : Runtime) (text GATEWAY_URL : string) :
  URL_new rt text = Some GATEWAY_URL ->
  GATEWAY_URL = text /\ text <> EmptyString /\ URL_canParse rt text = true.
Proof.
  unfold URL_new. destruct text as [|c text]; [discriminate|].
  destruct (URL_canParse rt (String c text)); [|discriminate].
  intros E. inversion E. repeat split. discriminate.
Qed.

(** Reading the effects off a trace that was evaluated under a binder. *)
Ltac read_effects :=
  rewrite <- ?app_assoc;
  rewrite ?skipn_app_app, ?skipn_length_app, ?skipn_length_self;
  cbn [closes_of frames_of waits_of sockets_of forwards_of flat_map filter
       app skipn List.length].

(** An effect that occurs in a trace. *)
Ltac find_effect :=
  cbn [In]; solve [repeat (first [left; reflexivity | right])].

(** Unfolding the close handler on a code that is neither 3000 nor fatal. *)
Ltac split_close_code code Hcode :=
  let N := fresh "N" in
  let F := fresh "F" in
  let R := fresh "R" in
  let T := fresh "T" in
  destruct (Z.eqb_spec code 3000) as [? | N];
  [exfalso; apply Hcode; left; auto|];
  destruct (oneOf code fatal_codes) eqn:F;
  [ exfalso; apply oneOf_In in F; apply Hcode; right;
    unfold fatal_codes in F; simpl in F; simpl; intuition auto |];
  (destruct (oneOf code resumable_loss_codes) eqn:R;
   [|destruct (oneOf code transient_codes) eqn:T]);
  cbn [step websocket shard];
  unfold handleClosed, andThen, skip, target_after_close;
  change (code =? ShardSocketCloseCodes.Shutdown) with (code =? 3000);
  rewrite (proj2 (Z.eqb_neq code 3000)) by assumption;
  rewrite ?R, ?T, ?F.

Lemma socket_closes_reconnects (m : Machine) (ws : WebSocket)
      (code : Z) (reason : string) :
  websocket (shard m) = Some ws ->
  ~ In code [3000; 4004; 4010; 4011; 4012; 4013; 4014] ->
  let closed := step (socket_closes code reason) m in
  runtime closed = runtime m /\
  currentGatewayText (shard closed) = target_after_close code (shard m) /\
  isOpen (shard closed) = false /\
  gate closed = S (gate m) /\
  websocket (shard closed) = Some (mkWebSocket (url ws) 3) /\
  timers closed = dropped m /\
  sockets_of (effects_since m closed) = [] /\
  forall u : GatewayURL,
    (let m' := opened u (leave_gate closed) in
     sockets_of (effects_since m m') = [u] /\
     websocket (shard m') = Some (mkWebSocket u 0) /\
     timers m' = dropped m /\
     gate m' = gate m) /\
    (let m' := refused u (leave_gate closed) in
     sockets_of (effects_since m m') = [] /\
     In SyntaxError (effects_since m m') /\
     websocket (shard m') = Some (mkWebSocket (url ws) 3) /\
     timers m' = dropped m /\
     gate m' = gate m) /\
    (let m' := emit TypeError (cancelled (leave_gate closed)) in
     sockets_of (effects_since m m') = [] /\
     In TypeError (effects_since m m') /\
     websocket (shard m') = Some (mkWebSocket (url ws) 3) /\
     timers m' = dropped m /\
     gate m' = gate m).
Proof.
  split_machine m. simpl websocket. intros -> Hcode.
  destruct ws as [u0 rs].
  split_close_code code Hcode;
    destruct lg as [l|], ni as [t|];
    eval_concrete; rewrite ?filter_twice;
    repeat split; read_effects; try reflexivity; find_effect.
Qed.

(** X13. After the socket closes with a code that makes the shard
    reconnect, the call of [connect] that gets through the gate builds the
    URL of the new socket, with the version parameter 10, from the gateway
    URL of the options when the code is of the resumable-loss class, since
    the resume URL was dropped, and otherwise from the resume URL when the
    session has one.  When the runtime takes that text for a URL and opens
    a socket to it, the shard has a new socket there.  When the text is not
    a URL the call throws a [TypeError], and when the socket is refused a
    [SyntaxError]: no socket is opened then, and the shard is left with the
    closed socket and no heartbeat timer. *)
Theorem X13_reconnect_target (m : Machine) (ws : WebSocket)
        (code : Z) (reason : string) :
  websocket (shard m) = Some ws ->
  ~ In code [3000; 4004; 4010; 4011; 4012; 4013; 4014] ->
  let m' := run [socket_closes code reason; gate_opens] m in
  let target :=
    if oneOf code resumable_loss_codes then gatewayURL (shard m)
    else match resume_gateway_url (data (shard m)) with
         | Some u => u
         | None => gatewayURL (shard m)
         end in
  timers m' = dropped m /\
  gate m' = gate m /\
  match URL_new (runtime m) target with
  | Some GATEWAY_URL =>
      GATEWAY_URL = target /\
      if WebSocket_accepts (runtime m) (mkGatewayURL target "10") then
        sockets_of (effects_since m m') = [mkGatewayURL target "10"] /\
        websocket (shard m')
        = Some (mkWebSocket (mkGatewayURL target "10") 0)
      else
        sockets_of (effects_since m m') = [] /\
        In SyntaxError (effects_since m m') /\
        websocket (shard m') = Some (mkWebSocket (url ws) 3)
  | None =>
      sockets_of (effects_since m m') = [] /\
      In TypeError (effects_since m m') /\
      websocket (shard m') = Some (mkWebSocket (url ws) 3)
  end.
Proof.
  intros Hws Hcode m' target. subst m'. unfold run. cbn [fold_left].
  destruct (socket_closes_reconnects m ws code reason Hws Hcode)
    as (Hrt & Htext & Hclosed & Hgate & _ & _ & _ & Hthen).
  change (target_after_close code (shard m)) with target in Htext.
  rewrite (step_gate_opens (step (socket_closes code reason) m))
    by (first [rewrite Hgate; discriminate | exact Hclosed]).
  rewrite Hrt, Htext.
  destruct (URL_new (runtime m) target) as [text|] eqn:Hurl.
  - destruct (URL_new_Some _ _ _ Hurl) as (-> & _ & _).
    destruct (Hthen (mkGatewayURL target "10")) as (Hopened & Hrefused & _).
    destruct (WebSocket_accepts (runtime m) (mkGatewayURL target "10")).
    + destruct Hopened as (H1 & H2 & H3 & H4). auto.
    + destruct Hrefused as (H1 & H2 & H3 & H4 & H5). auto 6.
  - destruct (Hthen (mkGatewayURL target "10")) as (_ & _ & H1 & H2 & H3 & H4 & H5).
    auto 6.
Qed.

Lemma X13_reconnect_target_witness :
  let m := onpacket ready_packet open_machine in
  websocket (shard m)
  = Some (mkWebSocket (mkGatewayURL "wss://gateway.discord.gg" "10") 1) /\
  sockets_of (effects_since m (run [socket_closes 1006 ""; gate_opens] m))
  = [mkGatewayURL "wss://resume.example" "10"].
Proof.
  split; [reflexivity|].
  refine (proj1 (proj2 (proj2 (proj2 (X13_reconnect_target
                   (onpacket ready_packet open_machine)
                   (mkWebSocket (mkGatewayURL "wss://gateway.discord.gg" "10") 1)
                   1006 "" eq_refl _))))).
  simpl. intuition discriminate.
Defined.

(** ** [InvalidSession] *)

Lemma resumable_no_session (sh : Shard) :
  session_id (data sh) = None -> resumable sh = false.
Proof.
  unfold resumable. intros ->. simpl. rewrite andb_false_r. reflexivity.
Qed.

(** X14. [InvalidSession] on an open socket.  With [d] false the shard
    sets the sequence to 0, drops the session id, keeps the resume URL, and
    writes an [Identify] frame.  With [d] true it writes a [Resume] frame
    when the session is resumable; when it is not, it writes nothing, queues
    nothing and closes nothing, and the session stays as it was.  (For a
    shard that can log a payload.) *)
Theorem X14_invalid_session (sq : option Z) (hint : bool) (m : Machine) :
  isOpen (shard m) = true ->
  can_log (shard m) ->
  let m' := onpacket (mkPacket sq (InvalidSession hint)) m in
  frames_of (effects_since m m')
  = (if hint
     then if resumable (shard m') then [resume_frame (shard m')] else []
     else [identify_frame (shard m')]) /\
  closes_of (effects_since m m') = [] /\
  waits_of (effects_since m m') = 0%nat /\
  offlineSendQueue (shard m') = offlineSendQueue (shard m) /\
  data (shard m')
  = (if hint
     then match sq with
          | Some n => with_resume_seq (Seq n) (data (shard m))
          | None => data (shard m)
          end
     else mkShardData (Seq 0) (resume_gateway_url (data (shard m))) None).
Proof.
  split_machine m. destruct o as [tok ints props inf rl comp pres].
  intros Hopen Hlog.
  destruct ws as [[u rs]|]; [|discriminate].
  split_readyState rs; try discriminate Hopen.
  assert (Htok : lg = None \/ three_segments tok) by exact Hlog.
  clear Hlog Hopen.
  destruct hint.
  - destruct lg as [l|], sq as [n|];
      eval_concrete;
      match goal with
      | |- context [resumable ?s] => destruct (resumable s) eqn:R
      end;
      eval_concrete;
      try (destruct Htok as [Htok | Htok]; [discriminate|];
           settle_redact Htok; eval_concrete);
      match goal with
      | |- context [resumable ?s2] =>
          match type of R with
          | resumable ?s1 = _ =>
              first [ rewrite R
                    | rewrite (resumable_data s2 s1 eq_refl), R ]
          end
      end;
      repeat split; reflexivity.
  - destruct lg as [l|], sq as [n|];
      eval_concrete;
      try (destruct Htok as [Htok | Htok]; [discriminate|];
           settle_redact Htok; eval_concrete);
      repeat split; reflexivity.
Qed.

Lemma X14_invalid_session_witness :
  isOpen (shard open_machine) = true /\
  frames_of (effects_since open_machine
               (onpacket (mkPacket None (InvalidSession true)) open_machine))
  = [].
Proof.
  assert (H : can_log (shard open_machine)).
  { right. unfold three_segments. simpl. lia. }
  split; [reflexivity|].
  rewrite (proj1 (X14_invalid_session None true open_machine eq_refl H)).
  reflexivity.
Defined.

(** ** A session that survives a transient close *)

Ltac eval_session :=
  cbv beta iota zeta delta
      -[app skipn List.length Z.add Z.sub Z.max filter Nat.eqb
        closes_of frames_of waits_of sockets_of forwards_of effects_since In
        redact String.append existsb];
  unfold effects_since; cbn [effects];
  rewrite <- ?app_assoc;
  rewrite ?skipn_app_app, ?skipn_length_app, ?skipn_length_self;
  cbn [closes_of frames_of waits_of sockets_of forwards_of flat_map filter
       app skipn List.length].

Lemma resumable_inv (sh : Shard) :
  resumable sh = true ->
  exists rq c u c' sid,
    rq <> Null /\
    data sh = mkShardData rq (Some (String c u)) (Some (String c' sid)).
Proof.
  unfold resumable. destruct (data sh) as [rq [[|c u]|] [[|c' sid]|]];
    simpl; try discriminate.
  intros H. exists rq, c, u, c', sid. split; [|reflexivity].
  intros ->. discriminate.
Qed.

(** X15. [READY] stores the resume URL and the session id it carries, and
    a session that is resumable survives a close that makes the shard
    reconnect without dropping the session (any code other than 3000, the
    fatal ones and the resumable-loss ones).  When the runtime takes the
    resume URL for a URL and opens a socket to it, the new socket goes to
    the resume URL, and the [Hello] received on it is answered by a
    heartbeat and a [Resume] frame that carry the stored session id and the
    latest sequence.  When the resume URL is not a URL, or the socket is
    refused, [connect] throws: no socket is opened, and no frame follows.
    (For a shard that can log a payload.) *)
Theorem X15_session_survives_transient_close
        (m : Machine) (ws : WebSocket) (code : Z) (reason : string)
        (sq : option Z) (ms : Z) :
  (forall u sid,
      data (shard (onpacket (mkPacket sq (Dispatch (Ready u sid))) m))
      = mkShardData (match sq with
                     | Some n => Seq n
                     | None => resume_seq (data (shard m))
                     end) (Some u) (Some sid)) /\
  (websocket (shard m) = Some ws ->
   can_log (shard m) ->
   resumable (shard m) = true ->
   ~ In code [3000; 4004; 4010; 4011; 4012; 4013; 4014;
              1000; 4001; 4007; 4009] ->
   let m' := run [socket_closes code reason; gate_opens; socket_opens;
                  socket_message (Some (mkPacket sq (Hello ms)))] m in
   exists text : string,
     resume_gateway_url (data (shard m)) = Some text /\
     match URL_new (runtime m) text with
     | Some _ =>
         if WebSocket_accepts (runtime m) (mkGatewayURL text "10") then
           sockets_of (effects_since m m') = [mkGatewayURL text "10"] /\
           frames_of (effects_since m m')
           = [heartbeat_frame (shard m'); resume_frame (shard m')] /\
           session_id (data (shard m')) = session_id (data (shard m)) /\
           resume_seq (data (shard m'))
           = match sq with
             | Some n => Seq n
             | None => resume_seq (data (shard m))
             end
         else
           sockets_of (effects_since m m') = [] /\
           frames_of (effects_since m m') = [] /\
           In SyntaxError (effects_since m m')
     | None =>
         sockets_of (effects_since m m') = [] /\
         frames_of (effects_since m m') = [] /\
         In TypeError (effects_since m m')
     end).
Proof.
  split.
  - intros u sid. unfold onpacket, andThen. cbn [packet_body packet_s].
    rewrite same_session_flush. simpl.
    rewrite same_session_log. destruct sq; reflexivity.
  - intros Hws Hlog Hres Hcode m'. subst m'.
    destruct (resumable_inv _ Hres) as (rq & c & u & c' & sid & Hrq & Hdata).
    exists (String c u). split; [rewrite Hdata; reflexivity|].
    assert (Hcode' : ~ In code [3000; 4004; 4010; 4011; 4012; 4013; 4014])
      by (simpl in *; tauto).
    assert (R : oneOf code resumable_loss_codes = false).
    { destruct (oneOf code resumable_loss_codes) eqn:R; [|reflexivity].
      exfalso. apply oneOf_In in R. apply Hcode.
      unfold resumable_loss_codes in R. simpl in R. simpl. intuition auto. }
    destruct (socket_closes_reconnects m ws code reason Hws Hcode')
      as (Hrt & Htext & Hclosed & Hgate & _).
    unfold target_after_close in Htext. rewrite R, Hdata in Htext.
    cbn [resume_gateway_url] in Htext.
    unfold run. cbn [fold_left].
    rewrite (step_gate_opens (step (socket_closes code reason) m))
      by (first [rewrite Hgate; discriminate | exact Hclosed]).
    rewrite Hrt, Htext. clear Hrt Htext Hclosed Hgate.
    assert (Hrest :
      forall closed : Machine -> Machine,
        (closed = opened (mkGatewayURL (String c u) "10") ->
         let m' := step (socket_message (Some (mkPacket sq (Hello ms))))
                     (step socket_opens
                        (closed (leave_gate (step (socket_closes code reason) m)))) in
         sockets_of (effects_since m m') = [mkGatewayURL (String c u) "10"] /\
         frames_of (effects_since m m')
         = [heartbeat_frame (shard m'); resume_frame (shard m')] /\
         session_id (data (shard m')) = session_id (data (shard m)) /\
         resume_seq (data (shard m'))
         = match sq with
           | Some n => Seq n
           | None => resume_seq (data (shard m))
           end) /\
        (closed = refused (mkGatewayURL (String c u) "10") ->
         let m' := step (socket_message (Some (mkPacket sq (Hello ms))))
                     (step socket_opens
                        (closed (leave_gate (step (socket_closes code reason) m)))) in
         sockets_of (effects_since m m') = [] /\
         frames_of (effects_since m m') = [] /\
         In SyntaxError (effects_since m m')) /\
        (closed = (fun m => emit TypeError (cancelled m)) ->
         let m' := step (socket_message (Some (mkPacket sq (Hello ms))))
                     (step socket_opens
                        (closed (leave_gate (step (socket_closes code reason) m)))) in
         sockets_of (effects_since m m') = [] /\
         frames_of (effects_since m m') = [] /\
         In TypeError (effects_since m m'))).
    { clear Hres. intros closed.
      split_machine m. destruct o as [tok ints props inf rl comp pres].
      simpl in Hws, Hdata. subst ws0 dt.
      assert (Htok : lg = None \/ three_segments tok) by exact Hlog.
      clear Hlog.
      destruct (Z.eqb_spec code 3000) as [E | N];
        [exfalso; apply Hcode; left; auto|].
      destruct (oneOf code fatal_codes) eqn:F.
      { exfalso. apply oneOf_In in F. apply Hcode.
        unfold fatal_codes in F. simpl in F. simpl. intuition auto. }
      destruct ws as [u0 rs].
      destruct rq as [| |k]; [|contradiction|];
      (destruct (oneOf code transient_codes) eqn:T;
       (split; [|split]); intros ->;
       cbn [step websocket shard];
       unfold handleClosed, andThen, skip;
       change (code =? ShardSocketCloseCodes.Shutdown) with (code =? 3000);
       rewrite (proj2 (Z.eqb_neq code 3000)) by assumption;
       rewrite ?R, ?T, ?F;
       destruct lg as [l|], ni as [t|], sq as [n|];
       eval_session;
       try (destruct Htok as [Htok | Htok]; [discriminate|];
            settle_redact Htok; eval_session);
       repeat split; try reflexivity; find_effect). }
    destruct (URL_new (runtime m) (String c u)) as [text|] eqn:Hurl;
      [destruct (URL_new_Some _ _ _ Hurl) as (-> & _);
       destruct (WebSocket_accepts (runtime m) (mkGatewayURL (String c u) "10"))|].
    + exact (proj1 (Hrest _) eq_refl).
    + exact (proj1 (proj2 (Hrest _)) eq_refl).
    + exact (proj2 (proj2 (Hrest (fun m => emit TypeError (cancelled m)))) eq_refl).
Qed.

Lemma X15_session_survives_transient_close_witness :
  let m := onpacket ready_packet open_machine in
  resumable (shard m) = true /\
  exists text : string,
    resume_gateway_url (data (shard m)) = Some text /\
    map op (frames_of
              (effects_since m
                 (run [socket_closes 1006 EmptyString; gate_opens; socket_opens;
                       socket_message (Some hello_packet)] m)))
    = [1; 6].
Proof.
  assert (H : can_log (shard (onpacket ready_packet open_machine))).
  { right. unfold three_segments. simpl. lia. }
  split; [reflexivity|]. unfold hello_packet.
  destruct (proj2 (X15_session_survives_transient_close
                     (onpacket ready_packet open_machine)
                     (mkWebSocket (mkGatewayURL "wss://gateway.discord.gg" "10") 1)
                     1006 EmptyString None 41250)
                  eq_refl H eq_refl
                  ltac:(simpl; intuition discriminate))
    as (text & Htext & Hthen).
  exists text. split; [exact Htext|].
  inversion Htext; subst text.
  rewrite (proj1 (proj2 Hthen)). reflexivity.
Defined.

(** ** The command prefix *)

Lemma insert_In (x y : string) (l : list string) :
  In y (CommandManager.insert x l) <-> y = x \/ In y l.
Proof.
  induction l as [|z l IH]; simpl.
  - intuition.
  - destruct (String.length x <? String.length z)%nat; simpl.
    + rewrite IH. intuition.
    + intuition.
Qed.

Lemma sort_In (y : string) (l : list string) :
  In y (CommandManager.sort l) <-> In y l.
Proof.
  unfold CommandManager.sort. induction l as [|x l IH]; simpl.
  - reflexivity.
  - rewrite insert_In, IH. intuition.
Qed.

Lemma insert_length (x : string) (l : list string) :
  List.length (CommandManager.insert x l) = S (List.length l).
Proof.
  induction l as [|z l IH]; simpl; [reflexivity|].
  destruct (String.length x <? String.length z)%nat; simpl; [rewrite IH|];
    reflexivity.
Qed.

Lemma sort_length (l : list string) :
  List.length (CommandManager.sort l) = List.length l.
Proof.
  unfold CommandManager.sort. induction l as [|x l IH]; simpl; [reflexivity|].
  rewrite insert_length, IH. reflexivity.
Qed.

Lemma insert_sorted (x : string) (l : list string) :
  StronglySorted by_length l ->
  StronglySorted by_length (CommandManager.insert x l).
Proof.
  induction 1 as [|z l Hs IH Hall]; simpl.
  - repeat constructor.
  - destruct (Nat.ltb_spec (String.length x) (String.length z)).
    + constructor; [exact IH|].
      apply Forall_forall. intros y Hy. apply insert_In in Hy.
      destruct Hy as [-> | Hy]; [unfold by_length; lia|].
      rewrite Forall_forall in Hall. apply Hall. exact Hy.
    + constructor; [constructor; assumption|].
      constructor; [unfold by_length; lia|].
      rewrite Forall_forall in Hall. apply Forall_forall. intros y Hy.
      specialize (Hall y Hy). unfold by_length in *. lia.
Qed.

Lemma sort_sorted (l : list string) :
  StronglySorted by_length (CommandManager.sort l).
Proof.
  unfold CommandManager.sort. induction l as [|x l IH]; simpl.
  - constructor.
  - apply insert_sorted. exact IH.
Qed.

Lemma find_sorted (f : string -> bool) (l : list string) :
  StronglySorted by_length l ->
  match find f l with
  | Some p => In p l /\ f p = true /\
              forall q, In q l -> f q = true ->
                        (String.length q <= String.length p)%nat
  | None => forall q, In q l -> f q = false
  end.
Proof.
  induction 1 as [|z l Hs IH Hall]; simpl.
  - intros q [].
  - destruct (f z) eqn:E.
    + split; [left; reflexivity|]. split; [exact E|].
      intros q [-> | Hq] _; [lia|].
      rewrite Forall_forall in Hall. apply (Hall q Hq).
    + destruct (find f l) as [p|].
      * destruct IH as (Hin & Hp & Hmax). split; [right; exact Hin|].
        split; [exact Hp|]. intros q [-> | Hq] Hfq; [congruence|].
        apply Hmax; assumption.
      * intros q [-> | Hq]; [exact E | apply IH; exact Hq].
Qed.

Lemma prefix_same_length (a b text : string) :
  prefix a text = true -> prefix b text = true ->
  String.length a = String.length b -> a = b.
Proof.
  intros Ha Hb Hlen. apply prefix_true in Ha, Hb.
  destruct Ha as (x & Ex), Hb as (y & Ey). subst text.
  destruct (append_split a x b y Ey ltac:(lia)) as (z & Ez & _).
  apply (f_equal String.length) in Ez. rewrite length_append in Ez.
  destruct z; [|simpl in Ez; lia].
  destruct (append_split a x b y Ey ltac:(lia)) as (z & -> & _).
  assert (String.length z = 0%nat) by (rewrite length_append in Hlen; lia).
  destruct z; [rewrite append_nil_r; reflexivity | discriminate].
Qed.

Lemma slice_prefix (p rest : string) :
  CommandManager.slice (String.length p) (p ++ rest) = rest.
Proof.
  induction p as [|c p IH]; simpl; [destruct rest; reflexivity | exact IH].
Qed.

Lemma trimStart_split (text : string) :
  exists blank,
    text = blank ++ CommandManager.trimStart text /\
    (forall c rest, CommandManager.trimStart text = String c rest ->
                    CommandManager.isWhiteSpace c = false) /\
    (forall n c, String.get n blank = Some c ->
                 CommandManager.isWhiteSpace c = true).
Proof.
  induction text as [|c text (blank & E & Hhead & Hblank)].
  - exists EmptyString. repeat split; intros; discriminate.
  - cbn [CommandManager.trimStart].
    destruct (CommandManager.isWhiteSpace c) eqn:W.
    + exists (String c blank). split; [simpl; rewrite <- E; reflexivity|].
      split; [exact Hhead|].
      intros [|n] c0 H; simpl in H.
      * inversion H; subst. exact W.
      * apply (Hblank n). exact H.
    + exists EmptyString. split; [reflexivity|].
      split; [intros c0 rest H; inversion H; subst; exact W|].
      intros n c0 H. destruct n; discriminate.
Qed.

(** X16. [message] logs a command exactly when one of the prefixes (the
    default ones and the ones of the handler) starts the content, and the
    prefix it logs is then the longest one that does, whatever the order of
    the prefixes; the empty prefix matches every content.  The content
    logged is what follows the prefix, without its leading white space. *)
Theorem X16_longest_prefix_wins
        (defaultPrefix fromHandler : option (list string)) (content : string) :
  let prefixes :=
    (match defaultPrefix with Some l => l | None => [] end
     ++ match fromHandler with Some l => l | None => [] end)%list in
  match snd (CommandManager.message defaultPrefix fromHandler content) with
  | Some line =>
      let p := CommandManager.detected_prefix line in
      In p prefixes /\
      (forall q, In q prefixes -> prefix q content = true ->
                 (String.length q <= String.length p)%nat) /\
      exists blank,
        content = p ++ blank ++ CommandManager.detected_content line /\
        (forall c rest, CommandManager.detected_content line = String c rest ->
                        CommandManager.isWhiteSpace c = false) /\
        (forall n c, String.get n blank = Some c ->
                     CommandManager.isWhiteSpace c = true)
  | None => forall q, In q prefixes -> prefix q content = false
  end.
Proof.
  intros prefixes. unfold CommandManager.message.
  set (all := match fromHandler with
              | Some more => (_ ++ more)%list
              | None => _
              end).
  assert (Hall : forall q, In q all <-> In q prefixes).
  { intros q. subst all prefixes. destruct fromHandler; [reflexivity|].
    rewrite app_nil_r. reflexivity. }
  cbn [snd].
  pose proof (find_sorted (fun x => prefix x content)
                          (CommandManager.sort all) (sort_sorted all)) as H.
  destruct (find _ (CommandManager.sort all)) as [p|].
  - destruct H as (Hin & Hp & Hmax). rewrite Hp. cbn.
    split; [apply Hall, sort_In; exact Hin|].
    split.
    + intros q Hq Hpre. apply Hmax; [apply sort_In, Hall; exact Hq | exact Hpre].
    + apply prefix_true in Hp. destruct Hp as (rest & ->).
      rewrite slice_prefix.
      destruct (trimStart_split rest) as (blank & E & Hhead & Hblank).
      exists blank. split; [rewrite <- E; reflexivity|].
      split; assumption.
  - intros q Hq. apply H. apply sort_In, Hall. exact Hq.
Qed.

Lemma find_same_set (content : string) (l1 l2 : list string) :
  (forall q, In q l1 <-> In q l2) ->
  find (fun x => prefix x content) (CommandManager.sort l1)
  = find (fun x => prefix x content) (CommandManager.sort l2).
Proof.
  intros Hset.
  pose proof (find_sorted (fun x => prefix x content)
                          (CommandManager.sort l1) (sort_sorted l1)) as H1.
  pose proof (find_sorted (fun x => prefix x content)
                          (CommandManager.sort l2) (sort_sorted l2)) as H2.
  destruct (find _ (CommandManager.sort l1)) as [p1|],
           (find _ (CommandManager.sort l2)) as [p2|].
  - destruct H1 as (I1 & P1 & M1), H2 as (I2 & P2 & M2).
    f_equal. apply (prefix_same_length p1 p2 content P1 P2).
    apply Nat.le_antisymm.
    + apply M2; [apply sort_In, Hset, sort_In; exact I1 | exact P1].
    + apply M1; [apply sort_In, Hset, sort_In; exact I2 | exact P2].
  - destruct H1 as (I1 & P1 & _).
    rewrite (H2 p1) in P1; [discriminate|].
    apply sort_In, Hset, sort_In. exact I1.
  - destruct H2 as (I2 & P2 & _).
    rewrite (H1 p2) in P2; [discriminate|].
    apply sort_In, Hset, sort_In. exact I2.
  - reflexivity.
Qed.

(** X17. The array of default prefixes is shared with the client: every
    message handled pushes the prefixes of the handler onto it once more and
    leaves it sorted, longer prefixes first, so after [n] messages it holds
    [n] copies of them beside the prefixes it had.  The command detected in
    the next message is the same as in the first.  Without default prefixes
    nothing is kept. *)
Theorem X17_shared_prefixes_grow
        (n : nat) (more : list string) (content : string) :
  forall shared : list string,
    (exists after,
        CommandManager.after_messages n (Some shared) (Some more) content
        = Some after /\
        List.length after = (List.length shared + n * List.length more)%nat /\
        (1 <= n -> forall q, In q after <-> In q shared \/ In q more)%nat /\
        (1 <= n -> StronglySorted by_length after)%nat /\
        snd (CommandManager.message (Some after) (Some more) content)
        = snd (CommandManager.message (Some shared) (Some more) content)) /\
    CommandManager.after_messages n None (Some more) content = None.
Proof.
  induction n as [|k IH]; intros shared.
  - split; [|reflexivity]. exists shared. simpl.
    split; [reflexivity|]. split; [lia|].
    split; [lia|]. split; [lia | reflexivity].
  - cbn [CommandManager.after_messages].
    change (fst (CommandManager.message (Some shared) (Some more) content))
      with (Some (CommandManager.sort (shared ++ more))).
    change (fst (CommandManager.message None (Some more) content))
      with (@None (list string)).
    destruct (IH (CommandManager.sort (shared ++ more)))
      as ((after & Hfst & Hlen & Hin & Hsorted & Hsnd) & Hnone).
    split; [|exact Hnone].
    exists after. split; [exact Hfst|].
    split; [rewrite Hlen, sort_length, length_app; lia|].
    assert (Hset : forall q, In q after <-> In q shared \/ In q more).
    { intros q. destruct k.
      - simpl in Hfst. inversion Hfst; subst.
        rewrite sort_In, in_app_iff. reflexivity.
      - rewrite (Hin ltac:(lia)), sort_In, in_app_iff. tauto. }
    split; [intros _; exact Hset|].
    split.
    + intros _. destruct k.
      * simpl in Hfst. inversion Hfst; subst. apply sort_sorted.
      * apply Hsorted. lia.
    + unfold CommandManager.message. cbn [snd].
      rewrite (find_same_set content (after ++ more) (shared ++ more));
        [reflexivity|].
      intros q. rewrite !in_app_iff, Hset. tauto.
Qed.

Lemma X17_shared_prefixes_grow_witness :
  CommandManager.after_messages 3 (Some ["!"]) (Some ["k!"; "?"]) "k! ping"
  = Some ["k!"; "k!"; "k!"; "!"; "?"; "?"; "?"] /\
  (1 <= 3)%nat /\
  StronglySorted by_length ["k!"; "k!"; "k!"; "!"; "?"; "?"; "?"].
Proof.
  split; [reflexivity|]. split; [lia|].
  destruct (X17_shared_prefixes_grow 3 ["k!"; "?"] "k! ping" ["!"])
    as ((after & Hfst & _ & _ & Hsorted & _) & _).
  simpl in Hfst. inversion Hfst; subst. apply Hsorted. lia.
Defined.

(** ** The [Reconnect] opcode *)

(** X18. [Reconnect] received on the open socket of a resumable shard:
    the socket is closed with 3000 and one call of [connect] joins the
    gate.  When it gets through and the runtime takes the resume URL for a
    URL and opens a socket to it, a new socket is opened at the resume URL;
    the close event of the old socket, which carries 3000, makes the shard
    neither reconnect again nor forget the session; and the [Hello] on the
    new socket is answered by a heartbeat and a [Resume] frame.  When the
    resume URL is not a URL, or the socket is refused, [connect] throws,
    no socket is opened and no frame follows.  (For a shard that can log a
    payload.) *)
Theorem X18_reconnect_opcode
        (m : Machine) (sq : option Z) (reason : string) (ms : Z) :
  isOpen (shard m) = true ->
  can_log (shard m) ->
  resumable (shard m) = true ->
  let m' := run [socket_message (Some (mkPacket sq Reconnect)); gate_opens;
                 replaced_socket_closes 3000 reason; socket_opens;
                 socket_message (Some (mkPacket None (Hello ms)))] m in
  closes_of (effects_since m m') = [(3000, "Shard down request")] /\
  waits_of (effects_since m m') = 1%nat /\
  gate m' = gate m /\
  session_id (data (shard m')) = session_id (data (shard m)) /\
  exists text : string,
    resume_gateway_url (data (shard m)) = Some text /\
    match URL_new (runtime m) text with
    | Some _ =>
        if WebSocket_accepts (runtime m) (mkGatewayURL text "10") then
          sockets_of (effects_since m m') = [mkGatewayURL text "10"] /\
          frames_of (effects_since m m')
          = [heartbeat_frame (shard m'); resume_frame (shard m')]
        else
          sockets_of (effects_since m m') = [] /\
          frames_of (effects_since m m') = [] /\
          In SyntaxError (effects_since m m')
    | None =>
        sockets_of (effects_since m m') = [] /\
        frames_of (effects_since m m') = [] /\
        In TypeError (effects_since m m')
    end.
Proof.
  intros Hopen Hlog Hres m'. subst m'.
  destruct (resumable_inv _ Hres) as (rq & c & u & c' & sid & Hrq & Hdata).
  set (asked := step (socket_message (Some (mkPacket sq Reconnect))) m).
  assert (Hasked : runtime asked = runtime m /\
                   currentGatewayText (shard asked) = String c u /\
                   isOpen (shard asked) = false /\
                   gate asked = S (gate m)).
  { subst asked. clear Hres Hlog. split_machine m.
    simpl in Hdata. subst dt.
    destruct ws as [[u0 rs]|]; [|discriminate].
    split_readyState rs; try discriminate Hopen.
    destruct lg as [l|], ni as [t|], sq as [n|];
      eval_session; repeat split; reflexivity. }
  destruct Hasked as (Hrt & Htext & Hclosed & Hgate).
  unfold run. cbn [fold_left]. fold asked.
  rewrite (step_gate_opens asked)
    by (first [rewrite Hgate; discriminate | exact Hclosed]).
  rewrite Hrt, Htext. clear Hrt Htext Hclosed Hgate.
  assert (Hrest :
    forall through : Machine -> Machine,
      let m' := step (socket_message (Some (mkPacket None (Hello ms))))
                  (step socket_opens
                     (step (replaced_socket_closes 3000 reason)
                        (through (leave_gate asked)))) in
      (through = opened (mkGatewayURL (String c u) "10") ->
       closes_of (effects_since m m') = [(3000, "Shard down request")] /\
       waits_of (effects_since m m') = 1%nat /\
       gate m' = gate m /\
       session_id (data (shard m')) = session_id (data (shard m)) /\
       sockets_of (effects_since m m') = [mkGatewayURL (String c u) "10"] /\
       frames_of (effects_since m m')
       = [heartbeat_frame (shard m'); resume_frame (shard m')]) /\
      (through = refused (mkGatewayURL (String c u) "10") ->
       closes_of (effects_since m m') = [(3000, "Shard down request")] /\
       waits_of (effects_since m m') = 1%nat /\
       gate m' = gate m /\
       session_id (data (shard m')) = session_id (data (shard m)) /\
       sockets_of (effects_since m m') = [] /\
       frames_of (effects_since m m') = [] /\
       In SyntaxError (effects_since m m')) /\
      (through = (fun m => emit TypeError (cancelled m)) ->
       closes_of (effects_since m m') = [(3000, "Shard down request")] /\
       waits_of (effects_since m m') = 1%nat /\
       gate m' = gate m /\
       session_id (data (shard m')) = session_id (data (shard m)) /\
       sockets_of (effects_since m m') = [] /\
       frames_of (effects_since m m') = [] /\
       In TypeError (effects_since m m'))).
  { subst asked. clear Hres. intros through.
    split_machine m. destruct o as [tok ints props inf rl comp pres].
    simpl in Hdata. subst dt.
    assert (Htok : lg = None \/ three_segments tok) by exact Hlog.
    clear Hlog.
    destruct ws as [[u0 rs]|]; [|discriminate].
    split_readyState rs; try discriminate Hopen. clear Hopen.
    destruct rq as [| |k]; [|contradiction|];
    (cbv zeta; (split; [|split]); intros ->;
     destruct lg as [l|], ni as [t|], sq as [n|];
     eval_session;
     try (destruct Htok as [Htok | Htok]; [discriminate|];
          settle_redact Htok; eval_session);
     repeat split; try reflexivity; find_effect). }
  assert (Hurl_text : resume_gateway_url (data (shard m)) = Some (String c u))
    by (rewrite Hdata; reflexivity).
  destruct (URL_new (runtime m) (String c u)) as [text|] eqn:Hurl;
    [destruct (URL_new_Some _ _ _ Hurl) as (-> & _);
     destruct (WebSocket_accepts (runtime m) (mkGatewayURL (String c u) "10"))
       eqn:Hwa|].
  - destruct (proj1 (Hrest _) eq_refl) as (H1 & H2 & H3 & H4 & H5 & H6).
    repeat (split; [assumption|]).
    exists (String c u). split; [exact Hurl_text|].
    rewrite Hurl, Hwa. split; assumption.
  - destruct (proj1 (proj2 (Hrest _)) eq_refl)
      as (H1 & H2 & H3 & H4 & H5 & H6 & H7).
    repeat (split; [assumption|]).
    exists (String c u). split; [exact Hurl_text|].
    rewrite Hurl, Hwa. repeat split; assumption.
  - destruct (proj2 (proj2 (Hrest (fun m => emit TypeError (cancelled m)))) eq_refl)
      as (H1 & H2 & H3 & H4 & H5 & H6 & H7).
    repeat (split; [assumption|]).
    exists (String c u). split; [exact Hurl_text|].
    rewrite Hurl. repeat split; assumption.
Qed.

Lemma X18_reconnect_opcode_witness :
  let m := onpacket ready_packet open_machine in
  isOpen (shard m) = true /\ resumable (shard m) = true /\
  waits_of
    (effects_since m
       (run [socket_message (Some (mkPacket None Reconnect)); gate_opens;
             replaced_socket_closes 3000 EmptyString; socket_opens;
             socket_message (Some (mkPacket None (Hello 41250)))] m))
  = 1%nat.
Proof.
  assert (H : can_log (shard (onpacket ready_packet open_machine))).
  { right. unfold three_segments. simpl. lia. }
  split; [reflexivity|]. split; [reflexivity|].
  exact (proj1 (proj2 (X18_reconnect_opcode
                         (onpacket ready_packet open_machine)
                         None EmptyString 41250 eq_refl H eq_refl))).
Defined.
